(** * mcm: version model, serialization, metadata cache and resolver

    A shallow embedding of the metadata-resolution core of [mcm]
    (src/mcm/common.py, modinfo.py, serialize.py, infomanager.py, resolve.py),
    the properties of the specification that are checked against it, and
    further properties that the code itself shows.

    Python objects are Rocq records, enums are inductive types, exceptions are
    the [Raise] branch of [result], a [dict] is an insertion-ordered
    association list, a [frozenset] is the list of its elements in iteration
    order, [datetime] is the naive record of its civil fields.  Strings are
    byte strings: ASCII text is exact, and since UTF-8 keeps code-point order,
    [String.ltb] is Python's [<] on [str]. *)

From Stdlib Require Import ZArith String Ascii List Lia Permutation Sorted.
From Stdlib Require Import DecimalString DecimalPos DecimalFacts.
From stdpp Require Import base strings list gmap numbers.
Import ListNotations.
Local Open Scope string_scope.
Local Open Scope Z_scope.

(** ** Exceptions and results *)

Inductive exn :=
| ValueError | TypeError | KeyError | AttributeError
| JSONDecodeError | Exception_ (msg : string) | BackendError (msg : string).

Inductive result (A : Type) :=
| Ok (a : A)
| Raise (e : exn).
Arguments Ok {A} a.
Arguments Raise {A} e.

#[global] Instance result_ret : MRet result := fun A a => Ok a.
#[global] Instance result_bind : MBind result :=
  fun A B f m => match m with Ok a => f a | Raise e => Raise e end.
#[global] Instance result_fmap : FMap result :=
  fun A B f m => match m with Ok a => Ok (f a) | Raise e => Raise e end.

#[global] Instance exn_eq_dec : EqDecision exn.
Proof. solve_decision. Defined.
#[global] Instance result_eq_dec {A} `{EqDecision A} : EqDecision (result A).
Proof. solve_decision. Defined.

(** [map f xs] consumed by a constructor: the first element that raises
    aborts the whole conversion. *)
Fixpoint map_result {A B} (f : A -> result B) (l : list A) : result (list B) :=
  match l with
  | [] => Ok []
  | x :: l' => y ← f x; ys ← map_result f l'; mret (y :: ys)
  end.

(** ** Structured (JSON) values, the wire format of serialize.py *)

#[warnings="-register-all"]
Inductive json :=
| JNull
| JBool (b : bool)
| JInt (n : Z)
| JStr (s : string)
| JList (l : list json)
| JDict (m : list (string * json)).

(** ** Values a rich comparison can hand back.

    [Ver.__lt__] returns a [bool] from inside its loop and a [str] when the
    loop runs to its end, so the result of [<] is kept as a Python value and
    read through its truth value, as [sorted], [not], [or] and [if] do. *)

Inductive pyval :=
| PyBool (b : bool)
| PyStr (s : string).

Definition truthy (v : pyval) : bool :=
  match v with
  | PyBool b => b
  | PyStr s => negb (String.eqb s "")
  end.

Definition py_not (v : pyval) : pyval := PyBool (negb (truthy v)).
Definition py_or (a b : pyval) : pyval := if truthy a then a else b.
Definition py_and (a b : pyval) : pyval := if truthy a then b else a.

(** ** Python string primitives *)

Definition is_digit (c : ascii) : bool :=
  ((48 <=? Z.of_nat (nat_of_ascii c)) && (Z.of_nat (nat_of_ascii c) <=? 57))%Z.
Definition is_lower (c : ascii) : bool :=
  ((97 <=? Z.of_nat (nat_of_ascii c)) && (Z.of_nat (nat_of_ascii c) <=? 122))%Z.
Definition is_upper (c : ascii) : bool :=
  ((65 <=? Z.of_nat (nat_of_ascii c)) && (Z.of_nat (nat_of_ascii c) <=? 90))%Z.

Definition lower_char (c : ascii) : ascii :=
  if is_upper c then ascii_of_nat (nat_of_ascii c + 32) else c.

(** [s.lower()] *)
Fixpoint lower (s : string) : string :=
  match s with
  | EmptyString => EmptyString
  | String c s' => String (lower_char c) (lower s')
  end.

Fixpoint all_chars (p : ascii -> bool) (s : string) : bool :=
  match s with
  | EmptyString => true
  | String c s' => p c && all_chars p s'
  end.

(** [s.isnumeric()] *)
Definition isnumeric (s : string) : bool :=
  negb (String.eqb s "") && all_chars is_digit s.

(** [s.startswith(p)] *)
Definition startswith (s p : string) : bool := String.prefix p s.

(** [sub in s] *)
Fixpoint contains (sub s : string) : bool :=
  String.prefix sub s ||
  match s with
  | EmptyString => false
  | String _ s' => contains sub s'
  end.

(** [s.partition(sep)] for a one-character separator: the text before the
    first [sep] and the text after it; [None] for the tail when [sep] does not
    occur (Python then returns two empty strings). *)
Fixpoint partition (sep : ascii) (s : string) : string * option string :=
  match s with
  | EmptyString => (EmptyString, None)
  | String c s' =>
      if Ascii.eqb c sep then (EmptyString, Some s')
      else let (h, t) := partition sep s' in (String c h, t)
  end.

(** [s.split(sep)]: always at least one piece. *)
Fixpoint split (sep : ascii) (s : string) : list string :=
  match s with
  | EmptyString => [EmptyString]
  | String c s' =>
      if Ascii.eqb c sep then EmptyString :: split sep s'
      else match split sep s' with
           | [] => [String c EmptyString]
           | p :: ps => String c p :: ps
           end
  end.

(** [sep.join(parts)] *)
Fixpoint join (sep : string) (parts : list string) : string :=
  match parts with
  | [] => EmptyString
  | [p] => p
  | p :: ps => p ++ sep ++ join sep ps
  end.

(** [str(n)] for an [int] *)
Definition str_of_int (n : Z) : string := NilZero.string_of_int (Z.to_int n).

Definition digit_val (c : ascii) : Z := Z.of_nat (nat_of_ascii c) - 48.

Fixpoint digits_val (acc : Z) (s : string) : Z :=
  match s with
  | EmptyString => acc
  | String c s' => digits_val (10 * acc + digit_val c) s'
  end.

(** [int(s)] on a decimal literal: an optional sign and a non-empty run of
    ASCII digits.  (Python also accepts surrounding blanks and single
    underscores between digits; those spellings are reported as [ValueError]
    here.) *)
Definition py_int (s : string) : result Z :=
  match s with
  | String "-" d => if isnumeric d then Ok (- digits_val 0 d) else Raise ValueError
  | String "+" d => if isnumeric d then Ok (digits_val 0 d) else Raise ValueError
  | _ => if isnumeric s then Ok (digits_val 0 s) else Raise ValueError
  end.

(** [repr(s)] of a [str]: single quotes unless the text holds a single quote
    and no double quote; the quote in use and the backslash are escaped, the
    three common control characters are spelled [\t \n \r], other control
    bytes as [\xHH]. *)
Definition hex_digit (n : nat) : ascii :=
  if (n <? 10)%nat then ascii_of_nat (48 + n) else ascii_of_nat (87 + n).

Fixpoint repr_body (q : ascii) (s : string) : string :=
  match s with
  | EmptyString => EmptyString
  | String c s' =>
      let n := nat_of_ascii c in
      (if Ascii.eqb c q || Ascii.eqb c "\" then String "\" (String c EmptyString)
       else if (n =? 9)%nat then "\t"
       else if (n =? 10)%nat then "\n"
       else if (n =? 13)%nat then "\r"
       else if (n <? 32)%nat || (n =? 127)%nat
            then String "\" (String "x" (String (hex_digit (n / 16)) (String (hex_digit (n mod 16)) EmptyString)))
       else String c EmptyString) ++ repr_body q s'
  end.

Definition dquote : ascii := ascii_of_nat 34.

Definition repr_str (s : string) : string :=
  let q : ascii := if contains "'" s && negb (contains (String dquote EmptyString) s)
                   then dquote else "'"%char in
  String q (repr_body q s ++ String q EmptyString).

(** * common.py *)

(** ** VerType: maturity of a mod version ([int] enum) *)
Module VerType.

Inductive t := RELEASE | BETA | ALPHA.

#[global] Instance eq_dec : EqDecision t.
Proof. solve_decision. Defined.

Definition value (x : t) : Z :=
  match x with RELEASE => 3 | BETA => 2 | ALPHA => 1 end.

Definition name (x : t) : string :=
  match x with RELEASE => "RELEASE" | BETA => "BETA" | ALPHA => "ALPHA" end.

(** [PrettyEnum.__repr__] *)
Definition __repr__ (x : t) : string := "VerType." ++ name x.

(** [cls(t)]: lookup by value *)
Definition of_value (n : Z) : result t :=
  if n =? 3 then Ok RELEASE else if n =? 2 then Ok BETA
  else if n =? 1 then Ok ALPHA else Raise ValueError.

(** [VerType.deserialize]: an [int] is looked up by value, anything else is
    read as a name, [None] and the empty string meaning a release. *)
Definition deserialize (j : json) : result t :=
  match j with
  | JInt n => of_value n
  | JBool true => Raise AttributeError
  | JBool false | JList [] | JDict [] => Ok RELEASE
  | JList _ | JDict _ => Raise AttributeError
  | JNull => Ok RELEASE
  | JStr s =>
      let s := lower s in
      if String.eqb s "release" || String.eqb s "r" || String.eqb s "" then Ok RELEASE
      else if String.eqb s "alpha" || String.eqb s "a" then Ok ALPHA
      else if String.eqb s "beta" || String.eqb s "b" then Ok BETA
      else Raise ValueError
  end.

Definition serialize (x : t) : string := lower (name x).

End VerType.

(** ** Ver: a tokenised mod version with its maturity *)

(** One component of a version tuple, [int | str]. *)
Inductive token :=
| TInt (n : Z)
| TStr (s : string).

#[global] Instance token_eq_dec : EqDecision token.
Proof. solve_decision. Defined.

(** [str(tok)] *)
Definition token_str (tok : token) : string :=
  match tok with TInt n => str_of_int n | TStr s => s end.

(** [repr(tok)] *)
Definition token_repr (tok : token) : string :=
  match tok with TInt n => str_of_int n | TStr s => repr_str s end.

(** [repr] of a tuple of tokens *)
Definition tuple_repr (l : list token) : string :=
  match l with
  | [x] => "(" ++ token_repr x ++ ",)"
  | _ => "(" ++ join ", " (map token_repr l) ++ ")"
  end.

(** the literal patterns ['a'|'b'] of [Ver.__lt__] *)
Definition is_a_or_b (s : string) : bool := String.eqb s "a" || String.eqb s "b".

Module Ver.

Record t := Ver { version : list token; type : VerType.t }.

#[global] Instance eq_dec : EqDecision t.
Proof. solve_decision. Defined.

(** the dataclass-generated [__eq__] *)
Definition __eq__ (a b : t) : bool := bool_decide (a = b).

Definition __repr__ (self : t) : string :=
  match type self with
  | VerType.RELEASE => "Ver(" ++ tuple_repr (version self) ++ ")"
  | ty => "Ver(" ++ tuple_repr (version self) ++ ", " ++ VerType.__repr__ ty ++ ")"
  end.

(** The loop of [Ver.__lt__] over [zip_longest(self.version, other.version)].
    [None] is returned when the loop runs to its end without a [return]. *)
Fixpoint lt_loop (l r : list token) : option bool :=
  match l, r with
  | [], [] => None
  | [], _ :: _ => Some false                         (* case None, _ *)
  | _ :: _, [] => Some true                          (* case _, None *)
  | TInt a :: l', TInt b :: r' =>                    (* case int(), int() *)
      if a <? b then Some true
      else if a >? b then Some false
      else lt_loop l' r'
  | TStr a :: _, TInt b :: _ =>                      (* case 'a'|'b', int() *)
      if is_a_or_b a then Some true
      else Some (String.ltb a (str_of_int b))
  | TInt a :: _, TStr b :: _ =>                      (* case int(), 'a'|'b' *)
      if is_a_or_b b then Some false
      else Some (String.ltb (str_of_int a) b)
  | TStr a :: _, TStr b :: _ =>                      (* case _ *)
      Some (String.ltb a b)
  end.

(** [Ver.__lt__]: after the loop the method returns the text of [__repr__]. *)
Definition __lt__ (self other : t) : pyval :=
  match lt_loop (version self) (version other) with
  | Some b => PyBool b
  | None => PyStr (__repr__ self)
  end.

(** The three operators [functools.total_ordering] derives from [__lt__]. *)
Definition __gt__ (self other : t) : pyval :=
  py_and (py_not (__lt__ self other)) (PyBool (negb (__eq__ self other))).
Definition __le__ (self other : t) : pyval :=
  py_or (__lt__ self other) (PyBool (__eq__ self other)).
Definition __ge__ (self other : t) : pyval :=
  py_not (__lt__ self other).

(** [Ver.serialize] *)
Definition serialize (self : t) : string :=
  let version := join "." (map token_str (version self)) in
  match type self with
  | VerType.RELEASE => version ++ "-RELEASE"
  | VerType.BETA => version ++ "-BETA"
  | VerType.ALPHA => version ++ "-ALPHA"
  end.

Definition maybeint (s : string) : token :=
  if isnumeric s then TInt (digits_val 0 s) else TStr s.

(** [Ver.deserialize] *)
Definition deserialize (ver : string) : result t :=
  let (ver, type) := partition "-" ver in
  let version := map maybeint (split "." ver) in
  ty ← VerType.deserialize (JStr (default "" type));
  mret (Ver version ty).

(** [Ver.__str__] *)
Definition __str__ (self : t) : string :=
  let version := join "." (map token_str (version self)) in
  match type self with
  | VerType.RELEASE => version
  | VerType.BETA => version ++ "-BETA"
  | VerType.ALPHA => version ++ "-ALPHA"
  end.

End Ver.

(** ** McVerType: the kind of a game version ([int] enum) *)
Module McVerType.

Inductive t := RELEASE | RC | SNAPSHOT | PRE | UNKNOWN.

#[global] Instance eq_dec : EqDecision t.
Proof. solve_decision. Defined.

Definition value (x : t) : Z :=
  match x with RELEASE => 4 | RC => 3 | SNAPSHOT => 2 | PRE => 1 | UNKNOWN => 0 end.

End McVerType.

(** ** McVer: a game version *)
Module McVer.

Record t := McVer {
  major : Z;
  minor : Z;
  patch : Z;
  suffix : string;
  snapshot : string
}.

#[global] Instance eq_dec : EqDecision t.
Proof. solve_decision. Defined.

(** the dataclass-generated [__eq__] *)
Definition __eq__ (a b : t) : bool := bool_decide (a = b).

(** [x or d] on strings *)
Definition str_or (x d : string) : string := if String.eqb x "" then d else x.

(** the sort key [McVer.cmp] *)
Definition cmp (self : t) : Z * Z * Z * string * string :=
  (major self, minor self, patch self,
   str_or (suffix self) "release", str_or (snapshot self) "zzzzzz").

(** [<] on the key tuples: the first differing position decides. *)
Definition cmp_lt (a b : Z * Z * Z * string * string) : bool :=
  let '(a1, a2, a3, a4, a5) := a in
  let '(b1, b2, b3, b4, b5) := b in
  if negb (a1 =? b1) then a1 <? b1
  else if negb (a2 =? b2) then a2 <? b2
  else if negb (a3 =? b3) then a3 <? b3
  else if negb (String.eqb a4 b4) then String.ltb a4 b4
  else String.ltb a5 b5.

Definition __lt__ (self other : t) : bool := cmp_lt (cmp self) (cmp other).

(** derived by [functools.total_ordering] *)
Definition __gt__ (self other : t) : bool :=
  negb (__lt__ self other) && negb (__eq__ self other).
Definition __le__ (self other : t) : bool :=
  __lt__ self other || __eq__ self other.
Definition __ge__ (self other : t) : bool :=
  negb (__lt__ self other).

(** [McVer.__str__] *)
Definition __str__ (self : t) : string :=
  let r := str_of_int (major self) ++ "." ++ str_of_int (minor self) in
  let r := if patch self =? 0 then r else r ++ "." ++ str_of_int (patch self) in
  let r := if String.eqb (suffix self) "" then r else r ++ "-" ++ suffix self in
  if String.eqb (snapshot self) "" then r else r ++ "-" ++ snapshot self.

(** [McVer.serialize] *)
Definition serialize (self : t) : string :=
  if String.eqb (snapshot self) "" then __str__ self else snapshot self.

(** [McVer.SNAPSHOTS]: first snapshot of each release line, newest first *)
Definition SNAPSHOTS : list t := [
  McVer 1 19 3 "pre1" "22w42a";
  McVer 1 19 1 "pre1" "22w24a";
  McVer 1 19 0 "pre1" "22w11a";
  McVer 1 18 2 "pre1" "22w03a";
  McVer 1 18 0 "pre1" "21w37a";
  McVer 1 17 0 "pre1" "20w45a";
  McVer 1 16 2 "pre1" "20w27a";
  McVer 1 16 0 "pre1" "20w06a";
  McVer 1 15 0 "pre1" "19w34a";
  McVer 1 14 0 "pre1" "18w43a";
  McVer 1 13 1 "pre1" "18w30a";
  McVer 1 13 0 "pre1" "17w43a";
  McVer 1 12 1 "pre1" "17w31a";
  McVer 1 12 0 "pre1" "17w06a";
  McVer 1 11 1 "" "16w50a";
  McVer 1 11 0 "pre1" "16w32a";
  McVer 1 10 0 "pre1" "16w20a";
  McVer 1 9 3 "pre1" "16w14a";
  McVer 1 9 0 "pre1" "15w31a";
  McVer 1 8 0 "pre1" "14w02a" ].

(** [McVer.VERSIONS] *)
Definition VERSIONS : list t :=
  map (fun '(a, b, c) => McVer a b c "" "") [
    (1, 12, 0); (1, 12, 1); (1, 12, 2);
    (1, 13, 0); (1, 13, 1); (1, 13, 2);
    (1, 14, 0); (1, 14, 1); (1, 14, 2); (1, 14, 3); (1, 14, 4);
    (1, 15, 0); (1, 15, 1); (1, 15, 2);
    (1, 16, 0); (1, 16, 2); (1, 16, 3); (1, 16, 4); (1, 16, 5);
    (1, 17, 0); (1, 17, 1);
    (1, 18, 0); (1, 18, 1); (1, 18, 2);
    (1, 19, 0); (1, 19, 1); (1, 19, 2); (1, 19, 3) ].

(** the snapshot lookup at the end of [McVer.deserialize] *)
Fixpoint find_snapshot (table : list t) (ver : string) : result t :=
  match table with
  | [] => Raise ValueError
  | v :: table' =>
      if String.leb (snapshot v) ver
      then Ok (McVer (major v) (minor v) (patch v) (suffix v) ver)
      else find_snapshot table' ver
  end.

(** [McVer.deserialize].  A dotted text is split into two or three integers
    and the text after the first dash is the suffix; any other text is a
    snapshot label.  (Four dotted parts would put an [int] into the [str]
    field [suffix]; that shape, like five and more, is rejected here.) *)
Definition deserialize (ver : string) : result t :=
  let (ver, suffix) := partition "-" ver in
  let suffix := default "" suffix in
  if contains "." ver then
    parts ← map_result py_int (split "." ver);
    match parts with
    | [a; b] => Ok (McVer a b 0 suffix "")
    | [a; b; c] => Ok (McVer a b c suffix "")
    | _ => Raise TypeError
    end
  else find_snapshot SNAPSHOTS ver.

(** the property [McVer.type] *)
Definition type (self : t) : McVerType.t :=
  if negb (String.eqb (snapshot self) "") then McVerType.SNAPSHOT
  else if String.eqb (suffix self) "" then McVerType.RELEASE
  else if startswith (suffix self) "rc" then McVerType.RC
  else if startswith (suffix self) "pre" then McVerType.PRE
  else McVerType.UNKNOWN.

End McVer.

(** ** McVerMatch: any / exact / compatible game-version predicate *)
Module McVerMatch.

Record t := McVerMatch { ver : option McVer.t; operator : string }.

#[global] Instance eq_dec : EqDecision t.
Proof. solve_decision. Defined.

Definition ANY : t := McVerMatch None "".

(** [McVerMatch.__call__] *)
Definition __call__ (self : t) (other : McVer.t) : result bool :=
  match ver self with
  | None => Ok true
  | Some v =>
      if String.eqb (operator self) "" then Ok (McVer.__eq__ v other)
      else if String.eqb (operator self) "^" then
        Ok (McVer.__ge__ v other
            && (McVer.minor other =? McVer.minor v)
            && (McVer.major other =? McVer.major v))
      else Raise (Exception_ ("Unknown operator " ++ operator self))
  end.

(** [McVerMatch.__bool__] *)
Definition __bool__ (self : t) : bool :=
  match ver self with Some _ => true | None => false end.

(** [McVerMatch.__str__] and [serialize] *)
Definition __str__ (self : t) : string :=
  match ver self with
  | None => "*"
  | Some v => operator self ++ McVer.serialize v
  end.
Definition serialize (self : t) : string := __str__ self.

(** [McVerMatch.deserialize] *)
Definition deserialize (val : string) : result t :=
  if String.eqb val "*" then Ok ANY
  else match val with
       | String "^" rest => v ← McVer.deserialize rest; mret (McVerMatch (Some v) "^")
       | _ => v ← McVer.deserialize val; mret (McVerMatch (Some v) "")
       end.

(** [McVerMatch.versions] *)
Definition versions (self : t) : result (list McVer.t) :=
  kept ← map_result (fun v => b ← __call__ self v; mret (v, b)) McVer.VERSIONS;
  mret (map fst (filter (fun p => snd p = true) kept)).

End McVerMatch.

(** ** VerCmp and VerMatch: predicates on [Ver] *)
Module VerCmp.

Record t := VerCmp { ver : option Ver.t; operator : string }.

#[global] Instance eq_dec : EqDecision t.
Proof. solve_decision. Defined.

(** [VerCmp.__call__]: the stored version is the left operand. *)
Definition __call__ (self : t) (other : Ver.t) : result pyval :=
  match ver self with
  | None => Ok (PyBool true)
  | Some ver =>
      if String.eqb (operator self) "" then Ok (PyBool (Ver.__eq__ ver other))
      else if String.eqb (operator self) "<" then Ok (Ver.__lt__ ver other)
      else if String.eqb (operator self) "<=" then Ok (Ver.__le__ ver other)
      else if String.eqb (operator self) ">" then Ok (Ver.__gt__ ver other)
      else if String.eqb (operator self) ">=" then Ok (Ver.__ge__ ver other)
      else Raise ValueError
  end.

(** [VerCmp.deserialize].  The class attribute [ANY] is annotated but never
    assigned, so reading [cls.ANY] raises [AttributeError]; and common.py
    neither defines nor imports the name [deserialize] that the three other
    branches call, so evaluating the call raises [NameError]. *)
Definition deserialize (val : string) : result t :=
  if String.eqb val "*" then Raise AttributeError
  else if startswith val "<=" || startswith val ">=" then Raise (Exception_ "NameError")
  else if startswith val "<" || startswith val ">" then Raise (Exception_ "NameError")
  else Raise (Exception_ "NameError").

End VerCmp.

Module VerMatch.

Record t := VerMatch { criteria : list VerCmp.t; min_ver_type : VerType.t }.

#[global] Instance eq_dec : EqDecision t.
Proof. solve_decision. Defined.

Definition ANY : t := VerMatch [] VerType.ALPHA.

(** [all(c(other) for c in criteria)]: stops at the first falsy answer. *)
Fixpoint all_criteria (cs : list VerCmp.t) (other : Ver.t) : result bool :=
  match cs with
  | [] => Ok true
  | c :: cs' =>
      v ← VerCmp.__call__ c other;
      if truthy v then all_criteria cs' other else Ok false
  end.

(** [VerMatch.__call__] *)
Definition __call__ (self : t) (other : Ver.t) : result bool :=
  if VerType.value (min_ver_type self) >? VerType.value (Ver.type other)
  then Ok false
  else all_criteria (criteria self) other.

(** [VerMatch.__and__] *)
Definition __and__ (self other : t) : t :=
  VerMatch (criteria self ++ criteria other)
           (if VerType.value (min_ver_type other) >? VerType.value (min_ver_type self)
            then min_ver_type other else min_ver_type self).

(** [VerMatch.__bool__] *)
Definition __bool__ (self : t) : bool :=
  match criteria self with
  | [] => negb (bool_decide (min_ver_type self = VerType.ALPHA))
  | _ :: _ => true
  end.

(** [VerMatch.deserialize] *)
Definition deserialize (ver : string) : result t :=
  if String.eqb ver "*" || String.eqb ver "" then Ok ANY
  else
    let (ver, type) := partition "@" ver in
    let type := lower (default "" type) in
    type ← (if String.eqb type "" || String.eqb type "a" || String.eqb type "alpha"
            then Ok VerType.ALPHA
            else if String.eqb type "r" || String.eqb type "release" then Ok VerType.RELEASE
            else if String.eqb type "b" || String.eqb type "beta" then Ok VerType.BETA
            else Raise ValueError);
    if negb (String.eqb ver "") then
      c ← VerCmp.deserialize ver; mret (VerMatch [c] type)
    else Ok (VerMatch [] type).

End VerMatch.

(** ** The string-valued enums *)

(** [cls(value)]: the member whose value is [s] *)
Fixpoint enum_of_value {A} (members : list (string * A)) (s : string) : result A :=
  match members with
  | [] => Raise ValueError
  | (v, x) :: members' => if String.eqb v s then Ok x else enum_of_value members' s
  end.

Module Type_.

Inductive t := MOD | SHADERPACK | DATAPACK | RESOURCEPACK.

#[global] Instance eq_dec : EqDecision t.
Proof. solve_decision. Defined.

Definition value (x : t) : string :=
  match x with
  | MOD => "mod" | SHADERPACK => "shaderpack"
  | DATAPACK => "datapack" | RESOURCEPACK => "resourcepack"
  end.

Definition members : list (string * t) :=
  map (fun x => (value x, x)) [MOD; SHADERPACK; DATAPACK; RESOURCEPACK].

(** [Type.serialize] *)
Definition serialize (self : t) : option string :=
  match self with MOD => None | _ => Some (value self) end.

(** [Type.deserialize]: a falsy input is a mod. *)
Definition deserialize (val : json) : result t :=
  match val with
  | JNull | JBool false | JInt 0 | JStr "" | JList [] | JDict [] => Ok MOD
  | JStr s => enum_of_value members (lower s)
  | _ => Raise AttributeError
  end.

End Type_.

Module Loader.

Inductive t := FORGE | FABRIC | LITELOADER | MODLOADER | QUILT | RIFT.

#[global] Instance eq_dec : EqDecision t.
Proof. solve_decision. Defined.

Definition value (x : t) : string :=
  match x with
  | FORGE => "forge" | FABRIC => "fabric" | LITELOADER => "liteloader"
  | MODLOADER => "modloader" | QUILT => "quilt" | RIFT => "rift"
  end.

Definition members : list (string * t) :=
  map (fun x => (value x, x)) [FORGE; FABRIC; LITELOADER; MODLOADER; QUILT; RIFT].

End Loader.

Module LicenseType.

Inductive t := CLOSED | PERMISSIVE | COPYLEFT | LGPL | CUSTOM | DANGEROUS.

#[global] Instance eq_dec : EqDecision t.
Proof. solve_decision. Defined.

Definition value (x : t) : string :=
  match x with
  | CLOSED => "closed" | PERMISSIVE => "permissive" | COPYLEFT => "copyleft"
  | LGPL => "lgpl" | CUSTOM => "custom" | DANGEROUS => "dangerous"
  end.

Definition members : list (string * t) :=
  map (fun x => (value x, x)) [CLOSED; PERMISSIVE; COPYLEFT; LGPL; CUSTOM; DANGEROUS].

End LicenseType.

Module SourceType.

Inductive t := MODRINTH | CURSEFORGE | LOCAL.

#[global] Instance eq_dec : EqDecision t.
Proof. solve_decision. Defined.

Definition value (x : t) : string :=
  match x with MODRINTH => "modrinth" | CURSEFORGE => "curseforge" | LOCAL => "local" end.

End SourceType.

Module SideSupport.

Inductive t := UNSUPPORTED | OPTIONAL | REQUIRED.

#[global] Instance eq_dec : EqDecision t.
Proof. solve_decision. Defined.

Definition value (x : t) : string :=
  match x with
  | UNSUPPORTED => "unsupported" | OPTIONAL => "optional" | REQUIRED => "required"
  end.

Definition members : list (string * t) :=
  map (fun x => (value x, x)) [UNSUPPORTED; OPTIONAL; REQUIRED].

End SideSupport.

(** ** License *)
Module License.

Record t := License { type : LicenseType.t; name : string }.

#[global] Instance eq_dec : EqDecision t.
Proof. solve_decision. Defined.

(** [License.STD] *)
Definition STD : list (string * t) := [
  ("Closed", License LicenseType.CLOSED "Closed");
  ("PD", License LicenseType.PERMISSIVE "Public Domain");
  ("MIT", License LicenseType.PERMISSIVE "MIT");
  ("BSD", License LicenseType.PERMISSIVE "BSD");
  ("ISC", License LicenseType.PERMISSIVE "ISC");
  ("zlib", License LicenseType.PERMISSIVE "zlib");
  ("Apache", License LicenseType.PERMISSIVE "Apache");
  ("CC0", License LicenseType.PERMISSIVE "CC0");
  ("Unlicense", License LicenseType.PERMISSIVE "Unlicense");
  ("GPL", License LicenseType.COPYLEFT "GPL");
  ("CC", License LicenseType.LGPL "CreativeCommons");
  ("MPL", License LicenseType.LGPL "MPL");
  ("LGPL", License LicenseType.LGPL "LGPL");
  ("AGPL", License LicenseType.DANGEROUS "AGPL") ].

(** the loop of [License.serialize] over [STD.items()] *)
Fixpoint std_key (table : list (string * t)) (self : t) : option string :=
  match table with
  | [] => None
  | (k, v) :: table' => if bool_decide (v = self) then Some k else std_key table' self
  end.

(** [License.serialize] *)
Definition serialize (self : t) : json :=
  match std_key STD self with
  | Some k => JStr k
  | None => JList [JStr (LicenseType.value (type self)); JStr (name self)]
  end.

(** [STD[val]] *)
Fixpoint std_get (table : list (string * t)) (k : string) : result t :=
  match table with
  | [] => Raise KeyError
  | (k', v) :: table' => if String.eqb k' k then Ok v else std_get table' k
  end.

(** [License.deserialize]: a text is a key of [STD]; anything else is read
    as the pair [[type, name]] *)
Definition deserialize (val : json) : result t :=
  match val with
  | JStr s => std_get STD s
  | JList [] => Raise (Exception_ "IndexError")
  | JList (JStr ty :: rest) =>
      ty ← enum_of_value LicenseType.members ty;
      match rest with
      | [] => Raise (Exception_ "IndexError")
      | JStr name :: _ => Ok (License ty name)
      | _ :: _ => Raise TypeError
      end
  | JList (_ :: _) => Raise ValueError
  | JDict _ => Raise KeyError
  | _ => Raise TypeError
  end.

End License.

(** * datetime (standard library) and [dateutil.parser.isoparse]

    A naive [datetime] is the record of its civil fields, as in CPython.  *)
Module datetime.

Record t := datetime {
  year : Z; month : Z; day : Z;
  hour : Z; minute : Z; second : Z; microsecond : Z
}.

#[global] Instance eq_dec : EqDecision t.
Proof. solve_decision. Defined.

Definition key (d : t) : list Z :=
  [year d; month d; day d; hour d; minute d; second d; microsecond d].

(** [<] on the field tuples *)
Fixpoint lex_lt (a b : list Z) : bool :=
  match a, b with
  | [], [] => false
  | [], _ :: _ => true
  | _ :: _, [] => false
  | x :: a', y :: b' => if x =? y then lex_lt a' b' else x <? y
  end.

Definition __lt__ (a b : t) : bool := lex_lt (key a) (key b).
Definition __eq__ (a b : t) : bool := bool_decide (a = b).

Definition is_leap (y : Z) : bool :=
  (y mod 4 =? 0) && (negb (y mod 100 =? 0) || (y mod 400 =? 0)).

Definition days_before_year (y : Z) : Z :=
  let y := y - 1 in y * 365 + y / 4 - y / 100 + y / 400.

Definition days_in_month (y m : Z) : Z :=
  if m =? 2 then (if is_leap y then 29 else 28)
  else if (m =? 4) || (m =? 6) || (m =? 9) || (m =? 11) then 30 else 31.

Definition days_before_month (y m : Z) : Z :=
  nth (Z.to_nat (m - 1)) [0; 31; 59; 90; 120; 151; 181; 212; 243; 273; 304; 334] 0
  + (if (m >? 2) && is_leap y then 1 else 0).

(** [d.toordinal()] *)
Definition toordinal (d : t) : Z :=
  days_before_year (year d) + days_before_month (year d) (month d) + day d.

(** A [timedelta] is its length in microseconds. *)
Definition timedelta (days seconds : Z) : Z := (days * 86400 + seconds) * 1000000.

(** [a - b] *)
Definition __sub__ (a b : t) : Z :=
  ((toordinal a - toordinal b) * 86400
   + ((hour a * 3600 + minute a * 60 + second a)
      - (hour b * 3600 + minute b * 60 + second b))) * 1000000
  + (microsecond a - microsecond b).

(** [n] printed with at least [w] digits, zero-filled *)
Definition zfill (w : nat) (n : Z) : string :=
  let s := str_of_int n in
  string_of_list_ascii (repeat "0"%char (w - String.length s)) ++ s.

(** [d.isoformat()] *)
Definition isoformat (d : t) : string :=
  zfill 4 (year d) ++ "-" ++ zfill 2 (month d) ++ "-" ++ zfill 2 (day d) ++ "T"
  ++ zfill 2 (hour d) ++ ":" ++ zfill 2 (minute d) ++ ":" ++ zfill 2 (second d)
  ++ (if microsecond d =? 0 then "" else "." ++ zfill 6 (microsecond d)).

Definition field (s : string) (pos len : nat) : result Z :=
  let f := substring pos len s in
  if (String.length f =? len)%nat && all_chars is_digit f
  then Ok (digits_val 0 f) else Raise ValueError.

Definition sep_at (s : string) (pos : nat) (c : string) : result unit :=
  if String.eqb (substring pos 1 s) c then Ok tt else Raise ValueError.

Definition valid (d : t) : bool :=
  (1 <=? year d) && (year d <=? 9999) && (1 <=? month d) && (month d <=? 12)
  && (1 <=? day d) && (day d <=? days_in_month (year d) (month d))
  && (0 <=? hour d) && (hour d <? 24) && (0 <=? minute d) && (minute d <? 60)
  && (0 <=? second d) && (second d <? 60)
  && (0 <=? microsecond d) && (microsecond d <? 1000000).

(** [isoparse] on the extended format that [isoformat] writes for a naive
    value: [YYYY-MM-DDTHH:MM:SS], optionally followed by [.ffffff].  The
    library reads more spellings of ISO-8601; they are reported as
    [ValueError] here. *)
Definition isoparse (s : string) : result t :=
  y ← field s 0 4; _ ← sep_at s 4 "-"; m ← field s 5 2; _ ← sep_at s 7 "-";
  d ← field s 8 2; _ ← sep_at s 10 "T"; hh ← field s 11 2; _ ← sep_at s 13 ":";
  mm ← field s 14 2; _ ← sep_at s 16 ":"; ss ← field s 17 2;
  us ← (if (String.length s =? 19)%nat then Ok 0
        else if (String.length s =? 26)%nat
             then _ ← sep_at s 19 "."; field s 20 6
             else Raise ValueError);
  let r := datetime y m d hh mm ss us in
  if valid r then Ok r else Raise ValueError.

End datetime.

(** * Built-ins: [sorted], [filter], [any] *)

(** [list.sort] is a stable sort that consults only [<] and reads the answer
    through its truth value.  The model is the stable insertion sort.
    [reverse=True] reverses, sorts and reverses again, which keeps equal
    elements in their original order.

    On a consistent order (a strict weak order) every stable sort returns
    the same list, and so does CPython's.  On two elements the result is
    fixed by the one comparison that is made, between the second and the
    first element of the list being sorted, here as in CPython.  When [<] is
    not consistent, as [Ver.__lt__] allows, CPython's run detection and
    binary insertion can leave three or more elements in another order than
    the one computed here; what is proved about such lists concerns the
    elements of the result and not their order. *)
Fixpoint insort {A} (lt : A -> A -> bool) (x : A) (l : list A) : list A :=
  match l with
  | [] => [x]
  | y :: l' => if lt x y then x :: y :: l' else y :: insort lt x l'
  end.

Definition sort_asc {A} (lt : A -> A -> bool) (l : list A) : list A :=
  fold_left (fun acc x => insort lt x acc) l [].

Definition sorted {A} (lt : A -> A -> bool) (reverse : bool) (l : list A) : list A :=
  if reverse then rev (sort_asc lt (rev l)) else sort_asc lt l.

(** [list(filter(p, l))] for a predicate that may raise *)
Fixpoint filter_result {A} (p : A -> result bool) (l : list A) : result (list A) :=
  match l with
  | [] => Ok []
  | x :: l' =>
      b ← p x; rest ← filter_result p l';
      mret (if (b : bool) then x :: rest else rest)
  end.

(** [any(map(p, l))]: stops at the first truthy answer *)
Fixpoint any_map {A} (p : A -> result bool) (l : list A) : result bool :=
  match l with
  | [] => Ok false
  | x :: l' => b ← p x; if (b : bool) then Ok true else any_map p l'
  end.

(** * modinfo.py *)

Module HashType.

Inductive t := MD5 | SHA1 | SHA256 | SHA512.

#[global] Instance eq_dec : EqDecision t.
Proof. solve_decision. Defined.

Definition value (x : t) : string :=
  match x with MD5 => "md5" | SHA1 => "sha1" | SHA256 => "sha256" | SHA512 => "sha512" end.

Definition members : list (string * t) :=
  map (fun x => (value x, x)) [MD5; SHA1; SHA256; SHA512].

End HashType.

Module Hash.
Record t := Hash { type : HashType.t; value : string }.
#[global] Instance eq_dec : EqDecision t.
Proof. solve_decision. Defined.
End Hash.

Module ModFile.
Record t := ModFile {
  filename : string;
  size : option Z;
  hash : Hash.t;
  url : option string
}.
#[global] Instance eq_dec : EqDecision t.
Proof. solve_decision. Defined.
End ModFile.

Module Dep.
Record t := Dep { is_required : bool; id : string; ver_id : option string }.
#[global] Instance eq_dec : EqDecision t.
Proof. solve_decision. Defined.
End Dep.

Module ModVerInfo.
Record t := ModVerInfo {
  file : ModFile.t;
  dependencies : list Dep.t;
  changelog : option string
}.
#[global] Instance eq_dec : EqDecision t.
Proof. solve_decision. Defined.
End ModVerInfo.

(** ** [strip_mcver]: from a raw version string to version tokens *)

(** [is_ver_ok]: [regex.search(r'\d\.\d', s)] *)
Fixpoint is_ver_ok (s : string) : bool :=
  match s with
  | String a ((String "." (String b _)) as s') =>
      (is_digit a && is_digit b) || is_ver_ok s'
  | String _ s' => is_ver_ok s'
  | EmptyString => false
  end.

(** [maybe_int] *)
Definition maybe_int (s : string) : token :=
  if isnumeric s then TInt (digits_val 0 s) else TStr s.

(** [regex.sub(r'\.[a-z]{3}$', '', s)]: a final dot and three letters go;
    [$] also stands before a newline that ends the text. *)
Fixpoint strip_ext (s : string) : string :=
  match s with
  | EmptyString => EmptyString
  | String c s' =>
      match s with
      | String "." (String x (String y (String z rest))) =>
          if is_lower x && is_lower y && is_lower z
             && (String.eqb rest "" || String.eqb rest (String (ascii_of_nat 10) ""))
          then rest else String c (strip_ext s')
      | _ => String c (strip_ext s')
      end
  end.

(** the character class [[0-9.]] of the look-arounds *)
Definition digit_or_dot (c : ascii) : bool := is_digit c || Ascii.eqb c ".".

Definition free_of (c : option ascii) : bool :=
  match c with Some c => negb (digit_or_dot c) | None => true end.

(** Does [(?<![0-9.])lit(?![0-9.])] match at the head of [s], where [prev] is
    the character before it?  With [patch] the literal is followed by a dot
    and one digit ([lit\.\d]).  Returns the length of the match. *)
Definition base_match (lit : string) (patch : bool) (prev : option ascii) (s : string)
  : option nat :=
  if free_of prev && String.prefix lit s then
    let n := String.length lit in
    let after := substring n (String.length s - n) s in
    if patch then
      match after with
      | String "." (String d after') =>
          if is_digit d && free_of (head (list_ascii_of_string after'))
          then Some (n + 2)%nat else None
      | _ => None
      end
    else if free_of (head (list_ascii_of_string after)) then Some n else None
  else None.

(** [regex.sub(r, '', s)] for one of the two patterns built from a base:
    every match, found left to right on the original text, is deleted.
    [skip] counts the characters of a match still to be dropped. *)
Fixpoint sub_base (lit : string) (patch : bool) (prev : option ascii) (skip : nat)
  (s : string) : string :=
  match s with
  | EmptyString => EmptyString
  | String c s' =>
      match skip with
      | S k => sub_base lit patch (Some c) k s'
      | O =>
          match base_match lit patch prev s with
          | Some (S k) => sub_base lit patch (Some c) k s'
          | _ => String c (sub_base lit patch (Some c) 0 s')
          end
      end
  end.

(** the body of the loop over bases: try [base\.\d], then [base]; a deletion
    is kept only when the rest still looks like a version *)
Definition strip_base (s lit : string) : string :=
  let new := sub_base lit true None 0 s in
  let s := if is_ver_ok new then new else s in
  let new := sub_base lit false None 0 s in
  if is_ver_ok new then new else s.

(** the alternatives of [forge|rift|fabric|alpha|beta|rc|release|pre|mc] *)
Definition loader_words : list string :=
  ["forge"; "rift"; "fabric"; "alpha"; "beta"; "rc"; "release"; "pre"; "mc"].

Definition word_at (s : string) : option nat :=
  String.length <$> List.find (fun w => String.prefix w s) loader_words.

Fixpoint sub_words (skip : nat) (s : string) : string :=
  match s with
  | EmptyString => EmptyString
  | String c s' =>
      match skip with
      | S k => sub_words k s'
      | O =>
          match word_at s with
          | Some (S k) => sub_words k s'
          | _ => String c (sub_words 0 s')
          end
      end
  end.

(** [regex.sub(r'^[a-z_.+-]+', '', s)] *)
Definition is_lead (c : ascii) : bool :=
  is_lower c || Ascii.eqb c "_" || Ascii.eqb c "." || Ascii.eqb c "+" || Ascii.eqb c "-".

Fixpoint strip_lead (s : string) : string :=
  match s with
  | String c s' => if is_lead c then strip_lead s' else s
  | EmptyString => EmptyString
  end.

(** [s.replace('-', '.')] *)
Fixpoint replace_dash (s : string) : string :=
  match s with
  | EmptyString => EmptyString
  | String c s' => String (if Ascii.eqb c "-" then "."%char else c) (replace_dash s')
  end.

(** [regex.findall(r'[a-z_-]+|\d+', s)].  [cur] is the run being read:
    [true] for a run of letters, [false] for a run of digits. *)
Definition is_word (c : ascii) : bool :=
  is_lower c || Ascii.eqb c "_" || Ascii.eqb c "-".

Definition flush (cur : option (bool * string)) (rest : list string) : list string :=
  match cur with Some (_, run) => run :: rest | None => rest end.

Fixpoint findall (cur : option (bool * string)) (s : string) : list string :=
  match s with
  | EmptyString => flush cur []
  | String c s' =>
      let one := String c EmptyString in
      if is_word c then
        match cur with
        | Some (true, run) => findall (Some (true, run ++ one)) s'
        | _ => flush cur (findall (Some (true, one)) s')
        end
      else if is_digit c then
        match cur with
        | Some (false, run) => findall (Some (false, run ++ one)) s'
        | _ => flush cur (findall (Some (false, one)) s')
        end
      else flush cur (findall None s')
  end.

(** [ver_base]: the pattern [major\.minor] matches this literal text *)
Definition ver_base (v : McVer.t) : string :=
  str_of_int (McVer.major v) ++ "." ++ str_of_int (McVer.minor v).

(** [set(map(ver_base, vers))]: the distinct bases.  Python leaves the
    iteration order of a set open; here it is the order of first occurrence
    in [vers]. *)
Definition bases (vers : list McVer.t) : list string :=
  remove_dups (map ver_base vers).

(** [strip_mcver] *)
Definition strip_mcver (s : string) (vers : list McVer.t) : list token :=
  let s := strip_ext (lower s) in
  let s := fold_left strip_base (bases vers) s in
  map maybe_int (findall None (replace_dash (strip_lead (sub_words 0 s)))).

(** ** ModVer: one published version of a mod *)
Module ModVer.

Record t := ModVer {
  id : string;
  version_string : string;
  version_type : VerType.t;
  title : option string;
  loaders : list Loader.t;
  published : datetime.t;
  mcversions : list McVer.t
}.

#[global] Instance eq_dec : EqDecision t.
Proof. solve_decision. Defined.

(** the property [ModVer.version] *)
Definition version (self : t) : Ver.t :=
  Ver.Ver (strip_mcver (version_string self) (mcversions self)) (version_type self).

(** [ModVer.__lt__]: by parsed version, publish time breaking ties *)
Definition __lt__ (self other : t) : pyval :=
  if Ver.__eq__ (version self) (version other)
  then PyBool (datetime.__lt__ (published self) (published other))
  else Ver.__lt__ (version self) (version other).

End ModVer.

Module ModVerPair.

Record t := ModVerPair { ver : ModVer.t; info : option ModVerInfo.t }.

#[global] Instance eq_dec : EqDecision t.
Proof. solve_decision. Defined.

Definition id (self : t) : string := ModVer.id (ver self).
Definition version (self : t) : Ver.t := ModVer.version (ver self).
Definition published (self : t) : datetime.t := ModVer.published (ver self).
Definition dependencies (self : t) : option (list Dep.t) :=
  ModVerInfo.dependencies <$> info self.

End ModVerPair.

(** ** ModVerMatch: the acceptance predicate of one manifest entry *)
Module ModVerMatch.

Record t := ModVerMatch {
  ver : VerMatch.t;
  loader : option Loader.t;
  mcver : McVerMatch.t;
  mcver_fallback : option McVerMatch.t;
  ver_str_match : option string
}.

Definition RESULT_FAIL : Z := 0.
Definition RESULT_FALLBACK : Z := 1.
Definition RESULT_SUCCESS : Z := 2.

(** [self.loader and v.loaders and self.loader not in v.loaders] *)
Definition loader_rejects (self : t) (v : ModVer.t) : bool :=
  match loader self with
  | None => false
  | Some l =>
      match ModVer.loaders v with
      | [] => false
      | ls => negb (bool_decide (l ∈ ls))
      end
  end.

(** [self.ver_str_match and self.ver_str_match.lower() not in v.version_string.lower()] *)
Definition substring_rejects (self : t) (v : ModVer.t) : bool :=
  match ver_str_match self with
  | None => false
  | Some m =>
      if String.eqb m "" then false
      else negb (contains (lower m) (lower (ModVer.version_string v)))
  end.

(** [fallback and self.mcver_fallback and any(map(self.mcver_fallback, v.mcversions))];
    a fallback that is [McVerMatch.ANY] is falsy and so never used *)
Definition fallback_accepts (self : t) (v : ModVer.t) (fallback : bool) : result bool :=
  if fallback then
    match mcver_fallback self with
    | None => Ok false
    | Some fb =>
        if McVerMatch.__bool__ fb
        then any_map (McVerMatch.__call__ fb) (ModVer.mcversions v)
        else Ok false
    end
  else Ok false.

(** [ModVerMatch.test] *)
Definition test (self : t) (v : ModVer.t) (fallback : bool) : result Z :=
  ok ← VerMatch.__call__ (ver self) (ModVer.version v);
  if negb ok then Ok RESULT_FAIL
  else if loader_rejects self v then Ok RESULT_FAIL
  else if substring_rejects self v then Ok RESULT_FAIL
  else
    primary ← any_map (McVerMatch.__call__ (mcver self)) (ModVer.mcversions v);
    if (primary : bool) then Ok RESULT_SUCCESS
    else
      fb ← fallback_accepts self v fallback;
      if (fb : bool) then Ok RESULT_FALLBACK else Ok RESULT_FAIL.

Definition test_no_fallback (self : t) (v : ModVer.t) : result Z := test self v false.

(** the truth value of a test result, as [filter] reads it *)
Definition accepts (self : t) (fallback : bool) (v : ModVer.t) : result bool :=
  r ← test self v fallback; mret (negb (r =? 0)).

End ModVerMatch.

(** ** ModDesc: project metadata *)
Module ModDesc.

Record t := ModDesc {
  id : string;
  type : Type_.t;
  name : string;
  title : option string;
  updated : option datetime.t;
  created : option datetime.t;
  license : option License.t;
  short_desc : option string;
  desc : option string;
  client_side : option SideSupport.t;
  server_side : option SideSupport.t;
  issues_url : option string;
  source_url : option string;
  wiki_url : option string;
  discord_url : option string
}.

#[global] Instance eq_dec : EqDecision t.
Proof. solve_decision. Defined.

End ModDesc.

(** ** ModInfo: everything cached about one mod *)
Module ModInfo.

Record t := Build {
  checked : datetime.t;
  mod_desc : ModDesc.t;
  versions : list ModVer.t;
  version_info : list (string * ModVerInfo.t)
}.

#[global] Instance eq_dec : EqDecision t.
Proof. solve_decision. Defined.

(** [<] between versions as [list.sort] reads it *)
Definition ver_lt (a b : ModVer.t) : bool := truthy (ModVer.__lt__ a b).

(** the constructor: [__post_init__] sorts the versions, highest first *)
Definition ModInfo (checked : datetime.t) (mod_desc : ModDesc.t)
  (versions : list ModVer.t) (version_info : list (string * ModVerInfo.t)) : t :=
  Build checked mod_desc (sorted ver_lt true versions) version_info.

Definition id (self : t) : string := ModDesc.id (mod_desc self).
Definition name (self : t) : string := ModDesc.name (mod_desc self).
Definition type (self : t) : Type_.t := ModDesc.type (mod_desc self).

(** [ModInfo.get_version] *)
Definition get_version (self : t) (id : string) : option ModVer.t :=
  List.find (fun v => String.eqb (ModVer.id v) id) (versions self).

(** [ModInfo.get_versions]: the versions accepted without the fallback, or,
    when there is none, those accepted with it; highest first *)
Definition get_versions (self : t) (mvm : ModVerMatch.t) : result (list ModVer.t) :=
  vs ← filter_result (ModVerMatch.accepts mvm false) (versions self);
  vs ← (match vs with
        | [] => filter_result (ModVerMatch.accepts mvm true) (versions self)
        | _ => Ok vs
        end);
  mret (sorted ver_lt true vs).

(** [ModInfo.get_latest_version]: [next(iter(...), None)] *)
Definition get_latest_version (self : t) (mvm : ModVerMatch.t) : result (option ModVer.t) :=
  vs ← get_versions self mvm; mret (head vs).

End ModInfo.

(** * serialize.py: the type-directed codec

    [_get_serializer(type)] and [_get_parser(type)] walk a type annotation and
    return a pair of closures.  Here a [codec T] is that pair for the Python
    type modelled by [T]; the constructors below are the branches of the two
    walks, and the codec of a dataclass lists its fields as [parsers(cls)]
    and [serializers(cls)] do.  The model is typed: where Python's [identity]
    parser would let a value of the wrong type through, the model raises
    [TypeError]. *)

Record codec (T : Type) := Codec {
  is_primitive : bool;
  _get_serializer : T -> json;
  _get_parser : json -> result T
}.
Arguments Codec {T}.
Arguments is_primitive {T}.
Arguments _get_serializer {T}.
Arguments _get_parser {T}.

(** the top-level entry points *)
Definition serialize {T} (c : codec T) (o : T) : json := _get_serializer c o.
Definition deserialize {T} (c : codec T) (value : json) : result T := _get_parser c value.

(** *** primitives: [identity] both ways *)
Definition str_codec : codec string :=
  Codec true JStr (fun x => match x with JStr s => Ok s | _ => Raise TypeError end).
Definition int_codec : codec Z :=
  Codec true JInt (fun x => match x with JInt n => Ok n | _ => Raise TypeError end).
Definition bool_codec : codec bool :=
  Codec true JBool (fun x => match x with JBool b => Ok b | _ => Raise TypeError end).

(** *** [datetime]: [datetime.isoformat] and [isoparse] *)
Definition datetime_codec : codec datetime.t :=
  Codec false (fun d => JStr (datetime.isoformat d))
        (fun x => match x with JStr s => datetime.isoparse s | _ => Raise TypeError end).

(** *** enums: written by value; read by [deserialize] when the class has
    one, else through the class itself (all of them are [str] enums) *)
Definition str_enum_codec {T} (value : T -> string) (members : list (string * T)) : codec T :=
  Codec false (fun x => JStr (value x))
        (fun x => match x with JStr s => enum_of_value members s | _ => Raise ValueError end).

Definition Loader_codec := str_enum_codec Loader.value Loader.members.
Definition HashType_codec := str_enum_codec HashType.value HashType.members.
Definition SideSupport_codec := str_enum_codec SideSupport.value SideSupport.members.
Definition LicenseType_codec := str_enum_codec LicenseType.value LicenseType.members.

Definition VerType_codec : codec VerType.t :=
  Codec false (fun x => JInt (VerType.value x)) VerType.deserialize.
Definition Type_codec : codec Type_.t :=
  Codec false (fun x => JStr (Type_.value x)) Type_.deserialize.

(** *** classes with a codec of their own *)
Definition on_str {T} (f : string -> result T) (x : json) : result T :=
  match x with JStr s => f s | _ => Raise AttributeError end.

Definition Ver_codec : codec Ver.t :=
  Codec false (fun v => JStr (Ver.serialize v)) (on_str Ver.deserialize).
Definition McVer_codec : codec McVer.t :=
  Codec false (fun v => JStr (McVer.serialize v)) (on_str McVer.deserialize).
Definition McVerMatch_codec : codec McVerMatch.t :=
  Codec false (fun v => JStr (McVerMatch.serialize v))
        (fun x => match x with
                  | JStr s => McVerMatch.deserialize s
                  | _ => Raise AttributeError
                  end).
Definition License_codec : codec License.t :=
  Codec false License.serialize License.deserialize.

(** *** collections: [list(map(ser, x))] and [collection(map(_par, x))].
    Iterating a mapping yields its keys, iterating a text its characters. *)
Definition iterate (x : json) : result (list json) :=
  match x with
  | JList l => Ok l
  | JDict m => Ok (map (fun p => JStr (fst p)) m)
  | JStr s => Ok (map (fun ch => JStr (String ch EmptyString)) (list_ascii_of_string s))
  | _ => Raise TypeError
  end.

Definition list_codec {T} (c : codec T) : codec (list T) :=
  Codec false (fun x => JList (map (_get_serializer c) x))
        (fun x => l ← iterate x; map_result (_get_parser c) l).

(** a [frozenset] keeps one copy of each element *)
Definition frozenset_codec {T} `{EqDecision T} (c : codec T) : codec (list T) :=
  Codec false (fun x => JList (map (_get_serializer c) x))
        (fun x => l ← iterate x; ys ← map_result (_get_parser c) l; mret (remove_dups ys)).

(** *** mappings with [str] keys *)
Definition dict_codec {V} (c : codec V) : codec (list (string * V)) :=
  Codec false
        (fun x => JDict (map (fun p => (fst p, _get_serializer c (snd p))) x))
        (fun x => match x with
                  | JDict m => map_result (fun p => v ← _get_parser c (snd p); mret (fst p, v)) m
                  | _ => Raise AttributeError
                  end).

(** *** fields: [get_serializer(type, default)] and [get_parser(type, default)].
    The result of a field serializer is [None] for [OMIT]; the argument of a
    field parser is [None] when the key is missing ([v()]). *)

(** a field without default *)
Definition get_serializer {T} (c : codec T) (arg : T) : option json :=
  Some (_get_serializer c arg).
Definition get_parser {T} (c : codec T) (args : option json) : result T :=
  match args with
  | Some x => _get_parser c x
  | None => Raise TypeError
  end.

(** a field of type [T | None]: the default is [None] (also when none is
    declared), the codec is the one of [T] *)
Definition get_serializer_opt {T} (c : codec T) (arg : option T) : option json :=
  _get_serializer c <$> arg.
Definition get_parser_opt {T} (c : codec T) (args : option json) : result (option T) :=
  match args with
  | None => Ok None
  | Some JNull => if is_primitive c then Ok None else Some <$> _get_parser c JNull
  | Some x => Some <$> _get_parser c x
  end.

(** *** dataclasses: [ser] keeps the fields that are not [OMIT], in order;
    [pss] looks each field up by name *)
Definition kept (fields : list (string * option json)) : list (string * json) :=
  omap (fun p => (fun v => (fst p, v)) <$> snd p) fields.

Definition ser (fields : list (string * option json)) : json := JDict (kept fields).

Fixpoint dict_get {V} (k : string) (m : list (string * V)) : option V :=
  match m with
  | [] => None
  | (k', v) :: m' => if String.eqb k' k then Some v else dict_get k m'
  end.

Definition pss {T} (body : list (string * json) -> result T) (x : json) : result T :=
  match x with
  | JDict m => body m
  | _ => Raise TypeError
  end.

Definition Hash_codec : codec Hash.t :=
  Codec false
    (fun o => ser [("type", get_serializer HashType_codec (Hash.type o));
                   ("value", get_serializer str_codec (Hash.value o))])
    (pss (fun x =>
       type ← get_parser HashType_codec (dict_get "type" x);
       value ← get_parser str_codec (dict_get "value" x);
       mret (Hash.Hash type value))).

Definition ModFile_codec : codec ModFile.t :=
  Codec false
    (fun o => ser [("filename", get_serializer str_codec (ModFile.filename o));
                   ("size", get_serializer_opt int_codec (ModFile.size o));
                   ("hash", get_serializer Hash_codec (ModFile.hash o));
                   ("url", get_serializer_opt str_codec (ModFile.url o))])
    (pss (fun x =>
       filename ← get_parser str_codec (dict_get "filename" x);
       size ← get_parser_opt int_codec (dict_get "size" x);
       hash ← get_parser Hash_codec (dict_get "hash" x);
       url ← get_parser_opt str_codec (dict_get "url" x);
       mret (ModFile.ModFile filename size hash url))).

Definition Dep_codec : codec Dep.t :=
  Codec false
    (fun o => ser [("is_required", get_serializer bool_codec (Dep.is_required o));
                   ("id", get_serializer str_codec (Dep.id o));
                   ("ver_id", get_serializer_opt str_codec (Dep.ver_id o))])
    (pss (fun x =>
       is_required ← get_parser bool_codec (dict_get "is_required" x);
       id ← get_parser str_codec (dict_get "id" x);
       ver_id ← get_parser_opt str_codec (dict_get "ver_id" x);
       mret (Dep.Dep is_required id ver_id))).

Definition ModVerInfo_codec : codec ModVerInfo.t :=
  Codec false
    (fun o => ser [("file", get_serializer ModFile_codec (ModVerInfo.file o));
                   ("dependencies", get_serializer (list_codec Dep_codec) (ModVerInfo.dependencies o));
                   ("changelog", get_serializer_opt str_codec (ModVerInfo.changelog o))])
    (pss (fun x =>
       file ← get_parser ModFile_codec (dict_get "file" x);
       dependencies ← get_parser (list_codec Dep_codec) (dict_get "dependencies" x);
       changelog ← get_parser_opt str_codec (dict_get "changelog" x);
       mret (ModVerInfo.ModVerInfo file dependencies changelog))).

Definition ModVer_codec : codec ModVer.t :=
  Codec false
    (fun o => ser [("id", get_serializer str_codec (ModVer.id o));
                   ("version_string", get_serializer str_codec (ModVer.version_string o));
                   ("version_type", get_serializer VerType_codec (ModVer.version_type o));
                   ("title", get_serializer_opt str_codec (ModVer.title o));
                   ("loaders", get_serializer (frozenset_codec Loader_codec) (ModVer.loaders o));
                   ("published", get_serializer datetime_codec (ModVer.published o));
                   ("mcversions", get_serializer (frozenset_codec McVer_codec) (ModVer.mcversions o))])
    (pss (fun x =>
       id ← get_parser str_codec (dict_get "id" x);
       version_string ← get_parser str_codec (dict_get "version_string" x);
       version_type ← get_parser VerType_codec (dict_get "version_type" x);
       title ← get_parser_opt str_codec (dict_get "title" x);
       loaders ← get_parser (frozenset_codec Loader_codec) (dict_get "loaders" x);
       published ← get_parser datetime_codec (dict_get "published" x);
       mcversions ← get_parser (frozenset_codec McVer_codec) (dict_get "mcversions" x);
       mret (ModVer.ModVer id version_string version_type title loaders published mcversions))).

Definition ModDesc_codec : codec ModDesc.t :=
  Codec false
    (fun o => ser [("id", get_serializer str_codec (ModDesc.id o));
                   ("type", get_serializer Type_codec (ModDesc.type o));
                   ("name", get_serializer str_codec (ModDesc.name o));
                   ("title", get_serializer_opt str_codec (ModDesc.title o));
                   ("updated", get_serializer_opt datetime_codec (ModDesc.updated o));
                   ("created", get_serializer_opt datetime_codec (ModDesc.created o));
                   ("license", get_serializer_opt License_codec (ModDesc.license o));
                   ("short_desc", get_serializer_opt str_codec (ModDesc.short_desc o));
                   ("desc", get_serializer_opt str_codec (ModDesc.desc o));
                   ("client_side", get_serializer_opt SideSupport_codec (ModDesc.client_side o));
                   ("server_side", get_serializer_opt SideSupport_codec (ModDesc.server_side o));
                   ("issues_url", get_serializer_opt str_codec (ModDesc.issues_url o));
                   ("source_url", get_serializer_opt str_codec (ModDesc.source_url o));
                   ("wiki_url", get_serializer_opt str_codec (ModDesc.wiki_url o));
                   ("discord_url", get_serializer_opt str_codec (ModDesc.discord_url o))])
    (pss (fun x =>
       id ← get_parser str_codec (dict_get "id" x);
       type ← get_parser Type_codec (dict_get "type" x);
       name ← get_parser str_codec (dict_get "name" x);
       title ← get_parser_opt str_codec (dict_get "title" x);
       updated ← get_parser_opt datetime_codec (dict_get "updated" x);
       created ← get_parser_opt datetime_codec (dict_get "created" x);
       license ← get_parser_opt License_codec (dict_get "license" x);
       short_desc ← get_parser_opt str_codec (dict_get "short_desc" x);
       desc ← get_parser_opt str_codec (dict_get "desc" x);
       client_side ← get_parser_opt SideSupport_codec (dict_get "client_side" x);
       server_side ← get_parser_opt SideSupport_codec (dict_get "server_side" x);
       issues_url ← get_parser_opt str_codec (dict_get "issues_url" x);
       source_url ← get_parser_opt str_codec (dict_get "source_url" x);
       wiki_url ← get_parser_opt str_codec (dict_get "wiki_url" x);
       discord_url ← get_parser_opt str_codec (dict_get "discord_url" x);
       mret (ModDesc.ModDesc id type name title updated created license short_desc desc
                             client_side server_side issues_url source_url wiki_url
                             discord_url))).

Definition ModInfo_codec : codec ModInfo.t :=
  Codec false
    (fun o => ser [("checked", get_serializer datetime_codec (ModInfo.checked o));
                   ("mod_desc", get_serializer ModDesc_codec (ModInfo.mod_desc o));
                   ("versions", get_serializer (list_codec ModVer_codec) (ModInfo.versions o));
                   ("version_info", get_serializer (dict_codec ModVerInfo_codec) (ModInfo.version_info o))])
    (pss (fun x =>
       checked ← get_parser datetime_codec (dict_get "checked" x);
       mod_desc ← get_parser ModDesc_codec (dict_get "mod_desc" x);
       versions ← get_parser (list_codec ModVer_codec) (dict_get "versions" x);
       version_info ← get_parser (dict_codec ModVerInfo_codec) (dict_get "version_info" x);
       mret (ModInfo.ModInfo checked mod_desc versions version_info))).

(** * infomanager.py *)

(** ** ModInfoCache: the in-memory dictionary over the JSON files *)
Module ModInfoCache.

Inductive by_ := by_id | by_name.

#[global] Instance by_eq_dec : EqDecision by_.
Proof. solve_decision. Defined.
#[global] Instance by_countable : Countable by_.
Proof.
  refine (inj_countable' (fun b => match b with by_id => false | by_name => true end)
                         (fun b : bool => if b then by_name else by_id) _).
  intros []; reflexivity.
Defined.
#[global] Instance SourceType_countable : Countable SourceType.t.
Proof.
  refine (inj_countable'
            (fun s => match s with
                      | SourceType.MODRINTH => 0%nat
                      | SourceType.CURSEFORGE => 1%nat
                      | SourceType.LOCAL => 2%nat
                      end)
            (fun n => match n with
                      | 0%nat => SourceType.MODRINTH
                      | 1%nat => SourceType.CURSEFORGE
                      | _ => SourceType.LOCAL
                      end) _).
  intros []; reflexivity.
Defined.

(** a key of [self.cache], which also names the file
    [<basedir>/<source>/<by>/<name>.json] *)
Definition key : Type := by_ * SourceType.t * string.

(** a value of [self.cache]: a [ModInfo], [None] for a mod known to be
    absent, or the exception its file raised *)
Inductive entry :=
| Info (info : ModInfo.t)
| Absent
| Failed (e : exn).

(** a file: a JSON document ([None] when the bytes are not JSON) or a
    symbolic link to another file *)
Inductive file :=
| Document (content : option json)
| Symlink (target : key).

Record t := ModInfoCache {
  cache : gmap key entry;
  disk : gmap key file
}.

(** [_path_by]: only the two remote sources have a directory, and the name
    must stay inside it *)
Definition _path_by (by_ : by_) (src : SourceType.t) (name : string) : result key :=
  match src with
  | SourceType.LOCAL => Raise KeyError
  | _ => if contains "/" name then Raise ValueError else Ok (by_, src, name)
  end.

(** [access(p, R_OK)] followed by [open(p)]: what a read of [p] finds *)
Definition read (disk : gmap key file) (p : key) : option (option json) :=
  match disk !! p with
  | Some (Document c) => Some c
  | Some (Symlink q) =>
      match disk !! q with
      | Some (Document c) => Some c
      | _ => None
      end
  | None => None
  end.

(** [json.load] then [deserialize(ModInfo, ...)] *)
Definition load (content : option json) : result ModInfo.t :=
  match content with
  | Some j => deserialize ModInfo_codec j
  | None => Raise JSONDecodeError
  end.

(** [_get_by] *)
Definition _get_by (by_ : by_) (self : t) (src : SourceType.t) (id : string)
  : result (option ModInfo.t) * t :=
  let key := (by_, src, id) in
  match cache self !! key with
  | Some (Info info) => (Ok (Some info), self)
  | Some Absent => (Ok None, self)
  | Some (Failed e) => (Raise e, self)
  | None =>
      match _path_by by_ src id with
      | Raise e => (Raise e, self)
      | Ok p =>
          match read (disk self) p with
          | None => (Ok None, ModInfoCache (<[key := Absent]> (cache self)) (disk self))
          | Some content =>
              match load content with
              | Ok result =>
                  (Ok (Some result),
                   ModInfoCache
                     (<[(by_name, src, ModInfo.name result) := Info result]>
                        (<[(by_id, src, ModInfo.id result) := Info result]> (cache self)))
                     (disk self))
              | Raise e =>
                  (Raise e, ModInfoCache (<[key := Failed e]> (cache self)) (disk self))
              end
          end
      end
  end.

Definition get_by_id := _get_by by_id.
Definition get_by_name := _get_by by_name.

(** [ModInfoCache.set] *)
Definition set (self : t) (src : SourceType.t) (value : ModInfo.t) : result ModInfo.t * t :=
  let cache' :=
    <[(by_name, src, ModInfo.name value) := Info value]>
      (<[(by_id, src, ModInfo.id value) := Info value]> (cache self)) in
  match _path_by by_id src (ModInfo.id value) with
  | Raise e => (Raise e, ModInfoCache cache' (disk self))
  | Ok path_by_id =>
      match _path_by by_name src (ModInfo.name value) with
      | Raise e => (Raise e, ModInfoCache cache' (disk self))
      | Ok path_by_name =>
          let disk' :=
            <[path_by_id := Document (Some (serialize ModInfo_codec value))]> (disk self) in
          match read disk' path_by_name, disk' !! path_by_name with
          | Some _, _ => (Ok value, ModInfoCache cache' disk')
          | None, None =>
              (Ok value, ModInfoCache cache' (<[path_by_name := Symlink path_by_id]> disk'))
          | None, Some _ => (Raise (Exception_ "FileExistsError"), ModInfoCache cache' disk')
          end
      end
  end.

End ModInfoCache.

(** ** The registry backends (external collaborators)

    A backend answers from the network.  It is modelled by the answers it
    gives; every request made is also appended to the manager's log, so that
    "no backend call" is a statement about that log. *)
Record Backend := {
  get_moddesc : Type_.t -> string -> result ModDesc.t;
  get_versions : ModDesc.t -> result (list ModVer.t * option (list (string * ModVerInfo.t)));
  get_version_info : ModDesc.t -> ModVer.t -> result ModVerInfo.t
}.

Inductive request :=
| GetModdesc (src : SourceType.t) (type : Type_.t) (id_or_name : string)
| GetVersions (src : SourceType.t) (desc : ModDesc.t)
| GetVersionInfo (src : SourceType.t) (desc : ModDesc.t) (ver : ModVer.t).

(** [d[k] = v]: an existing key keeps its place, a new one goes last *)
Fixpoint dict_set {V} (k : string) (v : V) (m : list (string * V)) : list (string * V) :=
  match m with
  | [] => [(k, v)]
  | (k', v') :: m' => if String.eqb k' k then (k, v) :: m' else (k', v') :: dict_set k v m'
  end.

(** [d.update(other)] *)
Definition dict_update {V} (m other : list (string * V)) : list (string * V) :=
  fold_left (fun acc p => dict_set (fst p) (snd p) acc) other m.

Module ModInfoManager.

Record t := ModInfoManager {
  cache : ModInfoCache.t;
  backends : SourceType.t -> option Backend;
  requests : list request
}.

Definition RECHECK_INTERVAL_MIN : Z := 6 * 3600.
Definition RECHECK_INTERVAL_MAX : Z := 10 * 3600.

(** [recheck_interval], for the value [r] that [randrange] drew *)
Definition recheck_interval (r : Z) : Z := datetime.timedelta 0 r.

Definition with_cache (self : t) (c : ModInfoCache.t) : t :=
  ModInfoManager c (backends self) (requests self).

Definition log (self : t) (q : request) : t :=
  ModInfoManager (cache self) (backends self) (requests self ++ [q]).

(** [self.backends[source]] *)
Definition backend (self : t) (source : SourceType.t) : result Backend :=
  match backends self source with Some b => Ok b | None => Raise KeyError end.

(** the part of [get_modinfo] after the [try] block: ask the backend for the
    descriptor, refetch the versions when there is no cached descriptor or
    its [updated] stamp changed, store the result *)
Definition revalidate (self : t) (now : datetime.t) (source : SourceType.t)
  (type : Type_.t) (id_or_name : string) (desc : option ModDesc.t)
  (versions : list ModVer.t) (version_info : list (string * ModVerInfo.t))
  : result ModInfo.t * t :=
  match backend self source with
  | Raise e => (Raise e, self)
  | Ok be =>
      let self := log self (GetModdesc source type id_or_name) in
      match get_moddesc be type id_or_name with
      | Raise e => (Raise e, self)
      | Ok newdesc =>
          let stale :=
            match desc with
            | None => true
            | Some desc => negb (bool_decide (ModDesc.updated desc = ModDesc.updated newdesc))
            end in
          let fetched :=
            if stale then
              (match get_versions be newdesc with
               | Raise e => Raise e
               | Ok (versions, newverinfo) =>
                   Ok (versions,
                       match newverinfo with
                       | Some (_ :: _ as n) => dict_update version_info n
                       | _ => version_info
                       end)
               end, log self (GetVersions source newdesc))
            else (Ok (versions, version_info), self) in
          match fetched with
          | (Raise e, self) => (Raise e, self)
          | (Ok (versions, version_info), self) =>
              let info := ModInfo.ModInfo now newdesc versions version_info in
              let (r, c) := ModInfoCache.set (cache self) source info in
              (r, with_cache self c)
          end
      end
  end.

(** [ModInfoManager.get_modinfo]; [now] is the clock reading and [r] the
    number of seconds drawn for the recheck interval.  A failure while
    reading the cache is printed and treated as a miss. *)
Definition get_modinfo (self : t) (now : datetime.t) (r : Z) (source : SourceType.t)
  (type : Type_.t) (id_or_name : string) : result ModInfo.t * t :=
  let (found, c) := ModInfoCache.get_by_name (cache self) source id_or_name in
  let self := with_cache self c in
  match found with
  | Ok (Some info) =>
      if datetime.__sub__ now (ModInfo.checked info) <? recheck_interval r
      then (Ok info, self)
      else revalidate self now source type id_or_name
             (Some (ModInfo.mod_desc info)) (ModInfo.versions info) (ModInfo.version_info info)
  | Ok None | Raise _ => revalidate self now source type id_or_name None [] []
  end.

(** [ModInfoManager.get_version_info]: the detail of one version, fetched on
    first use and written into [modinfo]; the second component of the answer
    is [modinfo] after the call *)
Definition get_version_info (self : t) (source : SourceType.t) (modinfo : ModInfo.t)
  (ver : ModVer.t) : result (ModVerPair.t * ModInfo.t) * t :=
  match dict_get (ModVer.id ver) (ModInfo.version_info modinfo) with
  | Some info => (Ok (ModVerPair.ModVerPair ver (Some info), modinfo), self)
  | None =>
      match backend self source with
      | Raise e => (Raise e, self)
      | Ok be =>
          let self := log self (GetVersionInfo source (ModInfo.mod_desc modinfo) ver) in
          match get_version_info be (ModInfo.mod_desc modinfo) ver with
          | Raise e => (Raise e, self)
          | Ok info =>
              let modinfo :=
                ModInfo.Build (ModInfo.checked modinfo) (ModInfo.mod_desc modinfo)
                  (ModInfo.versions modinfo)
                  (dict_set (ModVer.id ver) info (ModInfo.version_info modinfo)) in
              match ModInfoCache.set (cache self) source modinfo with
              | (Raise e, c) => (Raise e, with_cache self c)
              | (Ok _, c) =>
                  (Ok (ModVerPair.ModVerPair ver (Some info), modinfo), with_cache self c)
              end
          end
      end
  end.

End ModInfoManager.

(** * resolve.py *)

(** A reference to a mutable object (its identity, what [is] compares). *)
Definition ref := nat.

(** ** ResolvedMod

    [mod_] (the field [mod]), [conf] and the elements of [dependents] are
    references: to the [ModInfo] object, to the manifest entry ([None] for a
    mod that is only a dependency) and to the [ResolvedMod] objects that
    required this one. *)
Module ResolvedMod.

Record t := ResolvedMod {
  mod_ : ref;
  ver : ModVerPair.t;
  source : SourceType.t;
  conf : option ref;
  dependents : list ref
}.

#[global] Instance eq_dec : EqDecision t.
Proof. solve_decision. Defined.

(** [self.conf or other.conf] *)
Definition conf_or (a b : option ref) : option ref :=
  match a with Some c => Some c | None => b end.

(** [ResolvedMod.__and__] *)
Definition __and__ (self other : t) : result t :=
  if negb (Nat.eqb (mod_ self) (mod_ other)) then Raise ValueError
  else Ok (ResolvedMod (mod_ self)
             (if truthy (Ver.__ge__ (ModVerPair.version (ver self))
                                    (ModVerPair.version (ver other)))
              then ver self else ver other)
             (source self)
             (conf_or (conf self) (conf other))
             (dependents self ++ dependents other)).

Definition is_explicit (self : t) : bool :=
  match conf self with Some _ => true | None => false end.

Definition has_dependents (self : t) : bool :=
  match dependents self with [] => false | _ => true end.

(** the objects behind the references *)
Record heap := Heap {
  mods : gmap ref ModInfo.t;
  resolved : gmap ref t
}.

(** the property [name]: [self.mod.name] *)
Definition name (h : heap) (self : t) : option string :=
  ModInfo.name <$> mods h !! mod_ self.

(** the property [dependent_names]: [{d.name for d in self.dependents}] *)
Definition dependent_names (h : heap) (self : t) : gset string :=
  list_to_set (omap (fun d => resolved h !! d ≫= name h) (dependents self)).

End ResolvedMod.

(** ** Warnings: a dictionary from mod name to the list of its warnings *)
Module Warnings.

Definition t : Type := list (string * list string).

(** [Warnings.add] *)
Definition add (self : t) (mod_ : string) (warning : string) : t :=
  match dict_get mod_ self with
  | Some (w :: ws) => dict_set mod_ ((w :: ws) ++ [warning])%list self
  | _ => dict_set mod_ [warning] self
  end.

End Warnings.

(** ** find_version *)

Definition published_lt (a b : ModVer.t) : bool :=
  datetime.__lt__ (ModVer.published a) (ModVer.published b).

(** the text passed to [warnings.add] (a plain literal in the source) *)
Definition older_warning : string :=
  "version {latest.version} is older than {vers[0].version}".

(** The selection step of [find_version] on the descriptor [info]: the
    chosen version [latest] and the warnings after the check
    [latest.published != vers[0].published].  With no accepted version,
    [latest] is [None] and reading [latest.published] raises. *)
Definition select_version (info : ModInfo.t) (name : string) (mvm : ModVerMatch.t)
  (warnings : Warnings.t) : result (ModVer.t * Warnings.t) :=
  latest ← ModInfo.get_latest_version info mvm;
  accepted ← ModInfo.get_versions info mvm;
  let vers := sorted published_lt true accepted in
  match latest, vers with
  | Some latest, newest :: _ =>
      if negb (datetime.__eq__ (ModVer.published latest) (ModVer.published newest))
      then Ok (latest, Warnings.add warnings name older_warning)
      else Ok (latest, warnings)
  | None, _ => Raise AttributeError
  | Some _, [] => Raise (Exception_ "IndexError")
  end.

(** [find_version]: the answer, the manager and the warnings afterwards.
    Warnings are added in place, so they stay when a later step raises. *)
Definition find_version (manager : ModInfoManager.t) (now : datetime.t) (r : Z)
  (name : string) (type : Type_.t) (source : SourceType.t) (mvm : ModVerMatch.t)
  (warnings : Warnings.t)
  : result (ModInfo.t * ModVerPair.t) * ModInfoManager.t * Warnings.t :=
  match ModInfoManager.get_modinfo manager now r source type name with
  | (Raise e, manager) => (Raise e, manager, warnings)
  | (Ok info, manager) =>
      match select_version info name mvm warnings with
      | Raise e => (Raise e, manager, warnings)
      | Ok (latest, warnings) =>
          match ModInfoManager.get_version_info manager source info latest with
          | (Raise e, manager) => (Raise e, manager, warnings)
          | (Ok (found, info), manager) => (Ok (info, found), manager, warnings)
          end
      end
  end.

(** * Values in the range of the parsers

    The shapes that the codecs give back unchanged.  Tokens cut out of a
    version string by [strip_mcver], game versions read by
    [McVer.deserialize] and timestamps in the calendar are of this kind. *)

(** the text holds no [sep] *)
Definition free_of_char (sep : ascii) (s : string) : bool :=
  all_chars (fun c => negb (Ascii.eqb c sep)) s.

(** an integer that is not negative, or a text that is not a number and
    holds neither a dot nor a dash *)
Definition token_ok (tok : token) : bool :=
  match tok with
  | TInt n => 0 <=? n
  | TStr s => negb (isnumeric s) && free_of_char "." s && free_of_char "-" s
  end.

(** a letter of a word token, [[a-z_]] *)
Definition is_name_char (c : ascii) : bool := is_lower c || Ascii.eqb c "_".

(** a token as [strip_mcver] cuts it: a number that is not negative, or a
    non-empty word of lower-case letters and underscores *)
Definition plain_token (tok : token) : bool :=
  match tok with
  | TInt n => 0 <=? n
  | TStr w => negb (String.eqb w "") && all_chars is_name_char w
  end.

(** at least one token, all of them as above *)
Definition Ver_ok (v : Ver.t) : bool :=
  match Ver.version v with
  | [] => false
  | toks => forallb token_ok toks
  end.

(** a release or pre-release with numbers that are not negative, or the
    version that the snapshot table gives for the snapshot label *)
Definition McVer_ok (v : McVer.t) : bool :=
  if String.eqb (McVer.snapshot v) ""
  then (0 <=? McVer.major v) && (0 <=? McVer.minor v) && (0 <=? McVer.patch v)
  else bool_decide (McVer.deserialize (McVer.snapshot v) = Ok v).

Definition McVerMatch_ok (m : McVerMatch.t) : bool :=
  match McVerMatch.ver m with
  | None => String.eqb (McVerMatch.operator m) ""
  | Some v =>
      (String.eqb (McVerMatch.operator m) "" || String.eqb (McVerMatch.operator m) "^")
      && String.eqb (McVer.snapshot v) "" && McVer_ok v
  end.

Definition option_ok {A} (ok : A -> bool) (o : option A) : bool :=
  match o with Some x => ok x | None => true end.

(** sets list each element once *)
Definition ModVer_ok (v : ModVer.t) : bool :=
  datetime.valid (ModVer.published v)
  && bool_decide (NoDup (ModVer.loaders v))
  && bool_decide (NoDup (ModVer.mcversions v))
  && forallb McVer_ok (ModVer.mcversions v).

Definition ModDesc_ok (d : ModDesc.t) : bool :=
  option_ok datetime.valid (ModDesc.updated d) && option_ok datetime.valid (ModDesc.created d).

(** the versions are in the order the constructor puts them in *)
Definition ModInfo_ok (i : ModInfo.t) : bool :=
  datetime.valid (ModInfo.checked i)
  && ModDesc_ok (ModInfo.mod_desc i)
  && forallb ModVer_ok (ModInfo.versions i)
  && bool_decide (sorted ModInfo.ver_lt true (ModInfo.versions i) = ModInfo.versions i).

(** the parts of a cached record are as above; nothing is asked of the order
    of its versions *)
Definition ModInfo_parts_ok (i : ModInfo.t) : bool :=
  datetime.valid (ModInfo.checked i)
  && ModDesc_ok (ModInfo.mod_desc i)
  && forallb ModVer_ok (ModInfo.versions i).

(** * Sample values used by the witnesses and counterexamples *)
Module Examples.

(** [McVerMatch(pattern)] applied to the game version written [ver] *)
Definition matches (pattern ver : string) : result bool :=
  m ← McVerMatch.deserialize pattern; v ← McVer.deserialize ver; McVerMatch.__call__ m v.

Definition release (a b c : Z) : McVer.t := McVer.McVer a b c "" "".

Definition ver_1_2 : Ver.t := Ver.Ver [TInt 1; TInt 2] VerType.RELEASE.
Definition ver_1_2_3 : Ver.t := Ver.Ver [TInt 1; TInt 2; TInt 3] VerType.RELEASE.

Definition jan_10 : datetime.t := datetime.datetime 2023 1 10 12 0 0 0.
Definition feb_10 : datetime.t := datetime.datetime 2023 2 10 12 0 0 0.
Definition mar_10 : datetime.t := datetime.datetime 2023 3 10 12 0 0 0.

(** a release of a mod: id, raw version text, publish time, game versions *)
Definition modver (id version_string : string) (published : datetime.t)
  (mcversions : list McVer.t) : ModVer.t :=
  ModVer.ModVer id version_string VerType.RELEASE None [] published mcversions.

Definition v_2_0_0_for_1_20 : ModVer.t := modver "v2" "2.0.0" feb_10 [release 1 20 1].
Definition v_1_0_0_for_1_19 : ModVer.t := modver "v1" "1.0.0" jan_10 [release 1 19 2].
Definition v_0_9_1_for_1_19 : ModVer.t := modver "v0" "0.9.1" feb_10 [release 1 19 2].

Definition desc_a : ModDesc.t :=
  ModDesc.ModDesc "P1" Type_.MOD "mod-a" None (Some jan_10) None None None None
                  None None None None None None.

Definition file_a : ModVerInfo.t :=
  ModVerInfo.ModVerInfo
    (ModFile.ModFile "mod-a.jar" None (Hash.Hash HashType.SHA512 "0f") None) [] None.

(** the pack is on 1.19.2: exact match first, the same minor line as fallback *)
Definition mvm_1_19_2 : ModVerMatch.t :=
  ModVerMatch.ModVerMatch VerMatch.ANY None
    (McVerMatch.McVerMatch (Some (release 1 19 2)) "")
    (Some (McVerMatch.McVerMatch (Some (release 1 19 2)) "^")) None.

Definition mvm_forge : ModVerMatch.t :=
  ModVerMatch.ModVerMatch VerMatch.ANY (Some Loader.FORGE)
    (McVerMatch.McVerMatch (Some (release 1 19 2)) "")
    (Some (McVerMatch.McVerMatch (Some (release 1 19 2)) "^")) None.

(** a mod whose highest version targets another game version *)
Definition info_newer_elsewhere : ModInfo.t :=
  ModInfo.ModInfo mar_10 desc_a [v_1_0_0_for_1_19; v_2_0_0_for_1_20] [("v1", file_a)].

(** a mod whose older line got a release after the highest version *)
Definition info_late_backport : ModInfo.t :=
  ModInfo.ModInfo mar_10 desc_a [v_1_0_0_for_1_19; v_0_9_1_for_1_19] [("v1", file_a)].

(** a manager that holds [info] in memory and has no backend *)
Definition manager_with (info : ModInfo.t) : ModInfoManager.t :=
  ModInfoManager.ModInfoManager
    (ModInfoCache.ModInfoCache
       {[ (ModInfoCache.by_name, SourceType.MODRINTH, ModInfo.name info)
            := ModInfoCache.Info info ]} ∅)
    (fun _ => None) [].

(** *** representative instances of the serialized types *)

Definition mar_10_us : datetime.t := datetime.datetime 2023 3 10 12 0 0 250000.

Definition mcver_samples : list McVer.t :=
  [ release 1 19 2; release 1 18 0; McVer.McVer 1 19 3 "pre1" "";
    McVer.McVer 1 20 0 "rc1" ""; McVer.McVer 1 19 3 "pre1" "22w42a";
    McVer.McVer 1 18 2 "pre1" "22w05a" ].

Definition mcvermatch_samples : list McVerMatch.t :=
  [ McVerMatch.ANY; McVerMatch.McVerMatch (Some (release 1 19 2)) "";
    McVerMatch.McVerMatch (Some (release 1 18 0)) "^" ].

Definition ver_samples : list Ver.t :=
  [ ver_1_2_3; ver_1_2; Ver.Ver [TInt 0; TInt 5; TInt 3; TStr "b"; TInt 7] VerType.BETA;
    Ver.Ver [TInt 2; TInt 0; TStr "rc"; TInt 1] VerType.ALPHA ].

(** a version with every optional part absent and every collection empty *)
Definition modver_bare : ModVer.t :=
  ModVer.ModVer "b0" "0.1" VerType.ALPHA None [] jan_10 [].
Definition modver_full : ModVer.t :=
  ModVer.ModVer "f1" "1.19.2-3.4.5-forge" VerType.BETA (Some "Three four five")
    [Loader.FORGE; Loader.QUILT] mar_10_us
    [release 1 19 2; McVer.McVer 1 19 3 "pre1" "22w42a"].

Definition desc_full : ModDesc.t :=
  ModDesc.ModDesc "P2" Type_.RESOURCEPACK "pack-b" (Some "Pack B") (Some mar_10_us)
    (Some jan_10) (Some (License.License LicenseType.CUSTOM "https://example.org/l"))
    (Some "short") (Some "long") (Some SideSupport.REQUIRED) (Some SideSupport.UNSUPPORTED)
    (Some "https://example.org/i") (Some "https://example.org/s")
    (Some "https://example.org/w") (Some "https://example.org/d").
(** a descriptor with every optional field absent *)
Definition desc_bare : ModDesc.t :=
  ModDesc.ModDesc "P3" Type_.MOD "mod-c" None None None None None None None None
    None None None None.

Definition file_full : ModVerInfo.t :=
  ModVerInfo.ModVerInfo
    (ModFile.ModFile "pack-b.zip" (Some 1024) (Hash.Hash HashType.SHA1 "c0ffee")
       (Some "https://example.org/f"))
    [Dep.Dep true "P1" None; Dep.Dep false "P3" (Some "b0")] (Some "fixes").

(** a mod with no version and no detail at all *)
Definition info_bare : ModInfo.t := ModInfo.ModInfo jan_10 desc_bare [] [].
Definition info_full : ModInfo.t :=
  ModInfo.ModInfo mar_10_us desc_full [modver_bare; modver_full; v_1_0_0_for_1_19]
    [("f1", file_full); ("v1", file_a)].

(** a registry that is down, and one that answers *)
Definition backend_down : Backend :=
  Build_Backend (fun _ _ => Raise (BackendError "503"))
                (fun _ => Raise (BackendError "503"))
                (fun _ _ => Raise (BackendError "503")).
Definition backend_up : Backend :=
  Build_Backend (fun _ _ => Ok desc_a)
                (fun _ => Ok ([v_1_0_0_for_1_19], None))
                (fun _ _ => Ok file_a).

(** a manager that holds [info] in memory and reaches Modrinth through [be] *)
Definition manager_on (info : ModInfo.t) (be : Backend) : ModInfoManager.t :=
  ModInfoManager.ModInfoManager
    (ModInfoCache.ModInfoCache
       {[ (ModInfoCache.by_name, SourceType.MODRINTH, ModInfo.name info)
            := ModInfoCache.Info info ]} ∅)
    (fun s => match s with SourceType.MODRINTH => Some be | _ => None end) [].

(** one hour after [mar_10] *)
Definition mar_10_13h : datetime.t := datetime.datetime 2023 3 10 13 0 0 0.
(** one day after [mar_10] *)
Definition mar_11 : datetime.t := datetime.datetime 2023 3 11 12 0 0 0.

(** two resolutions of the same [ModInfo] object (reference 1), reached from
    the requesters 10 and 11 *)
Definition pair_1_0_0 : ModVerPair.t := ModVerPair.ModVerPair v_1_0_0_for_1_19 (Some file_a).
Definition pair_0_9_1 : ModVerPair.t := ModVerPair.ModVerPair v_0_9_1_for_1_19 None.
Definition resolved_via_10 : ResolvedMod.t :=
  ResolvedMod.ResolvedMod 1%nat pair_1_0_0 SourceType.MODRINTH None [10%nat].
Definition resolved_via_11 : ResolvedMod.t :=
  ResolvedMod.ResolvedMod 1%nat pair_0_9_1 SourceType.MODRINTH None [11%nat].
(** the same resolution, pointing at another copy of the [ModInfo] *)
Definition resolved_copy : ResolvedMod.t :=
  ResolvedMod.ResolvedMod 2%nat pair_1_0_0 SourceType.MODRINTH None [10%nat].

(** a beta whose version text leaves the tokens [(1, 0, 0)] of the release
    [v_1_0_0_for_1_19], and the record that the constructor builds from the
    two *)
Definition v_1_0_0_beta : ModVer.t :=
  ModVer.ModVer "b1" "1.0.0-beta" VerType.BETA None [] feb_10 [release 1 19 2].
Definition info_release_and_beta : ModInfo.t :=
  ModInfo.ModInfo mar_10 desc_a [v_1_0_0_for_1_19; v_1_0_0_beta] [].

End Examples.

(** * Properties checked against the specification *)

(** ** Ver: comparison *)

Lemma str_compare_refl (s : string) : String.compare s s = Eq.
Proof.
  pose proof (String.compare_antisym s s) as H.
  destruct (String.compare s s); simpl in H; congruence.
Qed.

Lemma str_ltb_irrefl (s : string) : String.ltb s s = false.
Proof. unfold String.ltb. rewrite str_compare_refl. reflexivity. Qed.

Lemma str_ltb_false_iff (a b : string) :
  String.ltb a b = false <-> String.ltb b a = true \/ a = b.
Proof.
  unfold String.ltb. rewrite (String.compare_antisym b a).
  destruct (String.compare a b) eqn:E; simpl; split; intros H;
    try discriminate; auto.
  - right. apply String.compare_eq_iff. exact E.
  - destruct H as [H | ->]; [discriminate|].
    rewrite str_compare_refl in E. discriminate.
Qed.

(** Positions that hold the same integer on both sides are skipped. *)
Lemma lt_loop_int_prefix (ns : list Z) (l r : list token) :
  Ver.lt_loop (map TInt ns ++ l) (map TInt ns ++ r) = Ver.lt_loop l r.
Proof.
  induction ns as [|n ns IH]; simpl; [reflexivity|].
  rewrite Z.gtb_ltb, Z.ltb_irrefl. exact IH.
Qed.

Lemma lt_loop_ints_refl (ns : list Z) : Ver.lt_loop (map TInt ns) (map TInt ns) = None.
Proof.
  pose proof (lt_loop_int_prefix ns [] []) as H.
  rewrite !app_nil_r in H. exact H.
Qed.

Lemma repr_truthy (v : Ver.t) : truthy (PyStr (Ver.__repr__ v)) = true.
Proof. unfold Ver.__repr__. destruct (Ver.type v); reflexivity. Qed.

(** A version whose tokens are all integers compares lower than itself. *)
Lemma lt_ints_self_truthy (ns : list Z) (ty : VerType.t) :
  truthy (Ver.__lt__ (Ver.Ver (map TInt ns) ty) (Ver.Ver (map TInt ns) ty)) = true.
Proof.
  unfold Ver.__lt__. simpl Ver.version. rewrite lt_loop_ints_refl. apply repr_truthy.
Qed.

(** With a text token present, [<] between equal tuples is [False]: the
    catch-all case returns at the first text token. *)
Lemma lt_self_with_text (ns : list Z) (s : string) (rest : list token) (ty : VerType.t) :
  let v := Ver.Ver (map TInt ns ++ TStr s :: rest) ty in
  Ver.__lt__ v v = PyBool false.
Proof.
  simpl. unfold Ver.__lt__. simpl Ver.version.
  rewrite lt_loop_int_prefix. simpl. rewrite str_ltb_irrefl. reflexivity.
Qed.

(** C1 (code defect).  Two [Ver] values with the same all-integer token tuple
    and the same maturity are equal under [==], yet [<] between them is
    truthy: after its loop [Ver.__lt__] returns the text of [__repr__]
    instead of [False].  At [Ver((1, 2, 3))] the answer is the string
    ["Ver((1, 2, 3))"], and [>=], derived as [not <], is [False]. *)
Theorem C1_lt_of_equal_int_versions_is_truthy :
  (forall (ns : list Z) (ty : VerType.t),
      let v1 := Ver.Ver (map TInt ns) ty in
      let v2 := Ver.Ver (map TInt ns) ty in
      Ver.__eq__ v1 v2 = true
      /\ truthy (Ver.__lt__ v1 v2) = true /\ truthy (Ver.__lt__ v2 v1) = true)
  /\ Ver.__lt__ Examples.ver_1_2_3 Examples.ver_1_2_3 = PyStr "Ver((1, 2, 3))"
  /\ Ver.__ge__ Examples.ver_1_2_3 Examples.ver_1_2_3 = PyBool false.
Proof.
  split; [|split; reflexivity].
  intros ns ty v1 v2. subst v1 v2. split; [|split].
  - unfold Ver.__eq__. apply bool_decide_eq_true. reflexivity.
  - apply lt_ints_self_truthy.
  - apply lt_ints_self_truthy.
Qed.

(** C3, as stated, fails: [(1, 2)] is a proper prefix of [(1, 2, 3)], but it
    is the longer tuple that compares lower. *)
Lemma C3_shorter_tuple_is_not_lower :
  Ver.__lt__ Examples.ver_1_2 Examples.ver_1_2_3 = PyBool false
  /\ Ver.__lt__ Examples.ver_1_2_3 Examples.ver_1_2 = PyBool true.
Proof. split; reflexivity. Qed.

(** C3 (amended).  [Ver.__lt__] ignores the maturity and is decided at the
    first position that does not hold the same integer on both sides:
    - the tuple that ends there is the higher one (a missing component sorts
      highest);
    - two different integers compare as integers;
    - [a] or [b] against an integer is the lower one;
    - any other pair compares as the texts [str(lhs) < str(rhs)]. *)
Theorem C3_lt_decided_at_first_position (ns : list Z) (l r : list token)
  (ty1 ty2 : VerType.t) (x y : token) :
  let lt l r := Ver.__lt__ (Ver.Ver (map TInt ns ++ l) ty1) (Ver.Ver (map TInt ns ++ r) ty2) in
  lt [] (y :: r) = PyBool false
  /\ lt (x :: l) [] = PyBool true
  /\ (forall a b, a <> b -> lt (TInt a :: l) (TInt b :: r) = PyBool (a <? b))
  /\ (forall s b, is_a_or_b s = true ->
        lt (TStr s :: l) (TInt b :: r) = PyBool true
        /\ lt (TInt b :: l) (TStr s :: r) = PyBool false)
  /\ (forall s b, is_a_or_b s = false ->
        lt (TStr s :: l) (TInt b :: r) = PyBool (String.ltb s (str_of_int b))
        /\ lt (TInt b :: l) (TStr s :: r) = PyBool (String.ltb (str_of_int b) s))
  /\ (forall s1 s2, lt (TStr s1 :: l) (TStr s2 :: r) = PyBool (String.ltb s1 s2)).
Proof.
  intros lt. subst lt. unfold Ver.__lt__. simpl Ver.version.
  rewrite !lt_loop_int_prefix.
  repeat split.
  - destruct x; reflexivity.
  - intros a b Hab. rewrite lt_loop_int_prefix. simpl.
    destruct (a <? b) eqn:E1; [reflexivity|].
    rewrite Z.gtb_ltb. destruct (b <? a) eqn:E2; [reflexivity|].
    apply Z.ltb_ge in E1, E2. lia.
  - rewrite lt_loop_int_prefix. simpl. rewrite H. reflexivity.
  - rewrite lt_loop_int_prefix. simpl. rewrite H. reflexivity.
  - rewrite lt_loop_int_prefix. simpl. rewrite H. reflexivity.
  - rewrite lt_loop_int_prefix. simpl. rewrite H. reflexivity.
  - intros s1 s2. rewrite lt_loop_int_prefix. reflexivity.
Qed.

Lemma C3_lt_decided_at_first_position_witness :
  Ver.__lt__ (Ver.Ver [TInt 1; TInt 0; TInt 2] VerType.RELEASE)
             (Ver.Ver [TInt 1; TInt 0; TInt 10] VerType.BETA) = PyBool true
  /\ Ver.__lt__ (Ver.Ver [TInt 1; TInt 0; TStr "b"; TInt 1] VerType.RELEASE)
                (Ver.Ver [TInt 1; TInt 0; TInt 0] VerType.RELEASE) = PyBool true
  /\ Ver.__lt__ (Ver.Ver [TInt 1; TInt 0; TStr "rc"; TInt 1] VerType.RELEASE)
                (Ver.Ver [TInt 1; TInt 0; TInt 0] VerType.RELEASE) = PyBool false.
Proof.
  pose proof (C3_lt_decided_at_first_position [1; 0] [] [] VerType.RELEASE VerType.BETA
                (TInt 0) (TInt 0)) as (_ & _ & Hint & _).
  pose proof (C3_lt_decided_at_first_position [1; 0] [TInt 1] [] VerType.RELEASE
                VerType.RELEASE (TInt 0) (TInt 0)) as (_ & _ & _ & Hab & Hother & _).
  split; [|split].
  - apply (Hint 2 10). lia.
  - apply (Hab "b" 0). reflexivity.
  - apply (Hother "rc" 0). reflexivity.
Defined.

(** ** McVerMatch: the compatible operator *)

(** The key order is total: a key is not below another exactly when the
    other one is below it or they coincide. *)
Lemma cmp_lt_false_iff (a b : Z * Z * Z * string * string) :
  McVer.cmp_lt a b = false <-> McVer.cmp_lt b a = true \/ a = b.
Proof.
  destruct a as [[[[a1 a2] a3] a4] a5], b as [[[[b1 b2] b3] b4] b5].
  unfold McVer.cmp_lt.
  rewrite (Z.eqb_sym b1 a1), (Z.eqb_sym b2 a2), (Z.eqb_sym b3 a3), (String.eqb_sym b4 a4).
  destruct (Z.eqb_spec a1 b1) as [->|N1]; simpl.
  2:{ rewrite Z.ltb_ge, Z.ltb_lt. split; [lia|]. intros [H|H]; [lia|congruence]. }
  destruct (Z.eqb_spec a2 b2) as [->|N2]; simpl.
  2:{ rewrite Z.ltb_ge, Z.ltb_lt. split; [lia|]. intros [H|H]; [lia|congruence]. }
  destruct (Z.eqb_spec a3 b3) as [->|N3]; simpl.
  2:{ rewrite Z.ltb_ge, Z.ltb_lt. split; [lia|]. intros [H|H]; [lia|congruence]. }
  destruct (String.eqb_spec a4 b4) as [->|N4]; simpl.
  2:{ rewrite str_ltb_false_iff. split; intros [H|H]; auto; congruence. }
  rewrite str_ltb_false_iff.
  split; intros [H|H]; [left; exact H|right; congruence|left; exact H|right; congruence].
Qed.


(** C2, as stated, fails: [1.18.2] has the major and minor of [1.18.0] and is
    greater than it, and [^1.18.0] rejects it. *)
Lemma C2_caret_rejects_later_patch :
  McVerMatch.deserialize "^1.18.0"
    = Ok (McVerMatch.McVerMatch (Some (Examples.release 1 18 0)) "^")
  /\ McVer.deserialize "1.18.2" = Ok (Examples.release 1 18 2)
  /\ McVer.__ge__ (Examples.release 1 18 2) (Examples.release 1 18 0) = true
  /\ Examples.matches "^1.18.0" "1.18.2" = Ok false.
Proof. repeat split. Qed.

(** C2 (amended).  [McVerMatch] with the operator [^] accepts exactly the
    game versions that have the major and minor of the base and are lower
    than or equal to it in the order of [McVer.cmp]: the test is
    [base >= other].  So [^1.18.0] matches [1.18.0] and rejects [1.18.2],
    [1.19.0] and [1.17.3], and [^1.19.3] matches [1.19.2]. *)
Theorem C2_caret_accepts_same_line_up_to_base (base other : McVer.t) :
  (McVerMatch.__call__ (McVerMatch.McVerMatch (Some base) "^") other = Ok true
   <-> McVer.major other = McVer.major base
       /\ McVer.minor other = McVer.minor base
       /\ (McVer.__lt__ other base = true \/ McVer.cmp other = McVer.cmp base))
  /\ Examples.matches "^1.18.0" "1.18.0" = Ok true
  /\ Examples.matches "^1.18.0" "1.18.2" = Ok false
  /\ Examples.matches "^1.18.0" "1.19.0" = Ok false
  /\ Examples.matches "^1.18.0" "1.17.3" = Ok false
  /\ Examples.matches "^1.19.3" "1.19.2" = Ok true.
Proof.
  split; [|repeat split].
  unfold McVerMatch.__call__, McVer.__ge__, McVer.__lt__.
  cbn [McVerMatch.ver McVerMatch.operator String.eqb Ascii.eqb Bool.eqb].
  pose proof (cmp_lt_false_iff (McVer.cmp base) (McVer.cmp other)) as [Hcmp1 Hcmp2].
  destruct (McVer.cmp_lt (McVer.cmp base) (McVer.cmp other)) eqn:Elt; cbn [negb andb].
  - split; [discriminate|]. intros (_ & _ & H). exfalso.
    assert (true = false) as Habs; [|discriminate Habs].
    apply Hcmp2. destruct H as [H|H]; [left; exact H|right; symmetry; exact H].
  - destruct (Z.eqb_spec (McVer.minor other) (McVer.minor base)) as [Hmin|Hmin]; cbn [andb].
    2:{ split; [discriminate|]. intros (_ & H & _). contradiction. }
    destruct (Z.eqb_spec (McVer.major other) (McVer.major base)) as [Hmaj|Hmaj].
    2:{ split; [discriminate|]. intros (H & _). contradiction. }
    split; [|reflexivity]. intros _. split; [exact Hmaj|split; [exact Hmin|]].
    destruct (Hcmp1 eq_refl) as [H|H]; [left; exact H|right; symmetry; exact H].
Qed.

(** ** ModVerMatch.test: the loader criterion *)

(** C9.  A version that declares no loaders is never rejected by the loader
    criterion: with a loader required, [test] answers what it answers for the
    same match without loader requirement. *)
Theorem C9_empty_loaders_never_rejected (ver : VerMatch.t) (l : Loader.t)
  (mcver : McVerMatch.t) (mcver_fallback : option McVerMatch.t)
  (ver_str_match : option string) (v : ModVer.t) (fallback : bool) :
  ModVer.loaders v = [] ->
  ModVerMatch.test (ModVerMatch.ModVerMatch ver (Some l) mcver mcver_fallback ver_str_match)
                   v fallback
  = ModVerMatch.test (ModVerMatch.ModVerMatch ver None mcver mcver_fallback ver_str_match)
                     v fallback.
Proof.
  intros Hempty.
  unfold ModVerMatch.test, ModVerMatch.loader_rejects. simpl.
  rewrite Hempty. reflexivity.
Qed.

Lemma C9_empty_loaders_never_rejected_witness :
  ModVer.loaders Examples.v_1_0_0_for_1_19 = []
  /\ ModVerMatch.test Examples.mvm_forge Examples.v_1_0_0_for_1_19 true
     = ModVerMatch.test Examples.mvm_1_19_2 Examples.v_1_0_0_for_1_19 true
  /\ ModVerMatch.test Examples.mvm_forge Examples.v_1_0_0_for_1_19 true
     = Ok ModVerMatch.RESULT_SUCCESS.
Proof.
  split; [reflexivity|]. split; [|reflexivity].
  apply (C9_empty_loaders_never_rejected VerMatch.ANY Loader.FORGE).
  reflexivity.
Defined.

(** ** ResolvedMod: merging two resolutions *)

(** C10.  [&] raises [ValueError] exactly when the two [mod] fields are not
    the same object; what the two objects hold plays no part, so two equal
    copies of a [ModInfo] still raise.  On the same object it returns a
    merged [ResolvedMod]. *)
Theorem C10_and_raises_iff_distinct_objects (h : ResolvedMod.heap) (a b : ResolvedMod.t) :
  (ResolvedMod.__and__ a b = Raise ValueError
   <-> ResolvedMod.mod_ a <> ResolvedMod.mod_ b)
  /\ (ResolvedMod.mod_ a <> ResolvedMod.mod_ b ->
      ResolvedMod.mods h !! ResolvedMod.mod_ a = ResolvedMod.mods h !! ResolvedMod.mod_ b ->
      ResolvedMod.__and__ a b = Raise ValueError)
  /\ (ResolvedMod.mod_ a = ResolvedMod.mod_ b ->
      exists r, ResolvedMod.__and__ a b = Ok r /\ ResolvedMod.mod_ r = ResolvedMod.mod_ a).
Proof.
  unfold ResolvedMod.__and__.
  destruct (Nat.eqb_spec (ResolvedMod.mod_ a) (ResolvedMod.mod_ b)) as [E|N]; simpl.
  - split; [split; [discriminate|contradiction]|]. split; [contradiction|].
    intros _. eexists. split; reflexivity.
  - split; [split; [intros _; exact N|reflexivity]|]. split; [reflexivity|contradiction].
Qed.

Lemma C10_and_raises_iff_distinct_objects_witness :
  ResolvedMod.__and__ Examples.resolved_via_10 Examples.resolved_copy = Raise ValueError
  /\ exists r, ResolvedMod.__and__ Examples.resolved_via_10 Examples.resolved_via_11 = Ok r
               /\ ResolvedMod.mod_ r = 1%nat.
Proof.
  pose (h := ResolvedMod.Heap {[ 1%nat := Examples.info_late_backport;
                                 2%nat := Examples.info_late_backport ]} ∅).
  split.
  - apply (C10_and_raises_iff_distinct_objects h Examples.resolved_via_10 Examples.resolved_copy).
    + simpl. lia.
    + reflexivity.
  - apply (C10_and_raises_iff_distinct_objects h Examples.resolved_via_10 Examples.resolved_via_11).
    reflexivity.
Defined.

(** C5, as stated, fails: merging a resolution with itself doubles its
    dependents, and the two merge orders give different values. *)
Lemma C5_merge_doubles_and_orders_dependents :
  (exists r, ResolvedMod.__and__ Examples.resolved_via_10 Examples.resolved_via_10 = Ok r
             /\ ResolvedMod.dependents r = [10%nat; 10%nat]
             /\ r <> Examples.resolved_via_10)
  /\ (exists ab ba,
         ResolvedMod.__and__ Examples.resolved_via_10 Examples.resolved_via_11 = Ok ab
         /\ ResolvedMod.__and__ Examples.resolved_via_11 Examples.resolved_via_10 = Ok ba
         /\ ResolvedMod.dependents ab = [10%nat; 11%nat]
         /\ ResolvedMod.dependents ba = [11%nat; 10%nat]
         /\ ab <> ba).
Proof.
  split.
  - eexists. split; [reflexivity|]. split; [reflexivity|]. discriminate.
  - eexists. eexists. split; [reflexivity|]. split; [reflexivity|].
    split; [reflexivity|]. split; [reflexivity|]. discriminate.
Qed.

Lemma dependent_names_app (h : ResolvedMod.heap) (m : ref) (v : ModVerPair.t)
  (s : SourceType.t) (c : option ref) (d1 d2 : list ref) :
  ResolvedMod.dependent_names h (ResolvedMod.ResolvedMod m v s c (d1 ++ d2))
  = ResolvedMod.dependent_names h (ResolvedMod.ResolvedMod m v s c d1)
    ∪ ResolvedMod.dependent_names h (ResolvedMod.ResolvedMod m v s c d2).
Proof.
  unfold ResolvedMod.dependent_names. simpl.
  rewrite omap_app, list_to_set_app_L. reflexivity.
Qed.

(** C5 (amended).  For two resolutions [a] and [b] of the same [ModInfo]
    object, [a & b] and [b & a] are resolutions of that object whose
    dependents are the two lists joined, so in either order the set of
    dependents (and of their names) is the union; a manifest entry is kept
    if either side has one; the version kept is the left one unless it is
    lower ([<]) than the right one.  [a & a] has the mod, version, source and
    manifest entry of [a] and the same set of dependents, each listed twice. *)
Theorem C5_merge_on_sets (h : ResolvedMod.heap) (a b : ResolvedMod.t) :
  ResolvedMod.mod_ a = ResolvedMod.mod_ b ->
  exists ab ba aa,
    ResolvedMod.__and__ a b = Ok ab
    /\ ResolvedMod.__and__ b a = Ok ba
    /\ ResolvedMod.__and__ a a = Ok aa
    /\ ResolvedMod.mod_ ab = ResolvedMod.mod_ a
    /\ ResolvedMod.mod_ ba = ResolvedMod.mod_ a
    /\ ResolvedMod.dependents ab = (ResolvedMod.dependents a ++ ResolvedMod.dependents b)%list
    /\ list_to_set (ResolvedMod.dependents ab)
       =@{gset ref} list_to_set (ResolvedMod.dependents a)
                    ∪ list_to_set (ResolvedMod.dependents b)
    /\ list_to_set (ResolvedMod.dependents ba)
       =@{gset ref} list_to_set (ResolvedMod.dependents ab)
    /\ ResolvedMod.dependent_names h ba = ResolvedMod.dependent_names h ab
    /\ ResolvedMod.is_explicit ab = ResolvedMod.is_explicit a || ResolvedMod.is_explicit b
    /\ ResolvedMod.is_explicit ba = ResolvedMod.is_explicit ab
    /\ ResolvedMod.ver ab
       = (if truthy (Ver.__lt__ (ModVerPair.version (ResolvedMod.ver a))
                                (ModVerPair.version (ResolvedMod.ver b)))
          then ResolvedMod.ver b else ResolvedMod.ver a)
    /\ ResolvedMod.mod_ aa = ResolvedMod.mod_ a
    /\ ResolvedMod.ver aa = ResolvedMod.ver a
    /\ ResolvedMod.source aa = ResolvedMod.source a
    /\ ResolvedMod.conf aa = ResolvedMod.conf a
    /\ list_to_set (ResolvedMod.dependents aa)
       =@{gset ref} list_to_set (ResolvedMod.dependents a)
    /\ ResolvedMod.dependent_names h aa = ResolvedMod.dependent_names h a.
Proof.
  intros Hmod. unfold ResolvedMod.__and__.
  rewrite <- Hmod, Nat.eqb_refl. simpl.
  eexists. eexists. eexists.
  split; [reflexivity|]. split; [reflexivity|]. split; [reflexivity|]. simpl.
  repeat match goal with |- _ /\ _ => split end;
    first
      [ reflexivity
      | apply list_to_set_app_L
      | rewrite !list_to_set_app_L; apply (comm_L (∪))
      | rewrite list_to_set_app_L; apply (idemp_L (∪))
      | rewrite !dependent_names_app; apply (comm_L (∪))
      | rewrite dependent_names_app; apply (idemp_L (∪))
      | unfold ResolvedMod.is_explicit, ResolvedMod.conf_or; simpl;
        destruct (ResolvedMod.conf a), (ResolvedMod.conf b); reflexivity
      | unfold Ver.__ge__, py_not; simpl; destruct (truthy _); reflexivity ].
Qed.

Lemma C5_merge_on_sets_witness :
  ResolvedMod.mod_ Examples.resolved_via_10 = ResolvedMod.mod_ Examples.resolved_via_11
  /\ exists ab ba,
       ResolvedMod.__and__ Examples.resolved_via_10 Examples.resolved_via_11 = Ok ab
       /\ ResolvedMod.__and__ Examples.resolved_via_11 Examples.resolved_via_10 = Ok ba
       /\ list_to_set (ResolvedMod.dependents ba)
          =@{gset ref} list_to_set (ResolvedMod.dependents ab).
Proof.
  split; [reflexivity|].
  destruct (C5_merge_on_sets (ResolvedMod.Heap ∅ ∅)
              Examples.resolved_via_10 Examples.resolved_via_11 eq_refl)
    as (ab & ba & aa & Hab & Hba & _ & _ & _ & _ & _ & Hset & _).
  exists ab, ba. split; [exact Hab|]. split; [exact Hba|exact Hset].
Defined.

(** ** [sorted]: a permutation, and ordered when [<] is a strict order *)

Section sorted_facts.
Context {A : Type} (lt : A -> A -> bool).

Lemma insort_perm (x : A) (l : list A) : Permutation (insort lt x l) (x :: l).
Proof.
  induction l as [|y l IH]; simpl; [reflexivity|].
  destruct (lt x y); [reflexivity|].
  rewrite IH. apply perm_swap.
Qed.

Lemma sort_asc_perm_acc (l acc : list A) :
  Permutation (fold_left (fun acc x => insort lt x acc) l acc) (l ++ acc)%list.
Proof.
  revert acc. induction l as [|x l IH]; intros acc; simpl; [reflexivity|].
  rewrite IH, insort_perm. symmetry. apply Permutation_middle.
Qed.

Lemma sort_asc_perm (l : list A) : Permutation (sort_asc lt l) l.
Proof. unfold sort_asc. rewrite sort_asc_perm_acc, app_nil_r. reflexivity. Qed.

Lemma sorted_perm (reverse : bool) (l : list A) : Permutation (sorted lt reverse l) l.
Proof.
  unfold sorted. destruct reverse; [|apply sort_asc_perm].
  rewrite <- Permutation_rev, sort_asc_perm, <- Permutation_rev. reflexivity.
Qed.

Lemma sorted_In (reverse : bool) (l : list A) (x : A) :
  In x (sorted lt reverse l) <-> In x l.
Proof.
  split; apply Permutation_in; [|symmetry]; apply sorted_perm.
Qed.

Lemma sorted_nil_inv (reverse : bool) (l : list A) : sorted lt reverse l = [] -> l = [].
Proof.
  intros H. apply Permutation_nil. rewrite <- H. apply sorted_perm.
Qed.

Hypothesis lt_asym : forall a b, lt a b = true -> lt b a = false.
Hypothesis lt_trans : forall a b c, lt a b = true -> lt b c = true -> lt a c = true.

(** [not_after a b]: [a] does not come after [b] *)
Local Abbreviation not_after := (fun a b => lt b a = false).

Lemma insort_sorted (x : A) (l : list A) :
  StronglySorted not_after l -> StronglySorted not_after (insort lt x l).
Proof.
  induction 1 as [|y l Hs IH Hall]; simpl.
  - constructor; constructor.
  - destruct (lt x y) eqn:E.
    + constructor; [constructor; assumption|].
      constructor; [apply lt_asym; exact E|].
      rewrite Forall_forall in *. intros z Hz. specialize (Hall z Hz).
      simpl in *.
      destruct (lt z x) eqn:Ezx; [|reflexivity].
      rewrite (lt_trans z x y Ezx E) in Hall. discriminate.
    + constructor; [exact IH|].
      rewrite Forall_forall in *. intros z Hz.
      apply (Permutation_in _ (insort_perm x l)) in Hz.
      destruct Hz as [<-|Hz]; [exact E|apply Hall; exact Hz].
Qed.

Lemma sort_asc_sorted_acc (l acc : list A) :
  StronglySorted not_after acc ->
  StronglySorted not_after (fold_left (fun acc x => insort lt x acc) l acc).
Proof.
  revert acc. induction l as [|x l IH]; intros acc Hacc; simpl; [exact Hacc|].
  apply IH, insort_sorted, Hacc.
Qed.

Lemma sorted_last_max (s : list A) (m : A) :
  StronglySorted not_after (s ++ [m]) -> forall z, In z s -> lt m z = false.
Proof.
  induction s as [|y s IH]; intros Hs z Hz; [destruct Hz|].
  simpl in Hs. inversion Hs as [|? ? Hs' Hall]; subst.
  destruct Hz as [<-|Hz]; [|apply IH; assumption].
  rewrite Forall_forall in Hall. apply Hall, in_or_app. right. left. reflexivity.
Qed.

(** With [reverse=True] the head of the result is a greatest element. *)
Lemma sorted_reverse_head_max (l : list A) (m : A) (rest : list A) :
  (forall a, lt a a = false) ->
  sorted lt true l = m :: rest -> forall z, In z l -> lt m z = false.
Proof.
  intros Hirr Hsort z Hz. unfold sorted in Hsort.
  assert (Hs : StronglySorted not_after (sort_asc lt (rev l)))
    by (apply sort_asc_sorted_acc; constructor).
  assert (Hrev : sort_asc lt (rev l) = (rev rest ++ [m])%list).
  { rewrite <- (rev_involutive (sort_asc lt (rev l))), Hsort. reflexivity. }
  rewrite Hrev in Hs.
  assert (Hin : In z (rev rest ++ [m])%list).
  { rewrite <- Hrev. apply (Permutation_in z (symmetry (sort_asc_perm (rev l)))).
    apply in_rev in Hz. exact Hz. }
  apply in_app_or in Hin. destruct Hin as [Hin|[<-|[]]].
  - apply (sorted_last_max _ _ Hs z Hin).
  - apply Hirr.
Qed.

End sorted_facts.

(** ** The order of [datetime] *)

Lemma lex_lt_irrefl (a : list Z) : datetime.lex_lt a a = false.
Proof. induction a as [|x a IH]; simpl; [reflexivity|]. rewrite Z.eqb_refl. exact IH. Qed.

Lemma lex_lt_trans (a b c : list Z) :
  datetime.lex_lt a b = true -> datetime.lex_lt b c = true -> datetime.lex_lt a c = true.
Proof.
  revert b c. induction a as [|x a IH]; intros [|y b] [|z c]; simpl; try congruence.
  destruct (Z.eqb_spec x y) as [->|Nxy], (Z.eqb_spec y z) as [->|Nyz]; simpl.
  - apply IH.
  - intros _ H. exact H.
  - destruct (Z.eqb_spec x z) as [->|Nxz]; [congruence|]. intros H _. exact H.
  - rewrite !Z.ltb_lt. intros H1 H2.
    destruct (Z.eqb_spec x z) as [->|Nxz]; [lia|]. apply Z.ltb_lt. lia.
Qed.

Lemma lex_lt_asym (a b : list Z) : datetime.lex_lt a b = true -> datetime.lex_lt b a = false.
Proof.
  intros H. destruct (datetime.lex_lt b a) eqn:E; [|reflexivity].
  pose proof (lex_lt_trans a b a H E) as Habs. rewrite lex_lt_irrefl in Habs. discriminate.
Qed.

Lemma lex_lt_total (a b : list Z) :
  length a = length b ->
  datetime.lex_lt a b = false -> datetime.lex_lt b a = false -> a = b.
Proof.
  revert b. induction a as [|x a IH]; intros [|y b]; simpl; try congruence.
  intros Hlen. rewrite (Z.eqb_sym y x).
  destruct (Z.eqb_spec x y) as [->|N].
  - intros H1 H2. f_equal. apply IH; congruence.
  - rewrite !Z.ltb_ge. lia.
Qed.

Lemma datetime_lt_total (a b : datetime.t) :
  datetime.__lt__ a b = false -> datetime.__lt__ b a = false -> a = b.
Proof.
  unfold datetime.__lt__. intros H1 H2.
  pose proof (lex_lt_total (datetime.key a) (datetime.key b) eq_refl H1 H2) as Hk.
  destruct a, b. unfold datetime.key in Hk. simpl in Hk. congruence.
Qed.

Lemma published_lt_irrefl (a : ModVer.t) : published_lt a a = false.
Proof. apply lex_lt_irrefl. Qed.

Lemma published_lt_asym (a b : ModVer.t) : published_lt a b = true -> published_lt b a = false.
Proof. apply lex_lt_asym. Qed.

Lemma published_lt_trans (a b c : ModVer.t) :
  published_lt a b = true -> published_lt b c = true -> published_lt a c = true.
Proof. apply lex_lt_trans. Qed.

(** ** find_version: when a warning is recorded *)

(** C4, as stated, fails in both directions.  The check reads only the
    accepted versions: a higher version published for another game version
    raises no warning, and a later release of an older line raises one
    although the highest version of the mod was selected. *)
Lemma C4_warning_ignores_unaccepted_versions :
  (let info := Examples.info_newer_elsewhere in
   let manager := Examples.manager_with info in
   head (ModInfo.versions info) = Some Examples.v_2_0_0_for_1_20
   /\ truthy (Ver.__gt__ (ModVer.version Examples.v_2_0_0_for_1_20)
                         (ModVer.version Examples.v_1_0_0_for_1_19)) = true
   /\ find_version manager Examples.mar_10_13h 21600 "mod-a" Type_.MOD SourceType.MODRINTH
                   Examples.mvm_1_19_2 []
      = (Ok (info, Examples.pair_1_0_0), manager, []))
  /\ (let info := Examples.info_late_backport in
      let manager := Examples.manager_with info in
      head (ModInfo.versions info) = Some Examples.v_1_0_0_for_1_19
      /\ find_version manager Examples.mar_10_13h 21600 "mod-a" Type_.MOD SourceType.MODRINTH
                      Examples.mvm_1_19_2 []
         = (Ok (info, Examples.pair_1_0_0), manager, [("mod-a", [older_warning])])).
Proof. split; repeat split; vm_compute; reflexivity. Qed.

Lemma select_version_spec (info : ModInfo.t) (name : string) (mvm : ModVerMatch.t)
  (warnings : Warnings.t) (accepted : list ModVer.t) :
  ModInfo.get_versions info mvm = Ok accepted ->
  accepted <> [] ->
  exists latest,
    head accepted = Some latest
    /\ select_version info name mvm warnings
       = Ok (latest,
             if existsb (published_lt latest) accepted
             then Warnings.add warnings name older_warning else warnings).
Proof.
  intros Hacc Hne. unfold select_version, ModInfo.get_latest_version.
  rewrite Hacc. cbn -[sorted].
  destruct accepted as [|latest rest] eqn:Eacc; [contradiction|]. rewrite <- Eacc in *.
  exists latest. split; [rewrite Eacc; reflexivity|].
  replace (head accepted) with (Some latest) by (rewrite Eacc; reflexivity).
  destruct (sorted published_lt true accepted) as [|newest others] eqn:Esort.
  { apply sorted_nil_inv in Esort. contradiction. }
  assert (Hmax : forall z, In z accepted -> published_lt newest z = false).
  { apply (sorted_reverse_head_max published_lt published_lt_asym published_lt_trans
             accepted newest others published_lt_irrefl Esort). }
  assert (Hin : In newest accepted).
  { apply (sorted_In published_lt true). rewrite Esort. left. reflexivity. }
  assert (Hlatest : In latest accepted) by (rewrite Eacc; left; reflexivity).
  unfold datetime.__eq__.
  destruct (bool_decide_reflect (ModVer.published latest = ModVer.published newest)) as [E|N];
    cbn [negb].
  - replace (existsb (published_lt latest) accepted) with false; [reflexivity|].
    symmetry. apply not_true_is_false. intros Hex.
    apply existsb_exists in Hex. destruct Hex as (z & Hz & Hlt).
    unfold published_lt in Hlt. rewrite E in Hlt.
    pose proof (Hmax z Hz) as Hm. unfold published_lt in Hm. congruence.
  - replace (existsb (published_lt latest) accepted) with true; [reflexivity|].
    symmetry. apply existsb_exists. exists newest. split; [exact Hin|].
    destruct (published_lt latest newest) eqn:Elt; [reflexivity|].
    exfalso. apply N. apply datetime_lt_total; [exact Elt|apply Hmax, Hlatest].
Qed.

(** C4 (amended).  Once the descriptor is at hand and some version is
    accepted, [find_version] selects the head of [get_versions] and records
    a warning for the mod exactly when some accepted version was published
    later than the selected one (the selected version's publish time is not
    the latest among the accepted versions).  Versions that the predicate
    does not accept play no part, and neither does the way the accepted ones
    were accepted (primary or fallback match). *)
Theorem C4_warning_iff_later_accepted_release (manager manager' : ModInfoManager.t)
  (now : datetime.t) (r : Z) (name : string) (type : Type_.t) (source : SourceType.t)
  (mvm : ModVerMatch.t) (warnings : Warnings.t) (info : ModInfo.t)
  (accepted : list ModVer.t) :
  ModInfoManager.get_modinfo manager now r source type name = (Ok info, manager') ->
  ModInfo.get_versions info mvm = Ok accepted ->
  accepted <> [] ->
  exists latest,
    ModInfo.get_latest_version info mvm = Ok (Some latest)
    /\ In latest accepted
    /\ snd (find_version manager now r name type source mvm warnings)
       = if existsb (published_lt latest) accepted
         then Warnings.add warnings name older_warning else warnings.
Proof.
  intros Hget Hacc Hne.
  destruct (select_version_spec info name mvm warnings accepted Hacc Hne)
    as (latest & Hhead & Hsel).
  exists latest. split; [|split].
  - unfold ModInfo.get_latest_version. rewrite Hacc. simpl. rewrite Hhead. reflexivity.
  - destruct accepted; [discriminate|]. injection Hhead as ->. left. reflexivity.
  - unfold find_version. rewrite Hget, Hsel.
    destruct (ModInfoManager.get_version_info manager' source info latest) as [[[p i]|e] m];
      reflexivity.
Qed.

Lemma C4_warning_iff_later_accepted_release_witness :
  exists latest,
    ModInfo.get_latest_version Examples.info_late_backport Examples.mvm_1_19_2
      = Ok (Some latest)
    /\ In latest [Examples.v_1_0_0_for_1_19; Examples.v_0_9_1_for_1_19]
    /\ snd (find_version (Examples.manager_with Examples.info_late_backport)
              Examples.mar_10_13h 21600 "mod-a" Type_.MOD SourceType.MODRINTH
              Examples.mvm_1_19_2 [])
       = if existsb (published_lt latest)
                    [Examples.v_1_0_0_for_1_19; Examples.v_0_9_1_for_1_19]
         then Warnings.add [] "mod-a" older_warning else [].
Proof.
  apply (C4_warning_iff_later_accepted_release
           (Examples.manager_with Examples.info_late_backport)
           (Examples.manager_with Examples.info_late_backport)
           Examples.mar_10_13h 21600 "mod-a" Type_.MOD SourceType.MODRINTH
           Examples.mvm_1_19_2 [] Examples.info_late_backport
           [Examples.v_1_0_0_for_1_19; Examples.v_0_9_1_for_1_19]).
  - vm_compute. reflexivity.
  - vm_compute. reflexivity.
  - discriminate.
Defined.

(** ** get_modinfo: staleness and backend failures *)

Lemma with_cache_requests (self : ModInfoManager.t) (c : ModInfoCache.t) :
  ModInfoManager.requests (ModInfoManager.with_cache self c) = ModInfoManager.requests self.
Proof. reflexivity. Qed.

(** C6, as stated, fails: the mod is cached, the copy is a day old, the
    registry is down, and [get_modinfo] raises the registry's error instead
    of returning the cached copy. *)
Lemma C6_stale_copy_not_served_on_failure :
  let info := Examples.info_late_backport in
  let manager := Examples.manager_on info Examples.backend_down in
  fst (ModInfoCache.get_by_name (ModInfoManager.cache manager) SourceType.MODRINTH "mod-a")
    = Ok (Some info)
  /\ datetime.__sub__ Examples.mar_11 (ModInfo.checked info) = datetime.timedelta 1 0
  /\ fst (ModInfoManager.get_modinfo manager Examples.mar_11 25000
            SourceType.MODRINTH Type_.MOD "mod-a")
     = Raise (BackendError "503").
Proof. repeat split; vm_compute; reflexivity. Qed.

(** C6 (amended).  Whatever the cache holds for the mod (a copy that is due
    for a recheck, nothing, or a file that fails to load), a failure of the
    backend's descriptor fetch propagates to the caller of [get_modinfo];
    the cached copy is not returned in its place.  Only failures while
    reading the cache are absorbed, by going on to the backend. *)
Theorem C6_backend_failure_propagates (self : ModInfoManager.t) (now : datetime.t) (r : Z)
  (source : SourceType.t) (type : Type_.t) (id_or_name : string)
  (found : result (option ModInfo.t)) (c : ModInfoCache.t) (be : Backend) (e : exn) :
  ModInfoCache.get_by_name (ModInfoManager.cache self) source id_or_name = (found, c) ->
  (forall info, found = Ok (Some info) ->
     ModInfoManager.recheck_interval r <= datetime.__sub__ now (ModInfo.checked info)) ->
  ModInfoManager.backends self source = Some be ->
  get_moddesc be type id_or_name = Raise e ->
  ModInfoManager.get_modinfo self now r source type id_or_name
  = (Raise e,
     ModInfoManager.log (ModInfoManager.with_cache self c)
                        (GetModdesc source type id_or_name)).
Proof.
  intros Hget Hstale Hbe Hfail.
  assert (Hrev : forall desc versions version_info,
             ModInfoManager.revalidate (ModInfoManager.with_cache self c) now source type
               id_or_name desc versions version_info
             = (Raise e,
                ModInfoManager.log (ModInfoManager.with_cache self c)
                                   (GetModdesc source type id_or_name))).
  { intros. unfold ModInfoManager.revalidate, ModInfoManager.backend. simpl.
    rewrite Hbe. simpl. rewrite Hfail. reflexivity. }
  unfold ModInfoManager.get_modinfo. rewrite Hget.
  destruct found as [[info|]|e']; try apply Hrev.
  specialize (Hstale info eq_refl).
  destruct (Z.ltb_spec (datetime.__sub__ now (ModInfo.checked info))
                       (ModInfoManager.recheck_interval r)) as [Hlt|Hge]; [lia|].
  apply Hrev.
Qed.

Lemma C6_backend_failure_propagates_witness :
  ModInfoManager.get_modinfo
    (Examples.manager_on Examples.info_late_backport Examples.backend_down)
    Examples.mar_11 25000 SourceType.MODRINTH Type_.MOD "mod-a"
  = (Raise (BackendError "503"),
     ModInfoManager.log
       (Examples.manager_on Examples.info_late_backport Examples.backend_down)
       (GetModdesc SourceType.MODRINTH Type_.MOD "mod-a")).
Proof.
  apply (C6_backend_failure_propagates
           (Examples.manager_on Examples.info_late_backport Examples.backend_down)
           Examples.mar_11 25000 SourceType.MODRINTH Type_.MOD "mod-a"
           (Ok (Some Examples.info_late_backport))
           (ModInfoManager.cache
              (Examples.manager_on Examples.info_late_backport Examples.backend_down))
           Examples.backend_down (BackendError "503")).
  - vm_compute. reflexivity.
  - intros info Hinfo. injection Hinfo as <-. vm_compute. discriminate.
  - reflexivity.
  - reflexivity.
Defined.

Lemma revalidate_requests (self : ModInfoManager.t) (now : datetime.t)
  (source : SourceType.t) (type : Type_.t) (id_or_name : string) (desc : option ModDesc.t)
  (versions : list ModVer.t) (version_info : list (string * ModVerInfo.t)) (be : Backend) :
  ModInfoManager.backends self source = Some be ->
  exists rest,
    ModInfoManager.requests
      (snd (ModInfoManager.revalidate self now source type id_or_name desc versions
              version_info))
    = (ModInfoManager.requests self ++ GetModdesc source type id_or_name :: rest)%list.
Proof.
  intros Hbe. unfold ModInfoManager.revalidate, ModInfoManager.backend.
  rewrite Hbe. cbn [ModInfoManager.backends ModInfoManager.log ModInfoManager.cache
                    ModInfoManager.requests].
  destruct (get_moddesc be type id_or_name) as [newdesc|e].
  2:{ exists []. reflexivity. }
  match goal with |- context [if ?b then _ else _] => destruct b end.
  - destruct (get_versions be newdesc) as [[vs nvi]|e].
    + destruct (ModInfoCache.set _ _ _) as [res c'] eqn:Eset.
      exists [GetVersions source newdesc]. simpl.
      rewrite <- app_assoc. reflexivity.
    + exists [GetVersions source newdesc]. simpl. rewrite <- app_assoc. reflexivity.
  - destruct (ModInfoCache.set _ _ _) as [res c'] eqn:Eset.
    exists []. reflexivity.
Qed.

(** C7.  Whatever interval is drawn from [6h, 10h): a cached [ModInfo]
    younger than six hours is returned as it is and no backend request is
    made; one that is ten hours old or older makes [get_modinfo] ask the
    backend for the descriptor. *)
Theorem C7_fresh_is_served_old_is_rechecked (self : ModInfoManager.t) (now : datetime.t)
  (r : Z) (source : SourceType.t) (type : Type_.t) (id_or_name : string)
  (info : ModInfo.t) (c : ModInfoCache.t) :
  ModInfoManager.RECHECK_INTERVAL_MIN <= r < ModInfoManager.RECHECK_INTERVAL_MAX ->
  ModInfoCache.get_by_name (ModInfoManager.cache self) source id_or_name
    = (Ok (Some info), c) ->
  let age := datetime.__sub__ now (ModInfo.checked info) in
  let answer := ModInfoManager.get_modinfo self now r source type id_or_name in
  (age < datetime.timedelta 0 ModInfoManager.RECHECK_INTERVAL_MIN ->
   fst answer = Ok info
   /\ ModInfoManager.requests (snd answer) = ModInfoManager.requests self)
  /\ (datetime.timedelta 0 ModInfoManager.RECHECK_INTERVAL_MAX <= age ->
      forall be, ModInfoManager.backends self source = Some be ->
      exists rest,
        ModInfoManager.requests (snd answer)
        = (ModInfoManager.requests self ++ GetModdesc source type id_or_name :: rest)%list).
Proof.
  intros Hr Hget age answer. subst age answer.
  unfold ModInfoManager.get_modinfo. rewrite Hget.
  unfold ModInfoManager.recheck_interval, datetime.timedelta,
    ModInfoManager.RECHECK_INTERVAL_MIN, ModInfoManager.RECHECK_INTERVAL_MAX in *.
  split; [intros Hage|intros Hage be Hbe].
  - destruct (Z.ltb_spec (datetime.__sub__ now (ModInfo.checked info))
                         ((0 * 86400 + r) * 1000000)) as [Hlt|Hge]; [|lia].
    split; reflexivity.
  - destruct (Z.ltb_spec (datetime.__sub__ now (ModInfo.checked info))
                         ((0 * 86400 + r) * 1000000)) as [Hlt|Hge]; [lia|].
    apply (revalidate_requests (ModInfoManager.with_cache self c) now source type
             id_or_name _ _ _ be). exact Hbe.
Qed.

Lemma C7_fresh_is_served_old_is_rechecked_witness :
  let manager := Examples.manager_on Examples.info_late_backport Examples.backend_up in
  (fst (ModInfoManager.get_modinfo manager Examples.mar_10_13h 30000
          SourceType.MODRINTH Type_.MOD "mod-a") = Ok Examples.info_late_backport
   /\ ModInfoManager.requests
        (snd (ModInfoManager.get_modinfo manager Examples.mar_10_13h 30000
                SourceType.MODRINTH Type_.MOD "mod-a")) = [])
  /\ exists rest,
       ModInfoManager.requests
         (snd (ModInfoManager.get_modinfo manager Examples.mar_11 30000
                 SourceType.MODRINTH Type_.MOD "mod-a"))
       = GetModdesc SourceType.MODRINTH Type_.MOD "mod-a" :: rest.
Proof.
  intros manager.
  assert (Hr : ModInfoManager.RECHECK_INTERVAL_MIN <= 30000
               < ModInfoManager.RECHECK_INTERVAL_MAX) by (vm_compute; split; congruence).
  assert (Hget : ModInfoCache.get_by_name (ModInfoManager.cache manager)
                   SourceType.MODRINTH "mod-a"
                 = (Ok (Some Examples.info_late_backport), ModInfoManager.cache manager))
    by (vm_compute; reflexivity).
  split.
  - apply (C7_fresh_is_served_old_is_rechecked manager Examples.mar_10_13h 30000
             SourceType.MODRINTH Type_.MOD "mod-a" Examples.info_late_backport
             (ModInfoManager.cache manager) Hr Hget).
    vm_compute. reflexivity.
  - apply (C7_fresh_is_served_old_is_rechecked manager Examples.mar_11 30000
             SourceType.MODRINTH Type_.MOD "mod-a" Examples.info_late_backport
             (ModInfoManager.cache manager) Hr Hget) with (be := Examples.backend_up).
    + vm_compute. discriminate.
    + reflexivity.
Defined.

(** ** Serialization round trips *)

Lemma map_result_roundtrip {A B} (f : A -> B) (g : B -> result A) (l : list A) :
  (forall x, In x l -> g (f x) = Ok x) -> map_result g (map f l) = Ok l.
Proof.
  induction l as [|x l IH]; intros H; simpl; [reflexivity|].
  rewrite (H x (or_introl eq_refl)). simpl.
  rewrite IH; [reflexivity|]. intros y Hy. apply H. right. exact Hy.
Qed.

Lemma enum_roundtrip_VerType (x : VerType.t) :
  deserialize VerType_codec (serialize VerType_codec x) = Ok x.
Proof. destruct x; reflexivity. Qed.

Lemma enum_roundtrip_Type (x : Type_.t) :
  deserialize Type_codec (serialize Type_codec x) = Ok x.
Proof. destruct x; reflexivity. Qed.

Lemma enum_roundtrip_Loader (x : Loader.t) :
  deserialize Loader_codec (serialize Loader_codec x) = Ok x.
Proof. destruct x; reflexivity. Qed.

Lemma enum_roundtrip_HashType (x : HashType.t) :
  deserialize HashType_codec (serialize HashType_codec x) = Ok x.
Proof. destruct x; reflexivity. Qed.

Lemma enum_roundtrip_SideSupport (x : SideSupport.t) :
  deserialize SideSupport_codec (serialize SideSupport_codec x) = Ok x.
Proof. destruct x; reflexivity. Qed.

Lemma enum_roundtrip_LicenseType (x : LicenseType.t) :
  deserialize LicenseType_codec (serialize LicenseType_codec x) = Ok x.
Proof. destruct x; reflexivity. Qed.

Lemma roundtrip_Hash (v : Hash.t) : deserialize Hash_codec (serialize Hash_codec v) = Ok v.
Proof. destruct v as [[] value]; reflexivity. Qed.

Lemma roundtrip_Dep (v : Dep.t) : deserialize Dep_codec (serialize Dep_codec v) = Ok v.
Proof. destruct v as [r i [v|]]; reflexivity. Qed.

Lemma roundtrip_ModFile (v : ModFile.t) :
  deserialize ModFile_codec (serialize ModFile_codec v) = Ok v.
Proof. destruct v as [f [s|] [[] h] [u|]]; reflexivity. Qed.

Lemma roundtrip_list_Dep (deps : list Dep.t) :
  _get_parser (list_codec Dep_codec) (_get_serializer (list_codec Dep_codec) deps) = Ok deps.
Proof.
  cbn [list_codec _get_parser _get_serializer iterate]. simpl mbind.
  apply map_result_roundtrip. intros x _. apply roundtrip_Dep.
Qed.

Local Opaque ModFile_codec list_codec.

Lemma roundtrip_ModVerInfo (v : ModVerInfo.t) :
  deserialize ModVerInfo_codec (serialize ModVerInfo_codec v) = Ok v.
Proof.
  destruct v as [f deps log].
  pose proof (roundtrip_ModFile f) as Hf. pose proof (roundtrip_list_Dep deps) as Hd.
  unfold deserialize, serialize in *.
  remember (_get_serializer ModFile_codec f) as jf eqn:Ejf.
  remember (_get_serializer (list_codec Dep_codec) deps) as jd eqn:Ejd.
  change (_get_serializer ModVerInfo_codec (ModVerInfo.ModVerInfo f deps log))
    with (ser [("file", Some (_get_serializer ModFile_codec f));
               ("dependencies", Some (_get_serializer (list_codec Dep_codec) deps));
               ("changelog", _get_serializer str_codec <$> log)]).
  rewrite <- Ejf, <- Ejd.
  destruct log as [log|]; simpl; rewrite Hf; simpl; rewrite Hd; reflexivity.
Qed.

Local Transparent ModFile_codec list_codec.

Lemma std_get_of_key (self : License.t) (k : string) :
  License.std_key License.STD self = Some k -> License.std_get License.STD k = Ok self.
Proof.
  unfold License.STD. cbn [License.std_key].
  repeat (case_bool_decide; [intros [= <-]; subst self; reflexivity|]).
  discriminate.
Qed.

Lemma roundtrip_License (v : License.t) :
  deserialize License_codec (serialize License_codec v) = Ok v.
Proof.
  unfold deserialize, serialize, License_codec. cbn [_get_serializer _get_parser].
  unfold License.serialize.
  destruct (License.std_key License.STD v) as [k|] eqn:E.
  - cbn [License.deserialize]. apply std_get_of_key, E.
  - destruct v as [[] name]; reflexivity.
Qed.

(** ** Decimal text of integers *)

Lemma digits_val_of_uint_acc (d : Decimal.uint) (acc : positive) :
  digits_val (Zpos acc) (NilEmpty.string_of_uint d) = Zpos (Pos.of_uint_acc d acc).
Proof.
  revert acc. induction d as [|d IH|d IH|d IH|d IH|d IH|d IH|d IH|d IH|d IH|d IH];
    intros acc; [reflexivity|..];
    cbn [NilEmpty.string_of_uint digits_val Pos.of_uint_acc];
    rewrite <- IH; f_equal; unfold digit_val;
    match goal with
    | |- context [Z.of_nat (nat_of_ascii ?c)] =>
        let v := eval vm_compute in (Z.of_nat (nat_of_ascii c)) in
        change (Z.of_nat (nat_of_ascii c)) with v
    end; lia.
Qed.

Lemma digits_val_of_uint (d : Decimal.uint) :
  digits_val 0 (NilEmpty.string_of_uint d) = Z.of_N (Pos.of_uint d).
Proof.
  induction d as [|d IH|d IH|d IH|d IH|d IH|d IH|d IH|d IH|d IH|d IH];
    [reflexivity|exact IH|..];
    cbn [NilEmpty.string_of_uint digits_val Pos.of_uint Z.of_N];
    rewrite <- digits_val_of_uint_acc; reflexivity.
Qed.

Lemma all_digits_of_uint (d : Decimal.uint) :
  all_chars is_digit (NilEmpty.string_of_uint d) = true.
Proof.
  induction d as [|d IH|d IH|d IH|d IH|d IH|d IH|d IH|d IH|d IH|d IH];
    [reflexivity|..]; cbn [NilEmpty.string_of_uint all_chars]; rewrite IH; reflexivity.
Qed.

Lemma to_uint_not_nil (p : positive) : Pos.to_uint p <> Decimal.Nil.
Proof.
  intros H. pose proof (DecimalPos.Unsigned.of_to p) as Hp. rewrite H in Hp. discriminate.
Qed.

Lemma string_of_uint_not_nil (d : Decimal.uint) :
  d <> Decimal.Nil ->
  NilZero.string_of_uint d = NilEmpty.string_of_uint d
  /\ String.eqb (NilEmpty.string_of_uint d) "" = false.
Proof. destruct d; [contradiction|..]; intros _; split; reflexivity. Qed.

(** the decimal text of a natural number: digits only, and it reads back *)
Lemma str_of_int_nonneg (n : Z) :
  0 <= n ->
  isnumeric (str_of_int n) = true /\ digits_val 0 (str_of_int n) = n.
Proof.
  intros Hn. unfold str_of_int, isnumeric. destruct n as [|p|p]; [split; reflexivity| |lia].
  cbn [Z.to_int NilZero.string_of_int].
  destruct (string_of_uint_not_nil _ (to_uint_not_nil p)) as [-> Hne].
  rewrite Hne, all_digits_of_uint, digits_val_of_uint, DecimalPos.Unsigned.of_to.
  split; reflexivity.
Qed.

Lemma maybeint_str_of_int (n : Z) : 0 <= n -> Ver.maybeint (str_of_int n) = TInt n.
Proof.
  intros Hn. destruct (str_of_int_nonneg n Hn) as [Hnum Hval].
  unfold Ver.maybeint. rewrite Hnum, Hval. reflexivity.
Qed.

Lemma isnumeric_head (s : string) :
  isnumeric s = true -> exists c s', s = String c s' /\ is_digit c = true.
Proof.
  unfold isnumeric. destruct s as [|c s']; [discriminate|]. simpl.
  destruct (is_digit c) eqn:E; [|discriminate]. intros _. exists c, s'. split; [reflexivity|exact E].
Qed.

Lemma py_int_str_of_int (n : Z) : 0 <= n -> py_int (str_of_int n) = Ok n.
Proof.
  intros Hn. destruct (str_of_int_nonneg n Hn) as [Hnum Hval].
  destruct (isnumeric_head _ Hnum) as (c & s' & Hs & Hc).
  unfold py_int. rewrite Hs in *.
  destruct c as [[] [] [] [] [] [] [] []]; try discriminate Hc; rewrite Hnum, Hval; reflexivity.
Qed.

(** ** Pieces of text: [split], [partition], [join] *)

Local Abbreviation free := free_of_char.

Lemma free_cons (sep c : ascii) (s : string) :
  free sep (String c s) = negb (Ascii.eqb c sep) && free sep s.
Proof. reflexivity. Qed.

Lemma free_of_digits (sep : ascii) (s : string) :
  is_digit sep = false -> all_chars is_digit s = true -> free sep s = true.
Proof.
  intros Hsep. induction s as [|c s IH]; [reflexivity|].
  rewrite free_cons. cbn [all_chars].
  destruct (is_digit c) eqn:Ec; [|discriminate]. simpl. intros Hs.
  rewrite (IH Hs), andb_true_r.
  destruct (Ascii.eqb_spec c sep) as [->|]; [congruence|reflexivity].
Qed.

Lemma free_app (sep : ascii) (a b : string) :
  free sep (a ++ b) = free sep a && free sep b.
Proof.
  induction a as [|c a IH]; [reflexivity|].
  change (String c a ++ b) with (String c (a ++ b)).
  rewrite !free_cons, IH, andb_assoc. reflexivity.
Qed.

Lemma split_free (sep : ascii) (a : string) : free sep a = true -> split sep a = [a].
Proof.
  induction a as [|c a IH]; [reflexivity|]. rewrite free_cons. cbn [split].
  destruct (Ascii.eqb c sep); [discriminate|]. simpl. intros H. rewrite (IH H). reflexivity.
Qed.

Lemma split_app (sep : ascii) (a b : string) :
  free sep a = true -> split sep (a ++ String sep b) = a :: split sep b.
Proof.
  induction a as [|c a IH].
  - intros _. simpl. rewrite Ascii.eqb_refl. reflexivity.
  - rewrite free_cons. change (String c a ++ String sep b) with (String c (a ++ String sep b)).
    cbn [split]. destruct (Ascii.eqb c sep); [discriminate|]. simpl.
    intros H. rewrite (IH H). reflexivity.
Qed.

Lemma partition_free (sep : ascii) (a : string) :
  free sep a = true -> partition sep a = (a, None).
Proof.
  induction a as [|c a IH]; [reflexivity|]. rewrite free_cons. cbn [partition].
  destruct (Ascii.eqb c sep); [discriminate|]. simpl. intros H. rewrite (IH H). reflexivity.
Qed.

Lemma partition_app (sep : ascii) (a b : string) :
  free sep a = true -> partition sep (a ++ String sep b) = (a, Some b).
Proof.
  induction a as [|c a IH].
  - intros _. simpl. rewrite Ascii.eqb_refl. reflexivity.
  - rewrite free_cons. change (String c a ++ String sep b) with (String c (a ++ String sep b)).
    cbn [partition]. destruct (Ascii.eqb c sep); [discriminate|]. simpl.
    intros H. rewrite (IH H). reflexivity.
Qed.

Lemma split_join (sep : ascii) (parts : list string) :
  parts <> [] ->
  Forall (fun p => free sep p = true) parts ->
  split sep (join (String sep EmptyString) parts) = parts.
Proof.
  induction parts as [|p parts IH]; [contradiction|]. intros _ Hall.
  inversion Hall as [|? ? Hp Hps]; subst.
  destruct parts as [|q parts]; [apply split_free, Hp|].
  change (join (String sep "") (p :: q :: parts))
    with (p ++ String sep (join (String sep "") (q :: parts))).
  rewrite (split_app sep p _ Hp), IH; [reflexivity|discriminate|exact Hps].
Qed.

Lemma free_join (sep c : ascii) (parts : list string) :
  c <> sep ->
  Forall (fun p => free c p = true) parts ->
  free c (join (String sep EmptyString) parts) = true.
Proof.
  intros Hc. induction parts as [|p parts IH]; [reflexivity|]. intros Hall.
  inversion Hall as [|? ? Hp Hps]; subst.
  destruct parts as [|q parts]; [exact Hp|].
  change (join (String sep "") (p :: q :: parts))
    with (p ++ String sep (join (String sep "") (q :: parts))).
  rewrite free_app, Hp, free_cons.
  destruct (Ascii.eqb_spec sep c) as [->|]; [contradiction|]. simpl. apply IH, Hps.
Qed.

Lemma prefix_app (sub b : string) : String.prefix sub (sub ++ b) = true.
Proof.
  induction sub as [|c sub IH]; simpl; [destruct b; reflexivity|].
  rewrite IH. destruct (Ascii.ascii_dec c c); [reflexivity|contradiction].
Qed.

Lemma contains_prefix (sub s : string) : String.prefix sub s = true -> contains sub s = true.
Proof. intros H. destruct s; simpl in *; rewrite H; reflexivity. Qed.

Lemma contains_app (sub a b : string) : contains sub (a ++ sub ++ b) = true.
Proof.
  induction a as [|c a IH].
  - change ("" ++ sub ++ b) with (sub ++ b). apply contains_prefix, prefix_app.
  - change (contains sub (String c a ++ sub ++ b))
      with (String.prefix sub (String c (a ++ sub ++ b)) || contains sub (a ++ sub ++ b)).
    rewrite IH. apply orb_true_r.
Qed.

(** ** Round trips of the hand-written codecs *)

Lemma str_of_int_free (sep : ascii) (n : Z) :
  is_digit sep = false -> 0 <= n -> free_of_char sep (str_of_int n) = true.
Proof.
  intros Hsep Hn. apply free_of_digits; [exact Hsep|].
  destruct (str_of_int_nonneg n Hn) as [Hnum _]. unfold isnumeric in Hnum.
  apply andb_true_iff in Hnum. apply Hnum.
Qed.

Lemma token_ok_free_dot (tok : token) :
  token_ok tok = true -> free_of_char "." (token_str tok) = true.
Proof.
  destruct tok as [n|s]; simpl.
  - intros H. apply str_of_int_free; [reflexivity|]. apply Z.leb_le, H.
  - intros H. apply andb_true_iff in H as [H _]. apply andb_true_iff in H as [_ H]. exact H.
Qed.

Lemma token_ok_free_dash (tok : token) :
  token_ok tok = true -> free_of_char "-" (token_str tok) = true.
Proof.
  destruct tok as [n|s]; simpl.
  - intros H. apply str_of_int_free; [reflexivity|]. apply Z.leb_le, H.
  - intros H. apply andb_true_iff in H as [_ H]. exact H.
Qed.

Lemma maybeint_token_str (tok : token) :
  token_ok tok = true -> Ver.maybeint (token_str tok) = tok.
Proof.
  destruct tok as [n|s]; simpl.
  - intros H. apply maybeint_str_of_int, Z.leb_le, H.
  - intros H. apply andb_true_iff in H as [H _]. apply andb_true_iff in H as [H _].
    unfold Ver.maybeint. destruct (isnumeric s); [discriminate|reflexivity].
Qed.

(** A [Ver] with at least one token, whose tokens are naturals or plain
    words, is read back from its serialized text. *)
Lemma roundtrip_Ver (v : Ver.t) :
  Ver_ok v = true -> deserialize Ver_codec (serialize Ver_codec v) = Ok v.
Proof.
  destruct v as [toks ty]. unfold Ver_ok. cbn [Ver.version].
  intros Hok.
  assert (Hne : toks <> []) by (destruct toks; [discriminate|discriminate]).
  assert (Hall : forallb token_ok toks = true) by (destruct toks; [discriminate|exact Hok]).
  clear Hok. rewrite forallb_forall in Hall.
  set (joined := join "." (map token_str toks)).
  assert (Hdash : free_of_char "-" joined = true).
  { apply free_join; [discriminate|]. apply Forall_forall. intros p Hp.
    apply in_map_iff in Hp as (tok & <- & Htok). apply token_ok_free_dash, Hall, Htok. }
  assert (Hsplit : split "." joined = map token_str toks).
  { apply split_join; [destruct toks; [contradiction|discriminate]|].
    apply Forall_forall. intros p Hp.
    apply in_map_iff in Hp as (tok & <- & Htok). apply token_ok_free_dot, Hall, Htok. }
  assert (Hback : map Ver.maybeint (map token_str toks) = toks).
  { rewrite map_map. rewrite <- (map_id toks) at 2. apply map_ext_in.
    intros tok Htok. apply maybeint_token_str, Hall, Htok. }
  unfold deserialize, serialize, Ver_codec, on_str. cbn [_get_serializer _get_parser].
  unfold Ver.serialize, Ver.deserialize. cbn [Ver.version Ver.type]. fold joined.
  destruct ty;
    (match goal with
     | |- context [partition "-" (joined ++ String "-" ?rest)] =>
         rewrite (partition_app "-" joined rest Hdash)
     end; rewrite Hsplit, Hback; reflexivity).
Qed.

Lemma str_app_assoc (a b c : string) : ((a ++ b) ++ c)%string = (a ++ b ++ c)%string.
Proof.
  induction a as [|x a IH]; [reflexivity|].
  change (String x ((a ++ b) ++ c) = String x (a ++ b ++ c)). f_equal. exact IH.
Qed.

Lemma McVer_str_parts (a b : Z) (more : list Z) :
  0 <= a -> 0 <= b -> Forall (fun n => 0 <= n) more ->
  let text := join "." (map str_of_int (a :: b :: more)) in
  free_of_char "-" text = true
  /\ contains "." text = true
  /\ map_result py_int (split "." text) = Ok (a :: b :: more).
Proof.
  intros Ha Hb Hmore text.
  assert (Hall : Forall (fun n => 0 <= n) (a :: b :: more)) by (repeat constructor; assumption).
  split; [|split].
  - apply free_join; [discriminate|]. apply Forall_forall. intros p Hp.
    apply in_map_iff in Hp as (n & <- & Hn). apply str_of_int_free; [reflexivity|].
    rewrite Forall_forall in Hall. apply Hall, Hn.
  - subst text.
    change (join "." (map str_of_int (a :: b :: more)))
      with (str_of_int a ++ "." ++ join "." (map str_of_int (b :: more))).
    apply contains_app.
  - subst text. rewrite split_join.
    + apply map_result_roundtrip. intros n Hn. apply py_int_str_of_int.
      rewrite Forall_forall in Hall. apply Hall, Hn.
    + discriminate.
    + apply Forall_forall. intros p Hp.
      apply in_map_iff in Hp as (n & <- & Hn). apply str_of_int_free; [reflexivity|].
      rewrite Forall_forall in Hall. apply Hall, Hn.
Qed.

(** A game version with natural numbers, or the snapshot the table knows
    under its label, is read back from its serialized text. *)
Lemma roundtrip_McVer (v : McVer.t) :
  McVer_ok v = true -> deserialize McVer_codec (serialize McVer_codec v) = Ok v.
Proof.
  destruct v as [a b c suffix snapshot]. unfold McVer_ok. cbn [McVer.snapshot].
  unfold deserialize, serialize, McVer_codec, on_str. cbn [_get_serializer _get_parser].
  unfold McVer.serialize. cbn [McVer.snapshot].
  destruct (String.eqb_spec snapshot "") as [->|Hsnap].
  2:{ intros H. apply bool_decide_eq_true in H. exact H. }
  cbn [McVer.major McVer.minor McVer.patch].
  intros H. apply andb_true_iff in H as [H Hc]. apply andb_true_iff in H as [Ha Hb].
  apply Z.leb_le in Ha, Hb, Hc.
  unfold McVer.__str__. cbn [McVer.major McVer.minor McVer.patch McVer.suffix McVer.snapshot].
  destruct (Z.eqb_spec c 0) as [->|Hc0].
  - destruct (McVer_str_parts a b [] Ha Hb ltac:(constructor)) as (Hfree & Hdot & Hparts).
    cbn [map join] in Hfree, Hdot, Hparts.
    unfold McVer.deserialize.
    destruct (String.eqb_spec suffix "") as [->|Hsuf]; cbn [String.eqb].
    + rewrite (partition_free "-" _ Hfree), Hdot, Hparts. reflexivity.
    + change ((str_of_int a ++ "." ++ str_of_int b) ++ "-" ++ suffix)
        with ((str_of_int a ++ "." ++ str_of_int b) ++ String "-" suffix).
      rewrite (partition_app "-" _ suffix Hfree), Hdot, Hparts. reflexivity.
  - destruct (McVer_str_parts a b [c] Ha Hb ltac:(repeat constructor; assumption))
      as (Hfree & Hdot & Hparts).
    cbn [map join] in Hfree, Hdot, Hparts.
    assert (Htext : (str_of_int a ++ "." ++ str_of_int b) ++ "." ++ str_of_int c
                    = str_of_int a ++ "." ++ str_of_int b ++ "." ++ str_of_int c).
    { rewrite !str_app_assoc. reflexivity. }
    rewrite Htext. unfold McVer.deserialize.
    destruct (String.eqb_spec suffix "") as [->|Hsuf]; cbn [String.eqb].
    + rewrite (partition_free "-" _ Hfree), Hdot, Hparts. reflexivity.
    + change ((str_of_int a ++ "." ++ str_of_int b ++ "." ++ str_of_int c) ++ "-" ++ suffix)
        with ((str_of_int a ++ "." ++ str_of_int b ++ "." ++ str_of_int c) ++ String "-" suffix).
      rewrite (partition_app "-" _ suffix Hfree), Hdot, Hparts. reflexivity.
Qed.

(** ** Zero-filled numbers and ISO timestamps *)

Lemma string_of_uint_length (d : Decimal.uint) :
  String.length (NilEmpty.string_of_uint d) = Decimal.nb_digits d.
Proof.
  induction d as [|d IH|d IH|d IH|d IH|d IH|d IH|d IH|d IH|d IH|d IH];
    [reflexivity|..]; cbn [NilEmpty.string_of_uint String.length Decimal.nb_digits];
    rewrite IH; reflexivity.
Qed.

Lemma of_uint_acc_lower (d : Decimal.uint) (acc : positive) :
  Zpos acc * 10 ^ Z.of_nat (Decimal.nb_digits d) <= Zpos (Pos.of_uint_acc d acc).
Proof.
  revert acc. induction d as [|d IH|d IH|d IH|d IH|d IH|d IH|d IH|d IH|d IH|d IH];
    intros acc; [simpl; lia|..];
    cbn [Pos.of_uint_acc Decimal.nb_digits];
    rewrite Nat2Z.inj_succ, Z.pow_succ_r by lia;
    (etransitivity; [|apply IH]);
    assert (0 <= 10 ^ Z.of_nat (Decimal.nb_digits d)) by (apply Z.pow_nonneg; lia); nia.
Qed.

(** a number without leading zero is at least the power of ten of its length *)
Lemma of_uint_lower (d : Decimal.uint) :
  d <> Decimal.Nil -> (forall d', d <> Decimal.D0 d') ->
  10 ^ (Z.of_nat (Decimal.nb_digits d) - 1) <= Z.of_N (Pos.of_uint d).
Proof.
  intros Hnil Hz.
  destruct d as [|d|d|d|d|d|d|d|d|d|d]; [contradiction|exfalso; apply (Hz d); reflexivity|..];
    cbn [Pos.of_uint Decimal.nb_digits Z.of_N];
    rewrite Nat2Z.inj_succ;
    replace (Z.succ (Z.of_nat (Decimal.nb_digits d)) - 1) with (Z.of_nat (Decimal.nb_digits d))
      by lia;
    (etransitivity; [|apply of_uint_acc_lower]);
    assert (0 <= 10 ^ Z.of_nat (Decimal.nb_digits d)) by (apply Z.pow_nonneg; lia); lia.
Qed.

Lemma to_uint_no_leading_zero (p : positive) (d' : Decimal.uint) :
  Pos.to_uint p <> Decimal.D0 d'.
Proof.
  intros Heq.
  pose proof (DecimalPos.Unsigned.to_of (Pos.to_uint p)) as H.
  rewrite DecimalPos.Unsigned.of_to in H. cbn [N.to_uint] in H.
  rewrite Heq in H. unfold Decimal.unorm in H. cbn [Decimal.nzhead] in H.
  pose proof (DecimalFacts.nzhead_nonzero d') as Hnz.
  destruct (Decimal.nzhead d') as [|u|u|u|u|u|u|u|u|u|u] eqn:E; try discriminate H.
  - injection H as ->. apply (DecimalPos.Unsigned.to_uint_nonzero p). exact Heq.
  - apply (Hnz u). reflexivity.
Qed.

Lemma str_of_int_length (w : nat) (n : Z) :
  0 <= n < 10 ^ Z.of_nat w -> (1 <= w)%nat -> (String.length (str_of_int n) <= w)%nat.
Proof.
  intros [Hn Hlt] Hw. unfold str_of_int. destruct n as [|p|p]; [simpl; lia| |lia].
  cbn [Z.to_int NilZero.string_of_int].
  destruct (string_of_uint_not_nil _ (to_uint_not_nil p)) as [-> _].
  rewrite string_of_uint_length.
  pose proof (of_uint_lower (Pos.to_uint p) (to_uint_not_nil p)
                (fun d' => to_uint_no_leading_zero p d')) as Hlow.
  rewrite DecimalPos.Unsigned.of_to in Hlow. cbn [Z.of_N] in Hlow.
  destruct (le_lt_dec (Decimal.nb_digits (Pos.to_uint p)) w) as [Hle|Hgt]; [exact Hle|].
  exfalso.
  assert (10 ^ Z.of_nat w <= 10 ^ (Z.of_nat (Decimal.nb_digits (Pos.to_uint p)) - 1))
    by (apply Z.pow_le_mono_r; lia).
  lia.
Qed.

Lemma all_digits_zeros (k : nat) (s : string) :
  all_chars is_digit (string_of_list_ascii (repeat "0"%char k) ++ s) = all_chars is_digit s.
Proof. induction k as [|k IH]; [reflexivity|]. exact IH. Qed.

Lemma digits_val_zeros (k : nat) (s : string) :
  digits_val 0 (string_of_list_ascii (repeat "0"%char k) ++ s) = digits_val 0 s.
Proof. induction k as [|k IH]; [reflexivity|]. exact IH. Qed.

Lemma length_zeros (k : nat) (s : string) :
  String.length (string_of_list_ascii (repeat "0"%char k) ++ s) = (k + String.length s)%nat.
Proof.
  induction k as [|k IH]; [reflexivity|].
  change (S (String.length (string_of_list_ascii (repeat "0"%char k) ++ s))
          = S (k + String.length s)). f_equal. exact IH.
Qed.

(** [zfill w n] for a natural below [10^w]: exactly [w] digits that read [n] *)
Lemma zfill_spec (w : nat) (n : Z) :
  (1 <= w)%nat -> 0 <= n < 10 ^ Z.of_nat w ->
  String.length (datetime.zfill w n) = w
  /\ all_chars is_digit (datetime.zfill w n) = true
  /\ digits_val 0 (datetime.zfill w n) = n.
Proof.
  intros Hw Hn. unfold datetime.zfill.
  pose proof (str_of_int_length w n Hn Hw) as Hlen.
  destruct (str_of_int_nonneg n (proj1 Hn)) as [Hnum Hval].
  unfold isnumeric in Hnum. apply andb_true_iff in Hnum as [_ Hdig].
  rewrite length_zeros, all_digits_zeros, digits_val_zeros.
  split; [lia|]. split; assumption.
Qed.

Lemma two_chars (s : string) :
  String.length s = 2%nat -> exists a b, s = String a (String b "").
Proof. destruct s as [|a [|b [|c s]]]; try discriminate. intros _. exists a, b. reflexivity. Qed.

Lemma four_chars (s : string) :
  String.length s = 4%nat -> exists a b c d, s = String a (String b (String c (String d ""))).
Proof.
  destruct s as [|a [|b [|c [|d [|e s]]]]]; try discriminate.
  intros _. exists a, b, c, d. reflexivity.
Qed.

Lemma six_chars (s : string) :
  String.length s = 6%nat ->
  exists a b c d e f,
    s = String a (String b (String c (String d (String e (String f ""))))).
Proof.
  destruct s as [|a [|b [|c [|d [|e [|f [|g s]]]]]]]; try discriminate.
  intros _. exists a, b, c, d, e, f. reflexivity.
Qed.

(** A timestamp of the calendar is read back from its ISO text. *)
Lemma roundtrip_datetime (d : datetime.t) :
  datetime.valid d = true -> datetime.isoparse (datetime.isoformat d) = Ok d.
Proof.
  intros Hvalid. pose proof Hvalid as Hv.
  destruct d as [Y Mo D H Mi S U]. unfold datetime.valid in Hv.
  cbn [datetime.year datetime.month datetime.day datetime.hour datetime.minute
       datetime.second datetime.microsecond] in Hv.
  repeat (apply andb_true_iff in Hv as [Hv ?]).
  repeat match goal with
         | H : (_ <=? _) = true |- _ => apply Z.leb_le in H
         | H : (_ <? _) = true |- _ => apply Z.ltb_lt in H
         end.
  assert (HD : D <= 31).
  { pose proof (Z.le_refl D). unfold datetime.days_in_month in *.
    repeat match goal with H : context [if ?b then _ else _] |- _ => destruct b end; lia. }
  destruct (zfill_spec 4 Y ltac:(lia) ltac:(simpl; lia)) as (LY & DY & VY).
  destruct (zfill_spec 2 Mo ltac:(lia) ltac:(simpl; lia)) as (LMo & DMo & VMo).
  destruct (zfill_spec 2 D ltac:(lia) ltac:(simpl; lia)) as (LD & DD & VD).
  destruct (zfill_spec 2 H ltac:(lia) ltac:(simpl; lia)) as (LH & DH & VH).
  destruct (zfill_spec 2 Mi ltac:(lia) ltac:(simpl; lia)) as (LMi & DMi & VMi).
  destruct (zfill_spec 2 S ltac:(lia) ltac:(simpl; lia)) as (LS & DS & VS).
  destruct (zfill_spec 6 U ltac:(lia) ltac:(simpl; lia)) as (LU & DU & VU).
  unfold datetime.isoformat.
  cbn [datetime.year datetime.month datetime.day datetime.hour datetime.minute
       datetime.second datetime.microsecond].
  destruct (four_chars _ LY) as (y1 & y2 & y3 & y4 & EY).
  destruct (two_chars _ LMo) as (o1 & o2 & EMo).
  destruct (two_chars _ LD) as (d1 & d2 & ED).
  destruct (two_chars _ LH) as (h1 & h2 & EH).
  destruct (two_chars _ LMi) as (m1 & m2 & EMi).
  destruct (two_chars _ LS) as (s1 & s2 & ES).
  destruct (six_chars _ LU) as (u1 & u2 & u3 & u4 & u5 & u6 & EU).
  rewrite EY, EMo, ED, EH, EMi, ES, EU in *.
  unfold datetime.isoparse, datetime.field, datetime.sep_at.
  destruct (U =? 0) eqn:EU0.
  - apply Z.eqb_eq in EU0. clear LU DU VU. rewrite EU0 in *.
    cbv [String.append substring String.length Nat.eqb String.eqb Ascii.eqb Bool.eqb andb].
    rewrite DY, DMo, DD, DH, DMi, DS, VY, VMo, VD, VH, VMi, VS.
    cbn [mbind result_bind]. rewrite Hvalid. reflexivity.
  - cbv [String.append substring String.length Nat.eqb String.eqb Ascii.eqb Bool.eqb andb].
    rewrite DY, DMo, DD, DH, DMi, DS, DU, VY, VMo, VD, VH, VMi, VS, VU.
    cbn [mbind result_bind]. rewrite Hvalid. reflexivity.
Qed.

(** ** Round trips through the type-directed codec *)

(** [rt c x]: the codec [c] reads [x] back from what it writes for it *)
Local Abbreviation rt c x := (_get_parser c (_get_serializer c x) = Ok x).

Lemma kept_get_nil (k : string) : dict_get k (kept []) = None.
Proof. reflexivity. Qed.

Lemma kept_get_ne (k k' : string) (v : option json) (fs : list (string * option json)) :
  String.eqb k' k = false -> dict_get k (kept ((k', v) :: fs)) = dict_get k (kept fs).
Proof. intros H. destruct v as [v|]; [|reflexivity]. simpl. rewrite H. reflexivity. Qed.

Lemma kept_get_eq (k : string) (v : option json) (fs : list (string * option json)) :
  dict_get k (kept fs) = None -> dict_get k (kept ((k, v) :: fs)) = v.
Proof.
  intros H. destruct v as [v|]; [|exact H]. simpl. rewrite String.eqb_refl. reflexivity.
Qed.

(** look a field up in the serialized form of a record *)
Ltac get_fields :=
  repeat first
    [ rewrite kept_get_ne by reflexivity
    | rewrite kept_get_eq by (repeat rewrite kept_get_ne by reflexivity; apply kept_get_nil) ].

Lemma field_rt {T} (c : codec T) (x : T) :
  rt c x -> get_parser c (get_serializer c x) = Ok x.
Proof. intros H. exact H. Qed.

Lemma opt_field_rt {T} (c : codec T) (o : option T) :
  (forall x, o = Some x -> _get_serializer c x <> JNull /\ rt c x) ->
  get_parser_opt c (get_serializer_opt c o) = Ok o.
Proof.
  destruct o as [x|]; [|reflexivity]. intros H.
  destruct (H x eq_refl) as [Hnull Hrt]. simpl.
  destruct (_get_serializer c x) eqn:E; try contradiction; rewrite Hrt; reflexivity.
Qed.

Lemma list_codec_rt {T} (c : codec T) (l : list T) :
  (forall x, In x l -> rt c x) -> rt (list_codec c) l.
Proof. intros H. simpl. apply map_result_roundtrip, H. Qed.

Lemma remove_dups_NoDup {T} `{EqDecision T} (l : list T) : NoDup l -> remove_dups l = l.
Proof.
  induction 1 as [|x l Hx Hl IH]; [reflexivity|]. simpl.
  destruct (decide_rel elem_of x l) as [Hin|_]; [contradiction|]. rewrite IH. reflexivity.
Qed.

Lemma frozenset_codec_rt {T} `{EqDecision T} (c : codec T) (l : list T) :
  NoDup l -> (forall x, In x l -> rt c x) -> rt (frozenset_codec c) l.
Proof.
  intros Hnd H. simpl. rewrite (map_result_roundtrip _ _ l H). simpl.
  rewrite (remove_dups_NoDup l Hnd). reflexivity.
Qed.

Lemma dict_codec_rt {V} (c : codec V) (m : list (string * V)) :
  (forall p, In p m -> rt c (snd p)) -> rt (dict_codec c) m.
Proof.
  intros H. simpl. rewrite map_result_roundtrip; [reflexivity|].
  intros [k v] Hp. pose proof (H (k, v) Hp) as Hr. simpl in *. rewrite Hr. reflexivity.
Qed.

Lemma rt_str (s : string) : rt str_codec s.
Proof. reflexivity. Qed.

Lemma rt_opt_str (o : option string) : get_parser_opt str_codec (get_serializer_opt str_codec o) = Ok o.
Proof. apply opt_field_rt. intros x _. split; [discriminate|reflexivity]. Qed.

Lemma rt_opt_datetime (o : option datetime.t) :
  option_ok datetime.valid o = true ->
  get_parser_opt datetime_codec (get_serializer_opt datetime_codec o) = Ok o.
Proof.
  intros H. apply opt_field_rt. intros x ->. split; [discriminate|].
  apply roundtrip_datetime, H.
Qed.

Lemma rt_opt_License (o : option License.t) :
  get_parser_opt License_codec (get_serializer_opt License_codec o) = Ok o.
Proof.
  apply opt_field_rt. intros x _. split; [|apply roundtrip_License].
  simpl. unfold License.serialize. destruct (License.std_key _ _); discriminate.
Qed.

Lemma rt_opt_SideSupport (o : option SideSupport.t) :
  get_parser_opt SideSupport_codec (get_serializer_opt SideSupport_codec o) = Ok o.
Proof.
  apply opt_field_rt. intros x _. split; [discriminate|apply enum_roundtrip_SideSupport].
Qed.

Lemma rt_loaders (l : list Loader.t) : NoDup l -> rt (frozenset_codec Loader_codec) l.
Proof. intros H. apply frozenset_codec_rt; [exact H|]. intros x _. apply enum_roundtrip_Loader. Qed.

Lemma rt_mcversions (l : list McVer.t) :
  NoDup l -> forallb McVer_ok l = true -> rt (frozenset_codec McVer_codec) l.
Proof.
  intros H Hok. apply frozenset_codec_rt; [exact H|]. intros x Hx.
  apply roundtrip_McVer. rewrite forallb_forall in Hok. apply Hok, Hx.
Qed.

Local Opaque str_codec datetime_codec VerType_codec Type_codec License_codec
  SideSupport_codec frozenset_codec list_codec dict_codec Loader_codec McVer_codec
  ModVerInfo_codec get_parser_opt get_serializer_opt.

(** A version whose timestamp is in the calendar, whose sets list each
    element once and whose game versions are in the range of the parser. *)
Lemma roundtrip_ModVer (v : ModVer.t) :
  ModVer_ok v = true -> deserialize ModVer_codec (serialize ModVer_codec v) = Ok v.
Proof.
  destruct v as [id vs vt title loaders published mcversions]. unfold ModVer_ok.
  cbn [ModVer.published ModVer.loaders ModVer.mcversions].
  intros H. apply andb_true_iff in H as [H Hmc]. apply andb_true_iff in H as [H Hnd2].
  apply andb_true_iff in H as [Hdt Hnd1].
  apply bool_decide_eq_true in Hnd1, Hnd2.
  unfold deserialize, serialize.
  cbn [ModVer_codec _get_serializer _get_parser ModVer.id ModVer.version_string
       ModVer.version_type ModVer.title ModVer.loaders ModVer.published ModVer.mcversions].
  unfold pss, ser. get_fields.
  rewrite !(field_rt str_codec) by apply rt_str.
  rewrite (field_rt VerType_codec) by apply enum_roundtrip_VerType.
  rewrite rt_opt_str.
  rewrite (field_rt (frozenset_codec Loader_codec)) by (apply rt_loaders, Hnd1).
  rewrite (field_rt datetime_codec) by (apply roundtrip_datetime, Hdt).
  rewrite (field_rt (frozenset_codec McVer_codec)) by (apply rt_mcversions; assumption).
  reflexivity.
Qed.

(** A descriptor whose timestamps, where present, are in the calendar. *)
Lemma roundtrip_ModDesc (d : ModDesc.t) :
  ModDesc_ok d = true -> deserialize ModDesc_codec (serialize ModDesc_codec d) = Ok d.
Proof.
  destruct d. unfold ModDesc_ok. cbn [ModDesc.updated ModDesc.created].
  intros H. apply andb_true_iff in H as [Hu Hc].
  unfold deserialize, serialize.
  cbn [ModDesc_codec _get_serializer _get_parser ModDesc.id ModDesc.type ModDesc.name
       ModDesc.title ModDesc.updated ModDesc.created ModDesc.license ModDesc.short_desc
       ModDesc.desc ModDesc.client_side ModDesc.server_side ModDesc.issues_url
       ModDesc.source_url ModDesc.wiki_url ModDesc.discord_url].
  unfold pss, ser. get_fields.
  rewrite !(field_rt str_codec) by apply rt_str.
  rewrite (field_rt Type_codec) by apply enum_roundtrip_Type.
  rewrite !rt_opt_str, !rt_opt_datetime by assumption.
  rewrite rt_opt_License, !rt_opt_SideSupport.
  reflexivity.
Qed.

Local Opaque ModVer_codec ModDesc_codec.

(** A cached record whose parts are as above and whose versions are in the
    order in which the constructor leaves them. *)
Lemma roundtrip_ModInfo (i : ModInfo.t) :
  ModInfo_ok i = true -> deserialize ModInfo_codec (serialize ModInfo_codec i) = Ok i.
Proof.
  destruct i as [checked desc versions version_info]. unfold ModInfo_ok.
  cbn [ModInfo.checked ModInfo.mod_desc ModInfo.versions].
  intros H. apply andb_true_iff in H as [H Hsorted]. apply andb_true_iff in H as [H Hvs].
  apply andb_true_iff in H as [Hdt Hdesc]. apply bool_decide_eq_true in Hsorted.
  rewrite forallb_forall in Hvs.
  unfold deserialize, serialize.
  cbn [ModInfo_codec _get_serializer _get_parser ModInfo.checked ModInfo.mod_desc
       ModInfo.versions ModInfo.version_info].
  unfold pss, ser. get_fields.
  rewrite (field_rt datetime_codec) by (apply roundtrip_datetime, Hdt).
  rewrite (field_rt ModDesc_codec) by (apply roundtrip_ModDesc, Hdesc).
  rewrite (field_rt (list_codec ModVer_codec))
    by (apply list_codec_rt; intros x Hx; apply roundtrip_ModVer, Hvs, Hx).
  rewrite (field_rt (dict_codec ModVerInfo_codec))
    by (apply dict_codec_rt; intros p _; apply roundtrip_ModVerInfo).
  cbn [mbind result_bind mret result_ret]. unfold ModInfo.ModInfo. rewrite Hsorted. reflexivity.
Qed.

(** Whatever the order of its versions, a cached record with parts as above
    is read back as the record that the constructor builds from its fields. *)
Lemma roundtrip_ModInfo_rebuilt (i : ModInfo.t) :
  ModInfo_parts_ok i = true ->
  deserialize ModInfo_codec (serialize ModInfo_codec i)
  = Ok (ModInfo.ModInfo (ModInfo.checked i) (ModInfo.mod_desc i) (ModInfo.versions i)
                        (ModInfo.version_info i)).
Proof.
  destruct i as [checked desc versions version_info]. unfold ModInfo_parts_ok.
  cbn [ModInfo.checked ModInfo.mod_desc ModInfo.versions ModInfo.version_info].
  intros H. apply andb_true_iff in H as [H Hvs]. apply andb_true_iff in H as [Hdt Hdesc].
  rewrite forallb_forall in Hvs.
  unfold deserialize, serialize.
  cbn [ModInfo_codec _get_serializer _get_parser ModInfo.checked ModInfo.mod_desc
       ModInfo.versions ModInfo.version_info].
  unfold pss, ser. get_fields.
  rewrite (field_rt datetime_codec) by (apply roundtrip_datetime, Hdt).
  rewrite (field_rt ModDesc_codec) by (apply roundtrip_ModDesc, Hdesc).
  rewrite (field_rt (list_codec ModVer_codec))
    by (apply list_codec_rt; intros x Hx; apply roundtrip_ModVer, Hvs, Hx).
  rewrite (field_rt (dict_codec ModVerInfo_codec))
    by (apply dict_codec_rt; intros p _; apply roundtrip_ModVerInfo).
  reflexivity.
Qed.

Local Transparent str_codec datetime_codec VerType_codec Type_codec License_codec
  SideSupport_codec frozenset_codec list_codec dict_codec Loader_codec McVer_codec
  ModVerInfo_codec get_parser_opt get_serializer_opt ModVer_codec ModDesc_codec.

Lemma McVer_str_head (v : McVer.t) :
  0 <= McVer.major v ->
  exists c rest, McVer.__str__ v = String c rest /\ is_digit c = true.
Proof.
  intros Hmajor. destruct (str_of_int_nonneg _ Hmajor) as [Hnum _].
  destruct (isnumeric_head _ Hnum) as (c & s' & Hs & Hc).
  assert (Htail : exists tail, McVer.__str__ v = (str_of_int (McVer.major v) ++ tail)%string).
  { unfold McVer.__str__.
    destruct (McVer.patch v =? 0), (String.eqb (McVer.suffix v) ""),
      (String.eqb (McVer.snapshot v) "");
      rewrite ?str_app_assoc; eexists; reflexivity. }
  destruct Htail as [tail ->]. rewrite Hs. exists c, (s' ++ tail)%string.
  split; [reflexivity|exact Hc].
Qed.

(** A game-version match over a release or pre-release ([*], exact or [^])
    is read back from its serialized text. *)
Lemma roundtrip_McVerMatch (m : McVerMatch.t) :
  McVerMatch_ok m = true ->
  deserialize McVerMatch_codec (serialize McVerMatch_codec m) = Ok m.
Proof.
  destruct m as [[v|] op]; unfold McVerMatch_ok; cbn [McVerMatch.ver McVerMatch.operator].
  2:{ intros H. apply String.eqb_eq in H. subst op. reflexivity. }
  intros H. apply andb_true_iff in H as [H Hok]. apply andb_true_iff in H as [Hop Hsnap].
  pose proof (roundtrip_McVer v Hok) as Hrt.
  unfold deserialize, serialize, McVer_codec, on_str in Hrt.
  cbn [_get_serializer _get_parser] in Hrt.
  assert (Hmajor : 0 <= McVer.major v).
  { unfold McVer_ok in Hok. rewrite Hsnap in Hok.
    apply andb_true_iff in Hok as [Hok _]. apply andb_true_iff in Hok as [Hok _].
    apply Z.leb_le, Hok. }
  destruct (McVer_str_head v Hmajor) as (c & rest & Hstr & Hc).
  assert (Hser : McVer.serialize v = String c rest).
  { unfold McVer.serialize. rewrite Hsnap. exact Hstr. }
  unfold deserialize, serialize, McVerMatch_codec. cbn [_get_serializer _get_parser].
  unfold McVerMatch.serialize, McVerMatch.__str__, McVerMatch.deserialize.
  cbn [McVerMatch.ver McVerMatch.operator].
  apply orb_true_iff in Hop as [Hop|Hop]; apply String.eqb_eq in Hop; subst op.
  - change ("" ++ McVer.serialize v)%string with (McVer.serialize v).
    rewrite Hser in *. rewrite Hrt.
    destruct c as [[] [] [] [] [] [] [] []]; try discriminate Hc; reflexivity.
  - change ("^" ++ McVer.serialize v)%string with (String "^" (McVer.serialize v)).
    cbn [String.eqb Ascii.eqb Bool.eqb]. rewrite Hrt. reflexivity.
Qed.

(** On at most one element, and on two elements, [sorted] is fixed by the
    comparisons that every run of [list.sort] makes. *)
Lemma sorted_short {A} (lt : A -> A -> bool) (reverse : bool) (l : list A) :
  (length l <= 1)%nat -> sorted lt reverse l = l.
Proof.
  destruct l as [|x [|y l]]; cbn [length]; intros H; [| |lia];
    destruct reverse; reflexivity.
Qed.

Lemma sorted_reverse_pair {A} (lt : A -> A -> bool) (a b : A) :
  sorted lt true [a; b] = if lt a b then [b; a] else [a; b].
Proof. unfold sorted, sort_asc. cbn. destruct (lt a b); reflexivity. Qed.

(** Two versions with the same numbers as tokens and another maturity are
    each lower than the other. *)
Lemma ver_lt_both_ways (a b : ModVer.t) (ns : list Z) :
  Ver.version (ModVer.version a) = map TInt ns ->
  Ver.version (ModVer.version b) = map TInt ns ->
  ModVer.version_type a <> ModVer.version_type b ->
  ModInfo.ver_lt a b = true /\ ModInfo.ver_lt b a = true.
Proof.
  intros Ha Hb Hty.
  assert (Hne : ModVer.version a <> ModVer.version b).
  { intros E. apply Hty. unfold ModVer.version in E. congruence. }
  unfold ModInfo.ver_lt, ModVer.__lt__, Ver.__eq__.
  rewrite !bool_decide_eq_false_2 by congruence.
  unfold Ver.__lt__. rewrite Ha, Hb, lt_loop_ints_refl.
  split; apply repr_truthy.
Qed.

(** C8.  Deserializing the serialized form ([deserialize(T, serialize(v))])
    gives the value back for every serialized type but one, and [ModInfo]
    does not always come back:
    - the value comes back for every value of the enums ([VerType], [Type],
      [Loader], [HashType], [SideSupport], [LicenseType]) and of [License],
      [Hash], [Dep], [ModFile] and [ModVerInfo], whichever optional field is
      absent and also with no dependencies; for every timestamp of the
      calendar, every [Ver], [McVer] and [McVerMatch] in the range of its
      parser, and every [ModVer] and [ModDesc] built from such parts;
    - a [ModInfo] built from such parts, with its versions in any order, is
      read back as what the constructor builds again from its four fields:
      the same time of the check, descriptor and version details, and the
      same versions up to their order; with at most one version it is read
      back as it was;
    - a [ModInfo] constructed from two versions whose tokens are the same
      numbers and whose maturity differs (["1.0.0"] as a release and
      ["1.0.0-beta"] as a beta) is not read back: each version is lower than
      the other, the constructor leaves them swapped, and reading the
      serialized record swaps them once more;
    - the representative instances of [Examples] are read back as they
      were, among them a version with no title, no loaders and no game
      versions, a descriptor with every optional field absent, and a cached
      record with no versions and no version details. *)
Theorem C8_roundtrip_except_version_order :
  (forall x, deserialize VerType_codec (serialize VerType_codec x) = Ok x)
  /\ (forall x, deserialize Type_codec (serialize Type_codec x) = Ok x)
  /\ (forall x, deserialize Loader_codec (serialize Loader_codec x) = Ok x)
  /\ (forall x, deserialize HashType_codec (serialize HashType_codec x) = Ok x)
  /\ (forall x, deserialize SideSupport_codec (serialize SideSupport_codec x) = Ok x)
  /\ (forall x, deserialize LicenseType_codec (serialize LicenseType_codec x) = Ok x)
  /\ (forall v, deserialize License_codec (serialize License_codec v) = Ok v)
  /\ (forall v, deserialize Hash_codec (serialize Hash_codec v) = Ok v)
  /\ (forall v, deserialize Dep_codec (serialize Dep_codec v) = Ok v)
  /\ (forall v, deserialize ModFile_codec (serialize ModFile_codec v) = Ok v)
  /\ (forall v, deserialize ModVerInfo_codec (serialize ModVerInfo_codec v) = Ok v)
  /\ (forall v, datetime.valid v = true ->
                deserialize datetime_codec (serialize datetime_codec v) = Ok v)
  /\ (forall v, Ver_ok v = true -> deserialize Ver_codec (serialize Ver_codec v) = Ok v)
  /\ (forall v, McVer_ok v = true -> deserialize McVer_codec (serialize McVer_codec v) = Ok v)
  /\ (forall v, McVerMatch_ok v = true ->
                deserialize McVerMatch_codec (serialize McVerMatch_codec v) = Ok v)
  /\ (forall v, ModVer_ok v = true -> deserialize ModVer_codec (serialize ModVer_codec v) = Ok v)
  /\ (forall v, ModDesc_ok v = true ->
                deserialize ModDesc_codec (serialize ModDesc_codec v) = Ok v)
  /\ (forall i, ModInfo_parts_ok i = true ->
                deserialize ModInfo_codec (serialize ModInfo_codec i)
                = Ok (ModInfo.ModInfo (ModInfo.checked i) (ModInfo.mod_desc i)
                                      (ModInfo.versions i) (ModInfo.version_info i)))
  /\ (forall i, ModInfo_parts_ok i = true ->
                exists i', deserialize ModInfo_codec (serialize ModInfo_codec i) = Ok i'
                           /\ ModInfo.checked i' = ModInfo.checked i
                           /\ ModInfo.mod_desc i' = ModInfo.mod_desc i
                           /\ ModInfo.version_info i' = ModInfo.version_info i
                           /\ Permutation (ModInfo.versions i') (ModInfo.versions i))
  /\ (forall i, ModInfo_parts_ok i = true -> (length (ModInfo.versions i) <= 1)%nat ->
                deserialize ModInfo_codec (serialize ModInfo_codec i) = Ok i)
  /\ (forall checked desc a b version_info ns,
         datetime.valid checked = true -> ModDesc_ok desc = true ->
         ModVer_ok a = true -> ModVer_ok b = true ->
         Ver.version (ModVer.version a) = map TInt ns ->
         Ver.version (ModVer.version b) = map TInt ns ->
         ModVer.version_type a <> ModVer.version_type b ->
         ModInfo.versions (ModInfo.ModInfo checked desc [a; b] version_info) = [b; a]
         /\ exists i',
              deserialize ModInfo_codec
                (serialize ModInfo_codec (ModInfo.ModInfo checked desc [a; b] version_info))
              = Ok i'
              /\ ModInfo.versions i' = [a; b]
              /\ i' <> ModInfo.ModInfo checked desc [a; b] version_info)
  /\ Forall (fun v => deserialize datetime_codec (serialize datetime_codec v) = Ok v)
            [Examples.jan_10; Examples.mar_10_us]
  /\ Forall (fun v => deserialize Ver_codec (serialize Ver_codec v) = Ok v)
            Examples.ver_samples
  /\ Forall (fun v => deserialize McVer_codec (serialize McVer_codec v) = Ok v)
            Examples.mcver_samples
  /\ Forall (fun v => deserialize McVerMatch_codec (serialize McVerMatch_codec v) = Ok v)
            Examples.mcvermatch_samples
  /\ Forall (fun v => deserialize ModVer_codec (serialize ModVer_codec v) = Ok v)
            [Examples.modver_bare; Examples.modver_full; Examples.v_1_0_0_for_1_19;
             Examples.v_1_0_0_beta]
  /\ Forall (fun v => deserialize ModDesc_codec (serialize ModDesc_codec v) = Ok v)
            [Examples.desc_bare; Examples.desc_full; Examples.desc_a]
  /\ Forall (fun v => deserialize ModInfo_codec (serialize ModInfo_codec v) = Ok v)
            [Examples.info_bare; Examples.info_full; Examples.info_late_backport].
Proof.
  split; [exact enum_roundtrip_VerType|].
  split; [exact enum_roundtrip_Type|].
  split; [exact enum_roundtrip_Loader|].
  split; [exact enum_roundtrip_HashType|].
  split; [exact enum_roundtrip_SideSupport|].
  split; [exact enum_roundtrip_LicenseType|].
  split; [exact roundtrip_License|].
  split; [exact roundtrip_Hash|].
  split; [exact roundtrip_Dep|].
  split; [exact roundtrip_ModFile|].
  split; [exact roundtrip_ModVerInfo|].
  split; [exact roundtrip_datetime|].
  split; [exact roundtrip_Ver|].
  split; [exact roundtrip_McVer|].
  split; [exact roundtrip_McVerMatch|].
  split; [exact roundtrip_ModVer|].
  split; [exact roundtrip_ModDesc|].
  split; [exact roundtrip_ModInfo_rebuilt|].
  split.
  { intros i Hi. eexists. split; [apply roundtrip_ModInfo_rebuilt, Hi|].
    unfold ModInfo.ModInfo. cbn [ModInfo.checked ModInfo.mod_desc ModInfo.version_info
                                 ModInfo.versions].
    repeat split. apply sorted_perm. }
  split.
  { intros i Hi Hlen. rewrite roundtrip_ModInfo_rebuilt by exact Hi.
    unfold ModInfo.ModInfo. rewrite sorted_short by exact Hlen.
    destruct i; reflexivity. }
  split.
  { intros checked desc a b version_info ns Hdt Hdesc Ha Hb Hta Htb Hty.
    destruct (ver_lt_both_ways a b ns Hta Htb Hty) as [Hab Hba].
    assert (Hswap : ModInfo.ModInfo checked desc [a; b] version_info
                    = ModInfo.Build checked desc [b; a] version_info).
    { unfold ModInfo.ModInfo. rewrite sorted_reverse_pair, Hab. reflexivity. }
    rewrite Hswap. split; [reflexivity|].
    exists (ModInfo.Build checked desc [a; b] version_info).
    split; [|split; [reflexivity|]].
    - rewrite roundtrip_ModInfo_rebuilt.
      + cbn [ModInfo.checked ModInfo.mod_desc ModInfo.version_info ModInfo.versions].
        unfold ModInfo.ModInfo. rewrite sorted_reverse_pair, Hba. reflexivity.
      + unfold ModInfo_parts_ok.
        cbn [ModInfo.checked ModInfo.mod_desc ModInfo.versions forallb].
        rewrite Hdt, Hdesc, Ha, Hb. reflexivity.
    - intros E. apply Hty. injection E as E. congruence. }
  split; [repeat constructor; apply roundtrip_datetime; reflexivity|].
  split; [repeat constructor; apply roundtrip_Ver; reflexivity|].
  split; [repeat constructor; apply roundtrip_McVer; vm_compute; reflexivity|].
  split; [repeat constructor; apply roundtrip_McVerMatch; reflexivity|].
  split; [repeat constructor; apply roundtrip_ModVer; vm_compute; reflexivity|].
  split; [repeat constructor; apply roundtrip_ModDesc; reflexivity|].
  repeat constructor; apply roundtrip_ModInfo; vm_compute; reflexivity.
Qed.

Lemma C8_roundtrip_except_version_order_witness :
  (datetime.valid Examples.mar_10 = true /\ ModDesc_ok Examples.desc_a = true
   /\ ModVer_ok Examples.v_1_0_0_for_1_19 = true /\ ModVer_ok Examples.v_1_0_0_beta = true
   /\ Ver.version (ModVer.version Examples.v_1_0_0_for_1_19) = map TInt [1; 0; 0]
   /\ Ver.version (ModVer.version Examples.v_1_0_0_beta) = map TInt [1; 0; 0]
   /\ ModVer.version_type Examples.v_1_0_0_for_1_19
      <> ModVer.version_type Examples.v_1_0_0_beta)
  /\ (ModInfo.versions Examples.info_release_and_beta
      = [Examples.v_1_0_0_beta; Examples.v_1_0_0_for_1_19]
      /\ exists i',
           deserialize ModInfo_codec (serialize ModInfo_codec Examples.info_release_and_beta)
           = Ok i'
           /\ ModInfo.versions i' = [Examples.v_1_0_0_for_1_19; Examples.v_1_0_0_beta]
           /\ i' <> Examples.info_release_and_beta)
  /\ ModInfo_parts_ok Examples.info_release_and_beta = true
  /\ (exists i',
        deserialize ModInfo_codec (serialize ModInfo_codec Examples.info_release_and_beta)
        = Ok i'
        /\ ModInfo.checked i' = ModInfo.checked Examples.info_release_and_beta
        /\ ModInfo.mod_desc i' = ModInfo.mod_desc Examples.info_release_and_beta
        /\ ModInfo.version_info i' = ModInfo.version_info Examples.info_release_and_beta
        /\ Permutation (ModInfo.versions i')
                       (ModInfo.versions Examples.info_release_and_beta))
  /\ (ModInfo_parts_ok Examples.info_bare = true
      /\ (length (ModInfo.versions Examples.info_bare) <= 1)%nat
      /\ deserialize ModInfo_codec (serialize ModInfo_codec Examples.info_bare)
         = Ok Examples.info_bare)
  /\ Ver_ok Examples.ver_1_2_3 = true
  /\ deserialize Ver_codec (serialize Ver_codec Examples.ver_1_2_3) = Ok Examples.ver_1_2_3.
Proof.
  pose proof C8_roundtrip_except_version_order as H.
  repeat match type of H with
         | (forall _, _ = Ok _) /\ _ => destruct H as [_ H]
         end.
  destruct H as (_ & HVer & _ & _ & _ & _ & _ & HPerm & HShort & HFail & _).
  assert (Hdt : datetime.valid Examples.mar_10 = true) by reflexivity.
  assert (Hdesc : ModDesc_ok Examples.desc_a = true) by reflexivity.
  assert (Ha : ModVer_ok Examples.v_1_0_0_for_1_19 = true) by (vm_compute; reflexivity).
  assert (Hb : ModVer_ok Examples.v_1_0_0_beta = true) by (vm_compute; reflexivity).
  assert (Hta : Ver.version (ModVer.version Examples.v_1_0_0_for_1_19) = map TInt [1; 0; 0])
    by (vm_compute; reflexivity).
  assert (Htb : Ver.version (ModVer.version Examples.v_1_0_0_beta) = map TInt [1; 0; 0])
    by (vm_compute; reflexivity).
  assert (Hty : ModVer.version_type Examples.v_1_0_0_for_1_19
                <> ModVer.version_type Examples.v_1_0_0_beta) by discriminate.
  assert (Hparts : ModInfo_parts_ok Examples.info_release_and_beta = true)
    by (vm_compute; reflexivity).
  assert (Hbare : ModInfo_parts_ok Examples.info_bare = true) by (vm_compute; reflexivity).
  assert (Hlen : (length (ModInfo.versions Examples.info_bare) <= 1)%nat)
    by (vm_compute; lia).
  split; [repeat split; assumption|].
  split; [exact (HFail Examples.mar_10 Examples.desc_a Examples.v_1_0_0_for_1_19
                   Examples.v_1_0_0_beta [] [1; 0; 0] Hdt Hdesc Ha Hb Hta Htb Hty)|].
  split; [exact Hparts|]. split; [exact (HPerm _ Hparts)|].
  split; [split; [exact Hbare|split; [exact Hlen|exact (HShort _ Hbare Hlen)]]|].
  assert (Hver : Ver_ok Examples.ver_1_2_3 = true) by reflexivity.
  split; [exact Hver|exact (HVer _ Hver)].
Defined.

(** The failing record, evaluated: a release ["1.0.0"] and a beta
    ["1.0.0-beta"] of one mod.  The constructor leaves the beta first; the
    record that is read back from the serialized form has the release
    first, and so is another value. *)
Lemma C8_release_and_beta_are_not_read_back :
  ModInfo_parts_ok Examples.info_release_and_beta = true
  /\ ModInfo.versions Examples.info_release_and_beta
     = [Examples.v_1_0_0_beta; Examples.v_1_0_0_for_1_19]
  /\ deserialize ModInfo_codec (serialize ModInfo_codec Examples.info_release_and_beta)
     = Ok (ModInfo.Build Examples.mar_10 Examples.desc_a
             [Examples.v_1_0_0_for_1_19; Examples.v_1_0_0_beta] [])
  /\ deserialize ModInfo_codec (serialize ModInfo_codec Examples.info_release_and_beta)
     <> Ok Examples.info_release_and_beta.
Proof.
  assert (Hrt : deserialize ModInfo_codec (serialize ModInfo_codec Examples.info_release_and_beta)
                = Ok (ModInfo.Build Examples.mar_10 Examples.desc_a
                        [Examples.v_1_0_0_for_1_19; Examples.v_1_0_0_beta] []))
    by (vm_compute; reflexivity).
  split; [vm_compute; reflexivity|]. split; [vm_compute; reflexivity|].
  split; [exact Hrt|]. rewrite Hrt. vm_compute. discriminate.
Qed.


(** * Further properties of the modelled code *)

(** ** The order of texts *)

Lemma ascii_compare_trans (c : comparison) (x y z : ascii) :
  Ascii.compare x y = c -> Ascii.compare y z = c -> Ascii.compare x z = c.
Proof.
  unfold Ascii.compare. destruct c; intros H1 H2.
  - apply N.compare_eq_iff in H1, H2. apply N.compare_eq_iff. congruence.
  - rewrite N.compare_lt_iff in *. lia.
  - rewrite N.compare_gt_iff in *. lia.
Qed.

Lemma str_compare_lt_trans (a b c : string) :
  String.compare a b = Lt -> String.compare b c = Lt -> String.compare a c = Lt.
Proof.
  revert b c. induction a as [|x a IH]; intros [|y b] [|z c]; simpl;
    try discriminate; try reflexivity.
  destruct (Ascii.compare x y) eqn:Exy; try discriminate;
    destruct (Ascii.compare y z) eqn:Eyz; try discriminate; intros H1 H2.
  - rewrite (ascii_compare_trans Eq x y z Exy Eyz). eapply IH; eassumption.
  - apply Ascii.compare_eq_iff in Exy. subst y. rewrite Eyz. reflexivity.
  - apply Ascii.compare_eq_iff in Eyz. subst z. rewrite Exy. reflexivity.
  - rewrite (ascii_compare_trans Lt x y z Exy Eyz). reflexivity.
Qed.

Lemma str_ltb_trans (a b c : string) :
  String.ltb a b = true -> String.ltb b c = true -> String.ltb a c = true.
Proof.
  unfold String.ltb. intros H1 H2.
  destruct (String.compare a b) eqn:E1; try discriminate.
  destruct (String.compare b c) eqn:E2; try discriminate.
  rewrite (str_compare_lt_trans a b c E1 E2). reflexivity.
Qed.

Lemma str_leb_iff (a b : string) : String.leb a b = true <-> String.ltb a b = true \/ a = b.
Proof.
  unfold String.leb, String.ltb.
  destruct (String.compare a b) eqn:E; split; intros H; try discriminate; auto.
  - right. apply String.compare_eq_iff, E.
  - destruct H as [H| ->]; [discriminate|]. rewrite str_compare_refl in E. discriminate.
Qed.

Lemma str_leb_trans (a b c : string) :
  String.leb a b = true -> String.leb b c = true -> String.leb a c = true.
Proof.
  rewrite !str_leb_iff. intros [H1| ->] [H2| ->]; auto.
  left. eapply str_ltb_trans; eassumption.
Qed.

Lemma str_leb_false_iff (a b : string) : String.leb a b = false <-> String.ltb b a = true.
Proof.
  unfold String.leb, String.ltb. rewrite (String.compare_antisym a b).
  destruct (String.compare b a); simpl; split; congruence.
Qed.

(** ** McVer: the order of game versions *)

Lemma cmp_lt_irrefl (a : Z * Z * Z * string * string) : McVer.cmp_lt a a = false.
Proof. apply cmp_lt_false_iff. right. reflexivity. Qed.

Lemma cmp_lt_trans (a b c : Z * Z * Z * string * string) :
  McVer.cmp_lt a b = true -> McVer.cmp_lt b c = true -> McVer.cmp_lt a c = true.
Proof.
  destruct a as [[[[a1 a2] a3] a4] a5], b as [[[[b1 b2] b3] b4] b5],
    c as [[[[c1 c2] c3] c4] c5].
  unfold McVer.cmp_lt.
  destruct (Z.eqb_spec a1 b1) as [->|]; simpl.
  2:{ intros H1%Z.ltb_lt.
      destruct (Z.eqb_spec b1 c1) as [->|]; simpl.
      - intros _. destruct (Z.eqb_spec a1 c1); [lia|]. simpl. apply Z.ltb_lt. lia.
      - intros H2%Z.ltb_lt. destruct (Z.eqb_spec a1 c1); [lia|]. simpl. apply Z.ltb_lt. lia. }
  destruct (Z.eqb_spec b1 c1) as [->|]; simpl; [|auto].
  destruct (Z.eqb_spec a2 b2) as [->|]; simpl.
  2:{ intros H1%Z.ltb_lt.
      destruct (Z.eqb_spec b2 c2) as [->|]; simpl.
      - intros _. destruct (Z.eqb_spec a2 c2); [lia|]. simpl. apply Z.ltb_lt. lia.
      - intros H2%Z.ltb_lt. destruct (Z.eqb_spec a2 c2); [lia|]. simpl. apply Z.ltb_lt. lia. }
  destruct (Z.eqb_spec b2 c2) as [->|]; simpl; [|auto].
  destruct (Z.eqb_spec a3 b3) as [->|]; simpl.
  2:{ intros H1%Z.ltb_lt.
      destruct (Z.eqb_spec b3 c3) as [->|]; simpl.
      - intros _. destruct (Z.eqb_spec a3 c3); [lia|]. simpl. apply Z.ltb_lt. lia.
      - intros H2%Z.ltb_lt. destruct (Z.eqb_spec a3 c3); [lia|]. simpl. apply Z.ltb_lt. lia. }
  destruct (Z.eqb_spec b3 c3) as [->|]; simpl; [|auto].
  destruct (String.eqb_spec a4 b4) as [->|N1]; simpl.
  2:{ intros H1.
      destruct (String.eqb_spec b4 c4) as [->|N2]; simpl.
      - intros _. destruct (String.eqb_spec a4 c4); [contradiction|]. exact H1.
      - intros H2. pose proof (str_ltb_trans _ _ _ H1 H2) as H3.
        destruct (String.eqb_spec a4 c4) as [->|]; [|exact H3].
        rewrite str_ltb_irrefl in H3. discriminate. }
  destruct (String.eqb_spec b4 c4) as [->|N2]; simpl; [|auto].
  apply str_ltb_trans.
Qed.

(** X1.  [McVer.__lt__] is a strict order that compares any two game
    versions: no version is below itself, the order is transitive, and two
    versions of which neither is below the other have the same sort key
    [cmp].  Apart from the two stand-in texts of the key (the suffix
    ['release'] and the snapshot ['zzzzzz']), versions with the same key are
    the same version. *)
Theorem McVer_lt_strict_total_order (a b c : McVer.t) :
  McVer.__lt__ a a = false
  /\ (McVer.__lt__ a b = true -> McVer.__lt__ b c = true -> McVer.__lt__ a c = true)
  /\ (McVer.__lt__ a b = false -> McVer.__lt__ b a = false -> McVer.cmp a = McVer.cmp b)
  /\ (McVer.suffix a <> "release" -> McVer.suffix b <> "release" ->
      McVer.snapshot a <> "zzzzzz" -> McVer.snapshot b <> "zzzzzz" ->
      McVer.cmp a = McVer.cmp b -> a = b).
Proof.
  unfold McVer.__lt__. repeat split.
  - apply cmp_lt_irrefl.
  - apply cmp_lt_trans.
  - intros H1 H2. apply cmp_lt_false_iff in H1. destruct H1 as [H1|H1]; congruence.
  - destruct a as [a1 a2 a3 a4 a5], b as [b1 b2 b3 b4 b5]. unfold McVer.cmp, McVer.str_or.
    cbn [McVer.major McVer.minor McVer.patch McVer.suffix McVer.snapshot].
    intros Ha4 Hb4 Ha5 Hb5 H. injection H as -> -> -> H4 H5.
    assert (a4 = b4) as ->.
    { destruct (String.eqb_spec a4 ""), (String.eqb_spec b4 ""); congruence. }
    assert (a5 = b5) as ->.
    { destruct (String.eqb_spec a5 ""), (String.eqb_spec b5 ""); congruence. }
    reflexivity.
Qed.

Lemma McVer_lt_strict_total_order_witness :
  McVer.__lt__ (McVer.McVer 1 19 2 "" "") (McVer.McVer 1 19 3 "" "") = true
  /\ McVer.McVer 1 11 1 "" "16w50a" = McVer.McVer 1 11 1 "" "16w50a".
Proof.
  destruct (McVer_lt_strict_total_order (McVer.McVer 1 19 2 "" "")
              (McVer.McVer 1 19 3 "pre1" "") (McVer.McVer 1 19 3 "" ""))
    as (_ & Htrans & _ & _).
  destruct (McVer_lt_strict_total_order (McVer.McVer 1 11 1 "" "16w50a")
              (McVer.McVer 1 11 1 "" "16w50a") (McVer.McVer 1 11 1 "" "16w50a"))
    as (_ & _ & _ & Hkey).
  split.
  - apply Htrans; reflexivity.
  - apply Hkey; [discriminate..|reflexivity].
Defined.
(** ** What the text parsers return *)

Lemma partition_fst_free (sep : ascii) (s : string) :
  free_of_char sep (fst (partition sep s)) = true.
Proof.
  induction s as [|c s IH]; [reflexivity|]. cbn [partition].
  destruct (Ascii.eqb c sep) eqn:E; [reflexivity|].
  destruct (partition sep s) as [h t]. cbn [fst] in *. rewrite free_cons, E, IH. reflexivity.
Qed.

Lemma split_not_nil (sep : ascii) (s : string) : split sep s <> [].
Proof.
  destruct s as [|c s]; [discriminate|]. cbn [split].
  destruct (Ascii.eqb c sep); [discriminate|]. destruct (split sep s); discriminate.
Qed.

Lemma split_pieces_free (sep : ascii) (s : string) :
  Forall (fun p => free_of_char sep p = true) (split sep s).
Proof.
  induction s as [|c s IH]; [repeat constructor|]. cbn [split].
  destruct (Ascii.eqb c sep) eqn:E; [constructor; [reflexivity|exact IH]|].
  destruct (split sep s) as [|p ps].
  - repeat constructor. rewrite free_cons, E. reflexivity.
  - inversion IH as [|? ? Hp Hps]; subst. constructor; [|exact Hps].
    rewrite free_cons, E. exact Hp.
Qed.

Lemma split_pieces_keep_free (c sep : ascii) (s : string) :
  free_of_char c s = true -> Forall (fun p => free_of_char c p = true) (split sep s).
Proof.
  induction s as [|x s IH]; [repeat constructor|]. rewrite free_cons.
  intros H. apply andb_true_iff in H as [Hx Hs]. specialize (IH Hs). cbn [split].
  destruct (Ascii.eqb x sep); [constructor; [reflexivity|exact IH]|].
  destruct (split sep s) as [|p ps].
  - repeat constructor. rewrite free_cons, Hx. reflexivity.
  - inversion IH as [|? ? Hp Hps]; subst. constructor; [|exact Hps].
    rewrite free_cons, Hx. exact Hp.
Qed.

Lemma contains_char (c : ascii) (s : string) :
  contains (String c EmptyString) s = negb (free_of_char c s).
Proof.
  induction s as [|x s IH]; [reflexivity|].
  rewrite free_cons. cbn [contains String.prefix]. rewrite IH.
  destruct (Ascii.ascii_dec c x) as [->|N].
  - rewrite Ascii.eqb_refl. destruct s; reflexivity.
  - destruct (Ascii.eqb_spec x c) as [->|]; [contradiction|]. reflexivity.
Qed.

Lemma digits_val_nonneg (s : string) (acc : Z) :
  0 <= acc -> all_chars is_digit s = true -> 0 <= digits_val acc s.
Proof.
  revert acc. induction s as [|c s IH]; intros acc Hacc; [intros _; exact Hacc|].
  cbn [all_chars digits_val]. intros H. apply andb_true_iff in H as [Hc Hs].
  apply IH; [|exact Hs]. unfold is_digit in Hc. unfold digit_val.
  apply andb_true_iff in Hc as [Hlo Hhi]. apply Z.leb_le in Hlo. lia.
Qed.

Lemma isnumeric_digits_val (s : string) : isnumeric s = true -> 0 <= digits_val 0 s.
Proof.
  unfold isnumeric. intros H. apply andb_true_iff in H as [_ H].
  apply digits_val_nonneg; [lia|exact H].
Qed.

Lemma maybeint_token_ok (p : string) :
  free_of_char "." p = true -> free_of_char "-" p = true -> token_ok (Ver.maybeint p) = true.
Proof.
  intros Hdot Hdash. unfold Ver.maybeint. destruct (isnumeric p) eqn:E; cbn [token_ok].
  - apply Z.leb_le, isnumeric_digits_val, E.
  - rewrite E, Hdot, Hdash. reflexivity.
Qed.

(** X2.  Whatever text [Ver.deserialize] accepts, the version it returns has
    at least one token, each token is a number that is not negative or a
    text that is not a number and holds no dot and no dash, and the version
    is read back from its own serialized text: writing a parsed version and
    parsing it again changes nothing. *)
Theorem Ver_deserialize_gives_a_fixed_point (s : string) (v : Ver.t) :
  Ver.deserialize s = Ok v ->
  Ver.version v <> []
  /\ Forall (fun tok => token_ok tok = true) (Ver.version v)
  /\ Ver.deserialize (Ver.serialize v) = Ok v.
Proof.
  unfold Ver.deserialize. pose proof (partition_fst_free "-" s) as Hfree.
  destruct (partition "-" s) as [ver ty]. cbn [fst] in Hfree.
  destruct (VerType.deserialize (JStr (default "" ty))) as [t|e]; [|discriminate].
  intros H. injection H as <-. cbn [Ver.version].
  assert (Hne : map Ver.maybeint (split "." ver) <> []).
  { intros Hnil. apply map_eq_nil in Hnil. exact (split_not_nil _ _ Hnil). }
  assert (Hall : Forall (fun tok => token_ok tok = true) (map Ver.maybeint (split "." ver))).
  { apply Forall_map. pose proof (split_pieces_free "." ver) as Hdot.
    pose proof (split_pieces_keep_free "-" "." ver Hfree) as Hdash.
    rewrite Forall_forall in *. intros p Hp.
    apply maybeint_token_ok; [apply Hdot, Hp|apply Hdash, Hp]. }
  split; [exact Hne|]. split; [exact Hall|].
  apply (roundtrip_Ver (Ver.Ver (map Ver.maybeint (split "." ver)) t)).
  unfold Ver_ok. cbn [Ver.version].
  destruct (map Ver.maybeint (split "." ver)) eqn:E; [contradiction|].
  apply forallb_forall. rewrite Forall_forall in Hall. exact Hall.
Qed.

Lemma Ver_deserialize_gives_a_fixed_point_witness :
  Ver.version (Ver.Ver [TInt 1; TInt 20; TStr "x"] VerType.BETA) <> []
  /\ Forall (fun tok => token_ok tok = true)
            (Ver.version (Ver.Ver [TInt 1; TInt 20; TStr "x"] VerType.BETA))
  /\ Ver.deserialize (Ver.serialize (Ver.Ver [TInt 1; TInt 20; TStr "x"] VerType.BETA))
     = Ok (Ver.Ver [TInt 1; TInt 20; TStr "x"] VerType.BETA).
Proof.
  apply (Ver_deserialize_gives_a_fixed_point "1.020.x-b"). reflexivity.
Defined.
Lemma py_int_nonneg (p : string) (n : Z) :
  free_of_char "-" p = true -> py_int p = Ok n -> 0 <= n.
Proof.
  intros Hfree. unfold py_int.
  assert (Hdigits : forall d, (if isnumeric d then Ok (digits_val 0 d) else Raise ValueError)
                              = Ok n -> 0 <= n).
  { intros d. destruct (isnumeric d) eqn:E; [|discriminate].
    intros H. injection H as <-. apply isnumeric_digits_val, E. }
  destruct p as [|c d]; [apply Hdigits|].
  destruct (Ascii.eqb_spec c "-") as [->|Hc].
  { rewrite free_cons in Hfree. discriminate. }
  destruct (Ascii.eqb_spec c "+") as [->|Hp]; [apply Hdigits|].
  destruct c as [[] [] [] [] [] [] [] []]; try apply Hdigits; congruence.
Qed.

Lemma map_py_int_nonneg (l : list string) (ns : list Z) :
  Forall (fun p => free_of_char "-" p = true) l ->
  map_result py_int l = Ok ns -> Forall (fun n => 0 <= n) ns.
Proof.
  revert ns. induction l as [|p l IH]; intros ns Hall.
  - intros H. injection H as <-. constructor.
  - inversion Hall as [|? ? Hp Hl]; subst. cbn [map_result].
    destruct (py_int p) as [n|e] eqn:En; [|discriminate].
    destruct (map_result py_int l) as [ms|e]; [|discriminate].
    intros H. injection H as <-. constructor; [|apply IH; [exact Hl|reflexivity]].
    eapply py_int_nonneg; eassumption.
Qed.

Lemma find_snapshot_label (table : list McVer.t) (ver : string) (v : McVer.t) :
  McVer.find_snapshot table ver = Ok v ->
  McVer.snapshot v = ver
  /\ exists e, In e table /\ String.leb (McVer.snapshot e) ver = true
               /\ v = McVer.McVer (McVer.major e) (McVer.minor e) (McVer.patch e)
                                  (McVer.suffix e) ver.
Proof.
  induction table as [|e table IH]; [discriminate|]. cbn [McVer.find_snapshot].
  destruct (String.leb (McVer.snapshot e) ver) eqn:E.
  - intros H. injection H as <-. split; [reflexivity|].
    exists e. split; [left; reflexivity|]. split; [exact E|reflexivity].
  - intros H. destruct (IH H) as (Hl & e' & Hin & Hle & Hv). split; [exact Hl|].
    exists e'. split; [right; exact Hin|]. split; assumption.
Qed.

Lemma find_snapshot_found (table : list McVer.t) (ver : string) (e : McVer.t) :
  In e table -> String.leb (McVer.snapshot e) ver = true ->
  exists v, McVer.find_snapshot table ver = Ok v.
Proof.
  induction table as [|x table IH]; [contradiction|]. intros Hin Hle. cbn [McVer.find_snapshot].
  destruct (String.leb (McVer.snapshot x) ver) eqn:E; [eexists; reflexivity|].
  destruct Hin as [->|Hin]; [congruence|]. apply IH; assumption.
Qed.

Lemma find_snapshot_none (table : list McVer.t) (ver : string) :
  Forall (fun e => String.leb (McVer.snapshot e) ver = false) table ->
  McVer.find_snapshot table ver = Raise ValueError.
Proof.
  induction 1 as [|e table He _ IH]; [reflexivity|]. cbn [McVer.find_snapshot].
  rewrite He. exact IH.
Qed.

Lemma deserialize_snapshot_label (s : string) :
  free_of_char "." s = true -> free_of_char "-" s = true ->
  McVer.deserialize s = McVer.find_snapshot McVer.SNAPSHOTS s.
Proof.
  intros Hdot Hdash. unfold McVer.deserialize.
  rewrite (partition_free "-" s Hdash), contains_char, Hdot. reflexivity.
Qed.

(** X3.  Whatever text [McVer.deserialize] reads as a game version (two or
    three dotted numbers with an optional suffix, or a snapshot label), the
    numbers of the result are not negative and the result is read back from
    its own serialized text: writing a parsed game version and parsing it
    again changes nothing. *)
Theorem McVer_deserialize_gives_a_fixed_point (s : string) (v : McVer.t) :
  McVer.deserialize s = Ok v ->
  0 <= McVer.major v /\ 0 <= McVer.minor v /\ 0 <= McVer.patch v
  /\ McVer.deserialize (McVer.serialize v) = Ok v.
Proof.
  intros H.
  assert (Hok : McVer_ok v = true /\ 0 <= McVer.major v /\ 0 <= McVer.minor v
                /\ 0 <= McVer.patch v).
  { revert H. unfold McVer.deserialize. pose proof (partition_fst_free "-" s) as Hfree.
    destruct (partition "-" s) as [ver suffix]. cbn [fst] in Hfree.
    destruct (contains "." ver) eqn:Edot.
    - pose proof (map_py_int_nonneg (split "." ver)) as Hnn.
      destruct (map_result py_int (split "." ver)) as [parts|e]; [|discriminate].
      specialize (Hnn parts (split_pieces_keep_free "-" "." ver Hfree) eq_refl).
      cbn [mbind result_bind].
      destruct parts as [|a [|b [|c [|d parts]]]]; try discriminate;
        intros H; injection H as <-; unfold McVer_ok; cbn;
        repeat match goal with
               | H : Forall _ (_ :: _) |- _ => inversion H; clear H; subst
               end;
        repeat split; try lia;
        repeat (apply andb_true_iff; split); apply Z.leb_le; lia.
    - intros H. destruct (find_snapshot_label _ _ _ H) as (Hl & e & Hin & _ & Hv).
      assert (Hne : ver <> "").
      { intros ->. vm_compute in H. discriminate. }
      split.
      + unfold McVer_ok. rewrite Hl. destruct (String.eqb_spec ver ""); [contradiction|].
        apply bool_decide_eq_true. unfold McVer.deserialize.
        rewrite (partition_free "-" ver Hfree), Edot. exact H.
      + subst v. cbn [McVer.major McVer.minor McVer.patch]. clear -Hin.
        repeat (destruct Hin as [<-|Hin]; [cbn; lia|]). contradiction. }
  destruct Hok as (Hok & Ha & Hb & Hc). repeat split; try assumption.
  apply (roundtrip_McVer v Hok).
Qed.

Lemma McVer_deserialize_gives_a_fixed_point_witness :
  0 <= McVer.major (McVer.McVer 1 19 0 "pre2" "")
  /\ 0 <= McVer.minor (McVer.McVer 1 19 0 "pre2" "")
  /\ 0 <= McVer.patch (McVer.McVer 1 19 0 "pre2" "")
  /\ McVer.deserialize (McVer.serialize (McVer.McVer 1 19 0 "pre2" ""))
     = Ok (McVer.McVer 1 19 0 "pre2" "").
Proof.
  apply (McVer_deserialize_gives_a_fixed_point "1.19.0-pre2"). reflexivity.
Defined.

(** the numbers of a game version, as the release they name *)
Local Abbreviation numbers v :=
  (McVer.McVer (McVer.major v) (McVer.minor v) (McVer.patch v) "" "").

Lemma find_snapshot_mono (table : list McVer.t) (s1 s2 : string) (v1 : McVer.t) :
  StronglySorted (fun a b => McVer.__lt__ (numbers a) (numbers b) = false) table ->
  String.leb s1 s2 = true ->
  McVer.find_snapshot table s1 = Ok v1 ->
  exists v2, McVer.find_snapshot table s2 = Ok v2
             /\ McVer.__lt__ (numbers v2) (numbers v1) = false.
Proof.
  intros Hsorted Hle. induction Hsorted as [|e table _ IH Hall]; [discriminate|].
  cbn [McVer.find_snapshot].
  destruct (String.leb (McVer.snapshot e) s1) eqn:E1.
  - intros H. injection H as <-.
    rewrite (str_leb_trans _ _ _ E1 Hle). eexists. split; [reflexivity|].
    apply cmp_lt_irrefl.
  - intros H. destruct (String.leb (McVer.snapshot e) s2) eqn:E2.
    + eexists. split; [reflexivity|].
      destruct (find_snapshot_label _ _ _ H) as (_ & e' & Hin & _ & ->).
      rewrite Forall_forall in Hall. exact (Hall e' Hin).
    + apply IH, H.
Qed.

(** X4.  A text without dot and dash is looked up as a snapshot label.  A
    label below ['14w02a'] raises [ValueError]; any other label gets the
    numbers and the suffix of a table entry whose label is not above it and
    keeps its own text as the snapshot; and a later label never gets the
    numbers of an older game version than an earlier label. *)
Theorem McVer_snapshot_lookup (s : string) :
  free_of_char "." s = true -> free_of_char "-" s = true ->
  (String.ltb s "14w02a" = true -> McVer.deserialize s = Raise ValueError)
  /\ (String.ltb s "14w02a" = false ->
      exists e, In e McVer.SNAPSHOTS /\ String.leb (McVer.snapshot e) s = true
                /\ McVer.deserialize s
                   = Ok (McVer.McVer (McVer.major e) (McVer.minor e) (McVer.patch e)
                                     (McVer.suffix e) s))
  /\ (forall (earlier : string) (v : McVer.t),
        free_of_char "." earlier = true -> free_of_char "-" earlier = true ->
        String.leb earlier s = true -> McVer.deserialize earlier = Ok v ->
        exists v', McVer.deserialize s = Ok v'
                   /\ McVer.__lt__ (numbers v') (numbers v) = false).
Proof.
  intros Hdot Hdash. rewrite (deserialize_snapshot_label s Hdot Hdash).
  split; [|split].
  - intros Hlt. apply find_snapshot_none.
    assert (Hlow : Forall (fun e => String.leb "14w02a" (McVer.snapshot e) = true)
                          McVer.SNAPSHOTS) by (repeat constructor).
    eapply Forall_impl; [|exact Hlow]. cbn beta. intros e He.
    destruct (String.leb (McVer.snapshot e) s) eqn:E; [|reflexivity].
    pose proof (str_leb_trans _ _ _ He E) as Hle. apply str_leb_false_iff in Hlt. congruence.
  - intros Hge.
    assert (Hle : String.leb "14w02a" s = true).
    { destruct (String.leb "14w02a" s) eqn:E; [reflexivity|].
      apply str_leb_false_iff in E. congruence. }
    destruct (find_snapshot_found McVer.SNAPSHOTS s (McVer.McVer 1 8 0 "pre1" "14w02a"))
      as [v Hv]; [repeat (try (left; reflexivity); right)|exact Hle|].
    destruct (find_snapshot_label _ _ _ Hv) as (_ & e & Hin & He & ->).
    exists e. repeat split; assumption.
  - intros earlier v Hdot' Hdash' Hle. rewrite (deserialize_snapshot_label earlier Hdot' Hdash').
    apply find_snapshot_mono; [|exact Hle]. repeat constructor.
Qed.

Lemma McVer_snapshot_lookup_witness :
  McVer.deserialize "13w41a" = Raise ValueError
  /\ (exists e, In e McVer.SNAPSHOTS /\ String.leb (McVer.snapshot e) "22w30a" = true
                /\ McVer.deserialize "22w30a"
                   = Ok (McVer.McVer (McVer.major e) (McVer.minor e) (McVer.patch e)
                                     (McVer.suffix e) "22w30a"))
  /\ (exists v', McVer.deserialize "22w30a" = Ok v'
                 /\ McVer.__lt__ (numbers v') (numbers (McVer.McVer 1 18 2 "pre1" "22w03b"))
                    = false).
Proof.
  destruct (McVer_snapshot_lookup "13w41a" eq_refl eq_refl) as (Hlow & _ & _).
  destruct (McVer_snapshot_lookup "22w30a" eq_refl eq_refl) as (_ & Hfound & Hmono).
  split; [apply Hlow; reflexivity|]. split; [apply Hfound; reflexivity|].
  apply (Hmono "22w03b"); reflexivity.
Defined.
(** ** McVer.type and the compatible operator *)

Lemma rc_or_pre_below_release (suffix : string) :
  startswith suffix "rc" = true \/ startswith suffix "pre" = true ->
  suffix <> "" /\ String.eqb suffix "release" = false /\ String.ltb suffix "release" = true.
Proof.
  unfold startswith.
  intros [H|H]; destruct suffix as [|a [|b s]]; try discriminate; cbn [String.prefix] in H;
    destruct (Ascii.ascii_dec _ a) as [<-|]; try discriminate;
    destruct (Ascii.ascii_dec _ b) as [<-|]; try discriminate;
    repeat split; discriminate.
Qed.

(** X5.  A pre-release or a release candidate ([McVer.type] is [PRE] or [RC])
    sorts below the release with the same numbers, so the compatible match
    [^] of that release accepts it. *)
Theorem McVer_prerelease_sorts_below_its_release (v : McVer.t) :
  McVer.type v = McVerType.PRE \/ McVer.type v = McVerType.RC ->
  let release := McVer.McVer (McVer.major v) (McVer.minor v) (McVer.patch v) "" "" in
  McVer.__lt__ v release = true
  /\ McVer.__lt__ release v = false
  /\ McVerMatch.__call__ (McVerMatch.McVerMatch (Some release) "^") v = Ok true.
Proof.
  destruct v as [a b c suffix snapshot]. unfold McVer.type.
  cbn [McVer.major McVer.minor McVer.patch McVer.suffix McVer.snapshot].
  destruct (String.eqb_spec snapshot "") as [->|]; cbn [negb]; [|intros [H|H]; discriminate].
  destruct (String.eqb_spec suffix "") as [->|Hne]; [intros [H|H]; discriminate|].
  intros Hty.
  assert (Hsuf : startswith suffix "rc" = true \/ startswith suffix "pre" = true).
  { destruct (startswith suffix "rc"); [left; reflexivity|].
    destruct (startswith suffix "pre"); [right; reflexivity|].
    destruct Hty; discriminate. }
  destruct (rc_or_pre_below_release suffix Hsuf) as (_ & Hneq & Hlt).
  assert (Hbelow : McVer.__lt__ (McVer.McVer a b c suffix "") (McVer.McVer a b c "" "") = true).
  { unfold McVer.__lt__, McVer.cmp, McVer.cmp_lt, McVer.str_or.
    cbn [McVer.major McVer.minor McVer.patch McVer.suffix McVer.snapshot].
    rewrite !Z.eqb_refl. cbn [negb String.eqb].
    destruct (String.eqb_spec suffix ""); [contradiction|]. rewrite Hneq. exact Hlt. }
  assert (Habove : McVer.__lt__ (McVer.McVer a b c "" "") (McVer.McVer a b c suffix "") = false).
  { apply cmp_lt_false_iff. left. exact Hbelow. }
  cbn zeta. split; [exact Hbelow|]. split; [exact Habove|].
  unfold McVerMatch.__call__, McVer.__ge__.
  cbn [McVerMatch.ver McVerMatch.operator String.eqb Ascii.eqb Bool.eqb
       McVer.major McVer.minor].
  rewrite Habove, !Z.eqb_refl. reflexivity.
Qed.

Lemma McVer_prerelease_sorts_below_its_release_witness :
  let release := McVer.McVer 1 19 3 "" "" in
  McVer.__lt__ (McVer.McVer 1 19 3 "rc2" "") release = true
  /\ McVer.__lt__ release (McVer.McVer 1 19 3 "rc2" "") = false
  /\ McVerMatch.__call__ (McVerMatch.McVerMatch (Some release) "^")
                         (McVer.McVer 1 19 3 "rc2" "") = Ok true.
Proof.
  apply (McVer_prerelease_sorts_below_its_release (McVer.McVer 1 19 3 "rc2" "")).
  right. reflexivity.
Defined.

Lemma versions_filter (self : McVerMatch.t) (p : McVer.t -> bool) (table : list McVer.t) :
  (forall v, In v table -> McVerMatch.__call__ self v = Ok (p v)) ->
  (kept ← map_result (fun v => b ← McVerMatch.__call__ self v; mret (v, b)) table;
   mret (map fst (filter (fun q => snd q = true) kept)))
  = Ok (List.filter p table).
Proof.
  induction table as [|v table IH]; intros Hcall; [reflexivity|].
  cbn [map_result]. rewrite (Hcall v (or_introl eq_refl)). cbn [mbind result_bind mret result_ret].
  specialize (IH (fun x Hx => Hcall x (or_intror Hx))).
  destruct (map_result _ table) as [kept|e]; [|discriminate].
  cbn [mbind result_bind mret result_ret] in *. injection IH as IH.
  cbn [List.filter]. f_equal. rewrite filter_cons. cbn [snd].
  destruct (decide (p v = true)) as [E|E].
  - rewrite E. cbn [map fst]. rewrite IH. reflexivity.
  - apply not_true_is_false in E. rewrite E. exact IH.
Qed.

(** X6.  Among releases, the compatible match [^base] accepts exactly the
    versions of the same major and minor whose patch is not above the
    base's; so [versions] of such a match lists those entries of
    [McVer.VERSIONS], in table order, and never raises. *)
Theorem McVerMatch_caret_on_releases (base : McVer.t) :
  McVer.suffix base = "" -> McVer.snapshot base = "" ->
  let caret := McVerMatch.McVerMatch (Some base) "^" in
  let same_line_up_to_base (v : McVer.t) :=
    (McVer.major v =? McVer.major base) && (McVer.minor v =? McVer.minor base)
    && (McVer.patch v <=? McVer.patch base) in
  (forall a b c, McVerMatch.__call__ caret (McVer.McVer a b c "" "")
                 = Ok (same_line_up_to_base (McVer.McVer a b c "" "")))
  /\ McVerMatch.versions caret = Ok (List.filter same_line_up_to_base McVer.VERSIONS).
Proof.
  destruct base as [ma mi pa suffix snapshot]. cbn [McVer.suffix McVer.snapshot].
  intros -> ->. cbn zeta.
  assert (Hcall : forall a b c,
    McVerMatch.__call__ (McVerMatch.McVerMatch (Some (McVer.McVer ma mi pa "" "")) "^")
                        (McVer.McVer a b c "" "")
    = Ok ((a =? ma) && (b =? mi) && (c <=? pa))).
  { intros a b c. unfold McVerMatch.__call__, McVer.__ge__, McVer.__lt__, McVer.cmp,
      McVer.cmp_lt, McVer.str_or.
    cbn [McVerMatch.ver McVerMatch.operator String.eqb Ascii.eqb Bool.eqb
         McVer.major McVer.minor McVer.patch McVer.suffix McVer.snapshot].
    f_equal.
    destruct (Z.eqb_spec a ma) as [->|Na].
    2:{ destruct (Z.eqb_spec ma a) as [->|]; [contradiction|]. cbn [negb andb].
        rewrite andb_false_r. reflexivity. }
    rewrite Z.eqb_refl. cbn [negb andb].
    destruct (Z.eqb_spec b mi) as [->|Nb].
    2:{ destruct (Z.eqb_spec mi b) as [->|]; [contradiction|]. cbn [negb andb].
        rewrite andb_false_r. reflexivity. }
    rewrite Z.eqb_refl. cbn [negb andb]. rewrite !andb_true_r.
    destruct (Z.eqb_spec pa c) as [->|Nc]; cbn [negb].
    - symmetry. apply Z.leb_le. lia.
    - destruct (Z.ltb_spec pa c), (Z.leb_spec c pa); try reflexivity; lia. }
  split.
  - intros a b c. cbn [McVer.major McVer.minor McVer.patch]. apply Hcall.
  - unfold McVerMatch.versions. apply versions_filter.
    intros v Hv. cbn [McVer.major McVer.minor McVer.patch].
    assert (Hrel : exists a b c, v = McVer.McVer a b c "" "").
    { unfold McVer.VERSIONS in Hv. apply in_map_iff in Hv as ([[a b] c] & <- & _).
      exists a, b, c. reflexivity. }
    destruct Hrel as (a & b & c & ->). apply Hcall.
Qed.

Lemma McVerMatch_caret_on_releases_witness :
  let caret := McVerMatch.McVerMatch (Some (McVer.McVer 1 19 2 "" "")) "^" in
  let same_line_up_to_base (v : McVer.t) :=
    (McVer.major v =? 1) && (McVer.minor v =? 19) && (McVer.patch v <=? 2) in
  (forall a b c, McVerMatch.__call__ caret (McVer.McVer a b c "" "")
                 = Ok (same_line_up_to_base (McVer.McVer a b c "" "")))
  /\ McVerMatch.versions caret = Ok (List.filter same_line_up_to_base McVer.VERSIONS).
Proof.
  apply (McVerMatch_caret_on_releases (McVer.McVer 1 19 2 "" "")); reflexivity.
Defined.

(** X7.  A match that [McVerMatch.deserialize] read from a text carries the
    operator [''] or [^] (or is [ANY]), so applying it to a game version and
    listing its [versions] never raise [Unknown operator]. *)
Theorem McVerMatch_read_from_text_applies (s : string) (m : McVerMatch.t) :
  McVerMatch.deserialize s = Ok m ->
  (McVerMatch.operator m = "" \/ McVerMatch.operator m = "^")
  /\ (forall v, exists b, McVerMatch.__call__ m v = Ok b)
  /\ exists l, McVerMatch.versions m = Ok l.
Proof.
  intros H.
  assert (Hop : McVerMatch.operator m = "" \/ McVerMatch.operator m = "^").
  { revert H. unfold McVerMatch.deserialize.
    destruct (String.eqb s "*"); [intros H; injection H as <-; left; reflexivity|].
    assert (Hplain : (v ← McVer.deserialize s; mret (McVerMatch.McVerMatch (Some v) "")) = Ok m
                     -> McVerMatch.operator m = "" \/ McVerMatch.operator m = "^").
    { destruct (McVer.deserialize s); [|discriminate]. intros H. injection H as <-.
      left. reflexivity. }
    destruct s as [|c rest]; [exact Hplain|].
    destruct (Ascii.ascii_dec c "^") as [->|Hc].
    - destruct (McVer.deserialize rest); [|discriminate]. intros H. injection H as <-.
      right. reflexivity.
    - destruct c as [[] [] [] [] [] [] [] []]; try exact Hplain. contradiction. }
  assert (Hcall : forall v, exists b, McVerMatch.__call__ m v = Ok b).
  { intros v. unfold McVerMatch.__call__. destruct (McVerMatch.ver m); [|eexists; reflexivity].
    destruct Hop as [-> | ->]; eexists; reflexivity. }
  split; [exact Hop|]. split; [exact Hcall|].
  unfold McVerMatch.versions.
  assert (Hall : forall table, exists kept,
    map_result (fun v => b ← McVerMatch.__call__ m v; mret (v, b)) table = Ok kept).
  { induction table as [|v table [kept IH]]; [eexists; reflexivity|].
    destruct (Hcall v) as [b Hb]. cbn [map_result]. rewrite Hb, IH. eexists. reflexivity. }
  destruct (Hall McVer.VERSIONS) as [kept ->]. eexists. reflexivity.
Qed.

Lemma McVerMatch_read_from_text_applies_witness :
  (McVerMatch.operator (McVerMatch.McVerMatch (Some (McVer.McVer 1 19 0 "" "")) "^") = ""
   \/ McVerMatch.operator (McVerMatch.McVerMatch (Some (McVer.McVer 1 19 0 "" "")) "^") = "^")
  /\ (forall v, exists b,
        McVerMatch.__call__ (McVerMatch.McVerMatch (Some (McVer.McVer 1 19 0 "" "")) "^") v
        = Ok b)
  /\ exists l,
       McVerMatch.versions (McVerMatch.McVerMatch (Some (McVer.McVer 1 19 0 "" "")) "^") = Ok l.
Proof.
  apply (McVerMatch_read_from_text_applies "^1.19"). reflexivity.
Defined.
(** ** VerMatch: combining and reading version matches *)

Lemma all_criteria_app (cs ds : list VerCmp.t) (v : Ver.t) :
  VerMatch.all_criteria (cs ++ ds) v
  = (ok ← VerMatch.all_criteria cs v;
     if (ok : bool) then VerMatch.all_criteria ds v else Ok false).
Proof.
  induction cs as [|c cs IH]; [reflexivity|].
  cbn [app VerMatch.all_criteria]. destruct (VerCmp.__call__ c v) as [r|e]; [|reflexivity].
  cbn [mbind result_bind]. destruct (truthy r); [exact IH|reflexivity].
Qed.

(** X8.  [&] on version matches is associative and has [VerMatch.ANY] as its
    unit on both sides; [ANY] is the only match that is falsy, and it accepts
    every version. *)
Theorem VerMatch_and_is_a_monoid (a b c : VerMatch.t) :
  VerMatch.__and__ VerMatch.ANY a = a
  /\ VerMatch.__and__ a VerMatch.ANY = a
  /\ VerMatch.__and__ (VerMatch.__and__ a b) c = VerMatch.__and__ a (VerMatch.__and__ b c)
  /\ (VerMatch.__bool__ a = false <-> a = VerMatch.ANY)
  /\ (forall v, VerMatch.__call__ VerMatch.ANY v = Ok true).
Proof.
  destruct a as [ca ta], b as [cb tb], c as [cc tc]. unfold VerMatch.__and__, VerMatch.ANY.
  cbn [VerMatch.criteria VerMatch.min_ver_type].
  repeat split.
  - destruct ta; reflexivity.
  - rewrite app_nil_r. destruct ta; reflexivity.
  - rewrite app_assoc. destruct ta, tb, tc; reflexivity.
  - unfold VerMatch.__bool__. cbn [VerMatch.criteria VerMatch.min_ver_type].
    destruct ca; [|discriminate]. destruct ta; [discriminate..|reflexivity].
  - intros H. injection H as -> ->. reflexivity.
  - intros v. unfold VerMatch.__call__. cbn [VerMatch.criteria VerMatch.min_ver_type].
    destruct (Ver.type v); reflexivity.
Qed.

(** X9.  A version is accepted by [a & b] exactly when it is accepted by [a]
    and by [b]: if both answer, the answer of [a & b] is their conjunction,
    and a version that [a] rejects is rejected by [a & b] whatever [b] does. *)
Theorem VerMatch_and_is_conjunction (a b : VerMatch.t) (v : Ver.t) :
  (forall ra rb, VerMatch.__call__ a v = Ok ra -> VerMatch.__call__ b v = Ok rb ->
                 VerMatch.__call__ (VerMatch.__and__ a b) v = Ok (ra && rb))
  /\ (VerMatch.__call__ a v = Ok false ->
      VerMatch.__call__ (VerMatch.__and__ a b) v = Ok false).
Proof.
  destruct a as [ca ta], b as [cb tb].
  unfold VerMatch.__call__, VerMatch.__and__.
  cbn [VerMatch.criteria VerMatch.min_ver_type]. rewrite all_criteria_app.
  split.
  - intros ra rb. destruct ta, tb, (Ver.type v); cbn;
      intros Ha Hb; try (injection Ha as <-); try (injection Hb as <-);
      try reflexivity; try (rewrite Ha; cbn; destruct ra; [exact Hb|reflexivity]);
      try (rewrite andb_false_r; reflexivity).
  - destruct ta, tb, (Ver.type v); cbn; intros Ha; try reflexivity; try discriminate;
      rewrite Ha; reflexivity.
Qed.

Lemma VerMatch_and_is_conjunction_witness :
  let a := VerMatch.VerMatch [VerCmp.VerCmp (Some (Ver.Ver [TInt 1; TInt 2] VerType.RELEASE)) "<"]
                             VerType.ALPHA in
  let b := VerMatch.VerMatch [] VerType.BETA in
  VerMatch.__call__ (VerMatch.__and__ a b) (Ver.Ver [TInt 1; TInt 3] VerType.BETA)
    = Ok (true && true)
  /\ VerMatch.__call__ (VerMatch.__and__ b a) (Ver.Ver [TInt 1; TInt 3] VerType.ALPHA)
     = Ok false.
Proof.
  split.
  - apply (VerMatch_and_is_conjunction
             (VerMatch.VerMatch
                [VerCmp.VerCmp (Some (Ver.Ver [TInt 1; TInt 2] VerType.RELEASE)) "<"]
                VerType.ALPHA)
             (VerMatch.VerMatch [] VerType.BETA)
             (Ver.Ver [TInt 1; TInt 3] VerType.BETA)); reflexivity.
  - apply (VerMatch_and_is_conjunction
             (VerMatch.VerMatch [] VerType.BETA)
             (VerMatch.VerMatch
                [VerCmp.VerCmp (Some (Ver.Ver [TInt 1; TInt 2] VerType.RELEASE)) "<"]
                VerType.ALPHA)
             (Ver.Ver [TInt 1; TInt 3] VerType.ALPHA)). reflexivity.
Defined.

(** X10.  [VerMatch.deserialize] never returns a match with a criterion:
    the only texts it accepts are ['*'], [''] and those of the form
    ['@type'].  A text with a version before the ['@'] reaches
    [VerCmp.deserialize], which raises on every input ([AttributeError] for
    ['*'], [NameError] otherwise). *)
Theorem VerMatch_deserialize_never_reads_a_criterion (s : string) :
  (forall val, exists e, VerCmp.deserialize val = Raise e)
  /\ (forall m, VerMatch.deserialize s = Ok m ->
        VerMatch.criteria m = []
        /\ (s = "*" \/ fst (partition "@" s) = ""))
  /\ (s <> "*" -> fst (partition "@" s) <> "" ->
      exists e, VerMatch.deserialize s = Raise e).
Proof.
  assert (Hcmp : forall val, exists e, VerCmp.deserialize val = Raise e).
  { intros val. unfold VerCmp.deserialize.
    destruct (String.eqb val "*"); [eexists; reflexivity|].
    destruct (startswith val "<=" || startswith val ">="); [eexists; reflexivity|].
    destruct (startswith val "<" || startswith val ">"); eexists; reflexivity. }
  split; [exact Hcmp|]. unfold VerMatch.deserialize.
  destruct (String.eqb_spec s "*") as [->|Hstar]; cbn [orb].
  { split; [|contradiction]. intros m H. injection H as <-. split; [reflexivity|left; reflexivity]. }
  destruct (String.eqb_spec s "") as [->|Hempty].
  { split; [|intros _ H; contradiction H; reflexivity].
    intros m H. injection H as <-. split; [reflexivity|right; reflexivity]. }
  destruct (partition "@" s) as [ver type]. cbn [fst].
  match goal with
  | |- context [mbind _ ?parsed] => destruct parsed as [t|e]
  end; cbn [mbind result_bind].
  2:{ split; [discriminate|]. intros _ _. eexists. reflexivity. }
  destruct (String.eqb_spec ver "") as [->|Hver]; cbn [negb].
  - split; [|intros _ H; contradiction H; reflexivity].
    intros m H. injection H as <-. split; [reflexivity|right; reflexivity].
  - destruct (Hcmp ver) as [e ->]. cbn [mbind result_bind].
    split; [discriminate|]. intros _ _. eexists. reflexivity.
Qed.

Lemma VerMatch_deserialize_never_reads_a_criterion_witness :
  (exists e, VerMatch.deserialize ">=1.2" = Raise e)
  /\ VerMatch.criteria (VerMatch.VerMatch [] VerType.BETA) = []
  /\ ("@beta" = "*" \/ fst (partition "@" "@beta") = "").
Proof.
  split.
  - apply (VerMatch_deserialize_never_reads_a_criterion ">=1.2"); discriminate.
  - apply (VerMatch_deserialize_never_reads_a_criterion "@beta"). reflexivity.
Defined.
(** ** License: the table of standard licenses *)

(** X11.  A key of [License.STD] is read as a license that is written back
    as that key; any other text raises [KeyError]. *)
Theorem License_std_key_reads_and_writes_back (k : string) :
  (In k (map fst License.STD) ->
   exists l, License.deserialize (JStr k) = Ok l /\ License.serialize l = JStr k)
  /\ (~ In k (map fst License.STD) -> License.deserialize (JStr k) = Raise KeyError).
Proof.
  split.
  - intros Hin. cbn in Hin.
    repeat (destruct Hin as [<-|Hin]; [eexists; split; reflexivity|]). contradiction.
  - cbn [License.deserialize]. generalize License.STD.
    induction l as [|[k' v] table IH]; [reflexivity|]. cbn [map fst In License.std_get].
    intros H. destruct (String.eqb_spec k' k) as [->|]; [contradiction H; left; reflexivity|].
    apply IH. intros Hin. apply H. right. exact Hin.
Qed.

Lemma License_std_key_reads_and_writes_back_witness :
  (exists l, License.deserialize (JStr "MPL") = Ok l /\ License.serialize l = JStr "MPL")
  /\ License.deserialize (JStr "WTFPL") = Raise KeyError.
Proof.
  split.
  - apply (License_std_key_reads_and_writes_back "MPL").
    cbn. do 11 right. left. reflexivity.
  - apply (License_std_key_reads_and_writes_back "WTFPL").
    cbn. intros H. repeat (destruct H as [H|H]; [discriminate|]). exact H.
Defined.

(** ** strip_mcver: the tokens of a version string *)

Lemma all_chars_app (p : ascii -> bool) (a b : string) :
  all_chars p (a ++ b) = all_chars p a && all_chars p b.
Proof.
  induction a as [|c a IH]; [reflexivity|].
  change (String c a ++ b) with (String c (a ++ b)). cbn [all_chars].
  rewrite IH, andb_assoc. reflexivity.
Qed.

Lemma app_one_not_empty (a : string) (c : ascii) : a ++ String c "" <> "".
Proof. destruct a; discriminate. Qed.

Lemma replace_dash_free (s : string) : free_of_char "-" (replace_dash s) = true.
Proof.
  induction s as [|c s IH]; [reflexivity|]. cbn [replace_dash]. rewrite free_cons, IH.
  destruct (Ascii.eqb_spec c "-") as [->|N]; [reflexivity|].
  destruct (Ascii.eqb_spec c "-"); [contradiction|reflexivity].
Qed.

Lemma not_empty_app_one (a : string) (c : ascii) : String.eqb (a ++ String c "") "" = false.
Proof. destruct a; reflexivity. Qed.

Lemma findall_runs (s : string) (cur : option (bool * string)) :
  free_of_char "-" s = true ->
  match cur with
  | None => True
  | Some (true, r) => negb (String.eqb r "") && all_chars is_name_char r = true
  | Some (false, r) => negb (String.eqb r "") && all_chars is_digit r = true
  end ->
  Forall (fun r => negb (String.eqb r "")
                   && (all_chars is_name_char r || all_chars is_digit r) = true)
         (findall cur s).
Proof.
  revert cur. induction s as [|c s IH]; intros cur Hfree Hcur.
  - cbn [findall]. destruct cur as [[[] r]|]; cbn [flush]; repeat constructor;
      apply andb_true_iff in Hcur as [-> ->]; rewrite ?orb_true_r; reflexivity.
  - rewrite free_cons in Hfree. apply andb_true_iff in Hfree as [Hc Hs].
    assert (Hflush : forall rest,
      Forall (fun r => negb (String.eqb r "")
                       && (all_chars is_name_char r || all_chars is_digit r) = true) rest ->
      Forall (fun r => negb (String.eqb r "")
                       && (all_chars is_name_char r || all_chars is_digit r) = true)
             (flush cur rest)).
    { intros rest Hrest. destruct cur as [[[] r]|]; cbn [flush]; [| |exact Hrest];
        (constructor; [|exact Hrest]); apply andb_true_iff in Hcur as [-> ->];
        rewrite ?orb_true_r; reflexivity. }
    cbn [findall]. destruct (is_word c) eqn:Ew.
    + assert (Hname : is_name_char c = true).
      { unfold is_word in Ew. unfold is_name_char. destruct (Ascii.eqb c "-"); [discriminate|].
        rewrite orb_false_r in Ew. exact Ew. }
      destruct cur as [[[] r]|].
      * apply IH; [exact Hs|]. rewrite not_empty_app_one, all_chars_app. cbn [all_chars negb].
        apply andb_true_iff in Hcur as [_ ->]. rewrite Hname. reflexivity.
      * apply Hflush, IH; [exact Hs|]. cbn. rewrite Hname. reflexivity.
      * apply Hflush, IH; [exact Hs|]. cbn. rewrite Hname. reflexivity.
    + destruct (is_digit c) eqn:Ed.
      * destruct cur as [[[] r]|].
        -- apply Hflush, IH; [exact Hs|]. cbn. rewrite Ed. reflexivity.
        -- apply IH; [exact Hs|]. rewrite not_empty_app_one, all_chars_app. cbn [all_chars negb].
           apply andb_true_iff in Hcur as [_ ->]. rewrite Ed. reflexivity.
        -- apply Hflush, IH; [exact Hs|]. cbn. rewrite Ed. reflexivity.
      * apply Hflush, IH; [exact Hs|exact I].
Qed.

Lemma name_chars_free (sep : ascii) (r : string) :
  is_name_char sep = false -> all_chars is_name_char r = true -> free_of_char sep r = true.
Proof.
  intros Hsep. induction r as [|c r IH]; [reflexivity|]. cbn [all_chars]. rewrite free_cons.
  intros H. apply andb_true_iff in H as [Hc Hr]. rewrite (IH Hr), andb_true_r.
  destruct (Ascii.eqb_spec c sep) as [->|]; [congruence|reflexivity].
Qed.

Lemma name_chars_not_numeric (r : string) :
  String.eqb r "" = false -> all_chars is_name_char r = true -> isnumeric r = false.
Proof.
  intros Hne Hall. destruct r as [|c r]; [discriminate|]. unfold isnumeric.
  cbn [String.eqb negb all_chars andb] in *. apply andb_true_iff in Hall as [Hc _].
  destruct (is_digit c) eqn:Ed; [|reflexivity]. exfalso.
  unfold is_name_char, is_digit, is_lower in *.
  apply andb_true_iff in Ed as [_ Hhi]. apply Z.leb_le in Hhi.
  apply orb_true_iff in Hc as [Hc|Hc].
  - apply andb_true_iff in Hc as [Hlo _]. apply Z.leb_le in Hlo. lia.
  - apply Ascii.eqb_eq in Hc. subst c. vm_compute in Hhi. apply Hhi. reflexivity.
Qed.

Lemma plain_token_ok (tok : token) : plain_token tok = true -> token_ok tok = true.
Proof.
  destruct tok as [n|w]; cbn [plain_token token_ok]; [trivial|].
  intros H. apply andb_true_iff in H as [Hne Hall]. apply negb_true_iff in Hne.
  rewrite (name_chars_not_numeric w Hne Hall).
  rewrite (name_chars_free "." w eq_refl Hall), (name_chars_free "-" w eq_refl Hall).
  reflexivity.
Qed.

(** X12.  Every token that [strip_mcver] cuts out of a version string is a
    number that is not negative or a non-empty word of lower-case letters
    and underscores.  So the parsed version of a [ModVer], when it has a
    token at all, is read back from its own serialized text. *)
Theorem ModVer_version_has_plain_tokens (v : ModVer.t) :
  Forall (fun tok => plain_token tok = true) (Ver.version (ModVer.version v))
  /\ (Ver.version (ModVer.version v) <> [] ->
      Ver.deserialize (Ver.serialize (ModVer.version v)) = Ok (ModVer.version v)).
Proof.
  unfold ModVer.version. cbn [Ver.version]. unfold strip_mcver.
  set (text := replace_dash _).
  pose proof (findall_runs text None (replace_dash_free _) I) as Hruns.
  assert (Hshape : Forall (fun tok => plain_token tok = true)
                          (map maybe_int (findall None text))).
  { apply Forall_map. eapply Forall_impl; [|exact Hruns]. cbn beta.
    intros r Hr. apply andb_true_iff in Hr as [Hne Hkind]. unfold maybe_int.
    apply orb_true_iff in Hkind as [Hw|Hd].
    - rewrite (name_chars_not_numeric r (proj1 (negb_true_iff _) Hne) Hw).
      cbn [plain_token]. rewrite Hne, Hw. reflexivity.
    - assert (Hnum : isnumeric r = true) by (unfold isnumeric; rewrite Hne, Hd; reflexivity).
      rewrite Hnum. cbn [plain_token]. apply Z.leb_le, isnumeric_digits_val, Hnum. }
  split; [exact Hshape|]. intros Hne.
  apply (roundtrip_Ver (Ver.Ver (map maybe_int (findall None text)) (ModVer.version_type v))).
  unfold Ver_ok. cbn [Ver.version].
  destruct (map maybe_int (findall None text)) as [|tok toks] eqn:E; [contradiction|].
  apply forallb_forall. rewrite Forall_forall in Hshape. intros tok' Hin.
  apply plain_token_ok, Hshape, Hin.
Qed.

Lemma ModVer_version_has_plain_tokens_witness :
  let v := ModVer.ModVer "v1" "fabric-1.19.2-0.5.3_beta.jar" VerType.BETA None []
             (datetime.datetime 2023 1 10 12 0 0 0) [McVer.McVer 1 19 2 "" ""] in
  ModVer.version v = Ver.Ver [TInt 0; TInt 5; TInt 3; TStr "_"] VerType.BETA
  /\ Forall (fun tok => plain_token tok = true) (Ver.version (ModVer.version v))
  /\ Ver.deserialize (Ver.serialize (ModVer.version v)) = Ok (ModVer.version v).
Proof.
  split; [vm_compute; reflexivity|].
  destruct (ModVer_version_has_plain_tokens
              (ModVer.ModVer "v1" "fabric-1.19.2-0.5.3_beta.jar" VerType.BETA None []
                 (datetime.datetime 2023 1 10 12 0 0 0) [McVer.McVer 1 19 2 "" ""]))
    as [Hshape Hback].
  split; [exact Hshape|]. apply Hback. vm_compute. discriminate.
Defined.
(** ** ModVer: the order used for sorting *)

(** X13.  No [ModVer] is lower than itself: for equal parsed versions [<]
    compares the publish times.  But two versions whose tokens are the same
    numbers and whose maturity differs are each lower than the other, since
    [Ver.__lt__] then answers with a non-empty text both ways. *)
Theorem ModVer_lt_on_equal_tokens (a b : ModVer.t) (ns : list Z) :
  ModVer.__lt__ a a = PyBool false
  /\ (Ver.version (ModVer.version a) = map TInt ns ->
      Ver.version (ModVer.version b) = map TInt ns ->
      ModVer.version_type a <> ModVer.version_type b ->
      truthy (ModVer.__lt__ a b) = true /\ truthy (ModVer.__lt__ b a) = true).
Proof.
  split.
  - unfold ModVer.__lt__, Ver.__eq__. rewrite bool_decide_eq_true_2 by reflexivity.
    unfold datetime.__lt__. rewrite lex_lt_irrefl. reflexivity.
  - intros Ha Hb Hty.
    assert (Hne : ModVer.version a <> ModVer.version b).
    { intros E. apply Hty. unfold ModVer.version in E. congruence. }
    unfold ModVer.__lt__, Ver.__eq__.
    rewrite !bool_decide_eq_false_2 by congruence.
    unfold Ver.__lt__. rewrite Ha, Hb, lt_loop_ints_refl.
    split; apply repr_truthy.
Qed.

Lemma ModVer_lt_on_equal_tokens_witness :
  let a := ModVer.ModVer "a" "1.0.0" VerType.RELEASE None []
             (datetime.datetime 2023 1 10 12 0 0 0) [] in
  let b := ModVer.ModVer "b" "1.0.0-beta" VerType.BETA None []
             (datetime.datetime 2023 2 10 12 0 0 0) [] in
  ModVer.__lt__ a a = PyBool false
  /\ truthy (ModVer.__lt__ a b) = true /\ truthy (ModVer.__lt__ b a) = true.
Proof.
  destruct (ModVer_lt_on_equal_tokens
              (ModVer.ModVer "a" "1.0.0" VerType.RELEASE None []
                 (datetime.datetime 2023 1 10 12 0 0 0) [])
              (ModVer.ModVer "b" "1.0.0-beta" VerType.BETA None []
                 (datetime.datetime 2023 2 10 12 0 0 0) [])
              [1; 0; 0]) as [Hirr Hboth].
  split; [exact Hirr|]. apply Hboth; [reflexivity|reflexivity|discriminate].
Defined.

(** ** ModVerMatch.test: game versions and the fallback *)

(** X14.  A version that lists no game version is never accepted, whatever
    the match asks for (also when it asks for any game version): once the
    version criterion has answered, [test] returns [RESULT_FAIL]. *)
Theorem ModVerMatch_rejects_a_version_without_game_versions
  (self : ModVerMatch.t) (v : ModVer.t) (fallback ok : bool) :
  ModVer.mcversions v = [] ->
  VerMatch.__call__ (ModVerMatch.ver self) (ModVer.version v) = Ok ok ->
  ModVerMatch.test self v fallback = Ok ModVerMatch.RESULT_FAIL
  /\ ModVerMatch.accepts self fallback v = Ok false.
Proof.
  intros Hmc Hver.
  assert (Htest : ModVerMatch.test self v fallback = Ok ModVerMatch.RESULT_FAIL).
  { unfold ModVerMatch.test, ModVerMatch.fallback_accepts. rewrite Hver, Hmc.
    cbn [mbind result_bind any_map].
    destruct (negb ok); [reflexivity|].
    destruct (ModVerMatch.loader_rejects self v); [reflexivity|].
    destruct (ModVerMatch.substring_rejects self v); [reflexivity|].
    destruct fallback; [|reflexivity].
    destruct (ModVerMatch.mcver_fallback self) as [fb|]; [|reflexivity].
    destruct (McVerMatch.__bool__ fb); reflexivity. }
  split; [exact Htest|]. unfold ModVerMatch.accepts. rewrite Htest. reflexivity.
Qed.

Lemma ModVerMatch_rejects_a_version_without_game_versions_witness :
  let mvm := ModVerMatch.ModVerMatch VerMatch.ANY None McVerMatch.ANY (Some McVerMatch.ANY) None in
  let v := ModVer.ModVer "v1" "1.0.0" VerType.RELEASE None []
             (datetime.datetime 2023 1 10 12 0 0 0) [] in
  ModVerMatch.test mvm v true = Ok ModVerMatch.RESULT_FAIL
  /\ ModVerMatch.accepts mvm true v = Ok false.
Proof.
  apply (ModVerMatch_rejects_a_version_without_game_versions
           (ModVerMatch.ModVerMatch VerMatch.ANY None McVerMatch.ANY (Some McVerMatch.ANY) None)
           (ModVer.ModVer "v1" "1.0.0" VerType.RELEASE None []
              (datetime.datetime 2023 1 10 12 0 0 0) [])
           true true); reflexivity.
Defined.

Lemma test_primary_agree (self : ModVerMatch.t) (v : ModVer.t) :
  (forall r, ModVerMatch.test_no_fallback self v = Ok r ->
             r = ModVerMatch.RESULT_FAIL \/ r = ModVerMatch.RESULT_SUCCESS)
  /\ (ModVerMatch.test self v true = Ok ModVerMatch.RESULT_SUCCESS ->
      ModVerMatch.test_no_fallback self v = Ok ModVerMatch.RESULT_SUCCESS).
Proof.
  unfold ModVerMatch.test_no_fallback, ModVerMatch.test, ModVerMatch.fallback_accepts.
  destruct (VerMatch.__call__ (ModVerMatch.ver self) (ModVer.version v)) as [ok|e];
    cbn [mbind result_bind]; [|split; intros; discriminate].
  destruct (negb ok); [split; [intros r H; injection H as <-; left; reflexivity|discriminate]|].
  destruct (ModVerMatch.loader_rejects self v);
    [split; [intros r H; injection H as <-; left; reflexivity|discriminate]|].
  destruct (ModVerMatch.substring_rejects self v);
    [split; [intros r H; injection H as <-; left; reflexivity|discriminate]|].
  destruct (any_map (McVerMatch.__call__ (ModVerMatch.mcver self)) (ModVer.mcversions v))
    as [[|]|e]; cbn [mbind result_bind].
  - split; [intros r H; injection H as <-; right; reflexivity|reflexivity].
  - split; [intros r H; injection H as <-; left; reflexivity|].
    destruct (ModVerMatch.mcver_fallback self) as [fb|]; [|discriminate].
    destruct (McVerMatch.__bool__ fb); [|discriminate].
    destruct (any_map (McVerMatch.__call__ fb) (ModVer.mcversions v)) as [[|]|e];
      discriminate.
  - split; intros; discriminate.
Qed.

(** X15.  The fallback only ever turns a failure into [RESULT_FALLBACK]:
    [test_no_fallback] answers [RESULT_FAIL] or [RESULT_SUCCESS]; [test]
    answers [RESULT_SUCCESS] exactly when [test_no_fallback] does; when
    [test] answers [RESULT_FALLBACK], [test_no_fallback] answers
    [RESULT_FAIL]; and with no fallback match, or with [McVerMatch.ANY] as
    the fallback, the two agree. *)
Theorem ModVerMatch_fallback_only_upgrades_a_failure (self : ModVerMatch.t) (v : ModVer.t) :
  (forall r, ModVerMatch.test_no_fallback self v = Ok r ->
             r = ModVerMatch.RESULT_FAIL \/ r = ModVerMatch.RESULT_SUCCESS)
  /\ (ModVerMatch.test self v true = Ok ModVerMatch.RESULT_SUCCESS
      <-> ModVerMatch.test_no_fallback self v = Ok ModVerMatch.RESULT_SUCCESS)
  /\ (ModVerMatch.test self v true = Ok ModVerMatch.RESULT_FALLBACK ->
      ModVerMatch.test_no_fallback self v = Ok ModVerMatch.RESULT_FAIL)
  /\ (ModVerMatch.test self v true = Ok ModVerMatch.RESULT_FAIL ->
      ModVerMatch.test_no_fallback self v = Ok ModVerMatch.RESULT_FAIL)
  /\ (match ModVerMatch.mcver_fallback self with
      | None => True
      | Some fb => McVerMatch.__bool__ fb = false
      end ->
      ModVerMatch.test self v true = ModVerMatch.test_no_fallback self v).
Proof.
  unfold ModVerMatch.test_no_fallback, ModVerMatch.test, ModVerMatch.fallback_accepts.
  destruct (VerMatch.__call__ (ModVerMatch.ver self) (ModVer.version v)) as [ok|e];
    cbn [mbind result_bind].
  2:{ repeat split; try discriminate; intros; discriminate. }
  destruct (negb ok).
  { repeat split; try discriminate; intros r; try (intros H; injection H as <-); auto. }
  destruct (ModVerMatch.loader_rejects self v).
  { repeat split; try discriminate; intros r; try (intros H; injection H as <-); auto. }
  destruct (ModVerMatch.substring_rejects self v).
  { repeat split; try discriminate; intros r; try (intros H; injection H as <-); auto. }
  destruct (any_map (McVerMatch.__call__ (ModVerMatch.mcver self)) (ModVer.mcversions v))
    as [[|]|e]; cbn [mbind result_bind].
  - repeat split; try discriminate; intros r; try (intros H; injection H as <-); auto.
  - destruct (ModVerMatch.mcver_fallback self) as [fb|].
    + destruct (McVerMatch.__bool__ fb).
      * destruct (any_map (McVerMatch.__call__ fb) (ModVer.mcversions v)) as [[|]|e];
          cbn [mbind result_bind];
          repeat split; try discriminate; try reflexivity;
          intros r; try (intros H; injection H as <-); auto.
      * cbn [mbind result_bind].
        repeat split; try discriminate; try reflexivity;
          intros r; try (intros H; injection H as <-); auto.
    + cbn [mbind result_bind].
      repeat split; try discriminate; try reflexivity;
        intros r; try (intros H; injection H as <-); auto.
  - repeat split; try discriminate; intros; discriminate.
Qed.

Lemma ModVerMatch_fallback_only_upgrades_a_failure_witness :
  let self := ModVerMatch.ModVerMatch VerMatch.ANY None
                (McVerMatch.McVerMatch (Some (McVer.McVer 1 19 2 "" "")) "")
                (Some (McVerMatch.McVerMatch (Some (McVer.McVer 1 19 2 "" "")) "^")) None in
  let v := ModVer.ModVer "v1" "1.0.0" VerType.RELEASE None []
             (datetime.datetime 2023 1 10 12 0 0 0) [McVer.McVer 1 19 1 "" ""] in
  ModVerMatch.test self v true = Ok ModVerMatch.RESULT_FALLBACK
  /\ ModVerMatch.test_no_fallback self v = Ok ModVerMatch.RESULT_FAIL.
Proof.
  destruct (ModVerMatch_fallback_only_upgrades_a_failure
              (ModVerMatch.ModVerMatch VerMatch.ANY None
                 (McVerMatch.McVerMatch (Some (McVer.McVer 1 19 2 "" "")) "")
                 (Some (McVerMatch.McVerMatch (Some (McVer.McVer 1 19 2 "" "")) "^")) None)
              (ModVer.ModVer "v1" "1.0.0" VerType.RELEASE None []
                 (datetime.datetime 2023 1 10 12 0 0 0) [McVer.McVer 1 19 1 "" ""]))
    as (_ & _ & Hfallback & _).
  split; [reflexivity|]. apply Hfallback. reflexivity.
Defined.
(** ** ModInfo: the version list and the selection *)

(** X16.  The constructor of [ModInfo] only reorders the versions it is
    given: the stored list is a permutation of them.  So [get_version]
    finds a version with the wanted id exactly when one was given, and what
    it finds is one of the given versions with that id. *)
Theorem ModInfo_keeps_the_given_versions (checked : datetime.t) (desc : ModDesc.t)
  (vs : list ModVer.t) (vi : list (string * ModVerInfo.t)) (id : string) :
  let info := ModInfo.ModInfo checked desc vs vi in
  Permutation (ModInfo.versions info) vs
  /\ (ModInfo.get_version info id = None <-> forall v, In v vs -> ModVer.id v <> id)
  /\ (forall v, ModInfo.get_version info id = Some v -> In v vs /\ ModVer.id v = id).
Proof.
  cbn zeta. unfold ModInfo.get_version, ModInfo.ModInfo. cbn [ModInfo.versions].
  pose proof (sorted_perm ModInfo.ver_lt true vs) as Hperm.
  split; [exact Hperm|]. split.
  - split.
    + intros Hnone v Hin E.
      pose proof (find_none _ _ Hnone v) as Hv. cbn beta in Hv.
      rewrite (proj2 (String.eqb_eq _ _) E) in Hv.
      assert (true = false) as Habs; [|discriminate Habs].
      apply Hv. eapply Permutation_in; [symmetry; exact Hperm|exact Hin].
    + intros Hall.
      destruct (List.find _ (sorted ModInfo.ver_lt true vs)) as [v|] eqn:E; [|reflexivity].
      apply find_some in E as [Hin Hid]. apply String.eqb_eq in Hid.
      exfalso. apply (Hall v); [|exact Hid]. eapply Permutation_in; [exact Hperm|exact Hin].
  - intros v E. apply find_some in E as [Hin Hid]. apply String.eqb_eq in Hid.
    split; [|exact Hid]. eapply Permutation_in; [exact Hperm|exact Hin].
Qed.

Lemma ModInfo_keeps_the_given_versions_witness :
  let info := ModInfo.ModInfo Examples.mar_10 Examples.desc_a
                [Examples.v_0_9_1_for_1_19; Examples.v_2_0_0_for_1_20] [] in
  ModInfo.versions info = [Examples.v_2_0_0_for_1_20; Examples.v_0_9_1_for_1_19]
  /\ In Examples.v_0_9_1_for_1_19 [Examples.v_0_9_1_for_1_19; Examples.v_2_0_0_for_1_20]
  /\ ModVer.id Examples.v_0_9_1_for_1_19 = "v0".
Proof.
  split; [vm_compute; reflexivity|].
  apply (ModInfo_keeps_the_given_versions Examples.mar_10 Examples.desc_a
           [Examples.v_0_9_1_for_1_19; Examples.v_2_0_0_for_1_20] [] "v0").
  vm_compute. reflexivity.
Defined.

Lemma filter_result_spec {A} (p : A -> result bool) (l r : list A) :
  filter_result p l = Ok r ->
  forall x, In x r <-> In x l /\ p x = Ok true.
Proof.
  revert r. induction l as [|y l IH]; intros r.
  - intros H. injection H as <-. intros x. split; [contradiction|intros [[] _]].
  - cbn [filter_result]. destruct (p y) as [b|e] eqn:Ey; [|discriminate].
    destruct (filter_result p l) as [rest|e]; [|discriminate].
    cbn [mbind result_bind mret result_ret]. intros H. injection H as <-.
    specialize (IH rest eq_refl). intros x. destruct b; cbn [In]; rewrite ?IH.
    + split.
      * intros [->|[Hin Hp]]; [split; [left; reflexivity|exact Ey]|].
        split; [right; exact Hin|exact Hp].
      * intros [[->|Hin] Hp]; [left; reflexivity|right; split; assumption].
    + split.
      * intros [Hin Hp]. split; [right; exact Hin|exact Hp].
      * intros [[->|Hin] Hp]; [congruence|split; assumption].
Qed.

Lemma accepts_true_iff (self : ModVerMatch.t) (fallback : bool) (v : ModVer.t) :
  ModVerMatch.accepts self fallback v = Ok true
  <-> ModVerMatch.test self v fallback = Ok ModVerMatch.RESULT_SUCCESS
      \/ ModVerMatch.test self v fallback = Ok ModVerMatch.RESULT_FALLBACK.
Proof.
  unfold ModVerMatch.accepts, ModVerMatch.test, ModVerMatch.fallback_accepts.
  destruct (VerMatch.__call__ _ _) as [ok|e]; cbn [mbind result_bind];
    [|split; [discriminate|intros [H|H]; discriminate]].
  destruct (negb ok); [split; [discriminate|intros [H|H]; discriminate]|].
  destruct (ModVerMatch.loader_rejects self v);
    [split; [discriminate|intros [H|H]; discriminate]|].
  destruct (ModVerMatch.substring_rejects self v);
    [split; [discriminate|intros [H|H]; discriminate]|].
  destruct (any_map _ _) as [[|]|e]; cbn [mbind result_bind];
    [split; [left; reflexivity|reflexivity]| |split; [discriminate|intros [H|H]; discriminate]].
  destruct fallback; [|split; [discriminate|intros [H|H]; discriminate]].
  destruct (ModVerMatch.mcver_fallback self) as [fb|];
    [|split; [discriminate|intros [H|H]; discriminate]].
  destruct (McVerMatch.__bool__ fb); [|split; [discriminate|intros [H|H]; discriminate]].
  destruct (any_map _ _) as [[|]|e]; cbn [mbind result_bind];
    [split; [right; reflexivity|reflexivity]
    |split; [discriminate|intros [H|H]; discriminate]..].
Qed.

(** X17.  What [get_versions] returns is a reordering of accepted versions
    of the mod, and fallback matches are used only when nothing matches
    without the fallback: if some version passes [test_no_fallback], the
    result holds exactly the versions that pass it; otherwise it holds
    exactly the versions for which [test] answers [RESULT_FALLBACK].
    [get_latest_version] is the head of that list. *)
Theorem get_versions_prefers_primary_matches (info : ModInfo.t) (mvm : ModVerMatch.t)
  (accepted : list ModVer.t) :
  ModInfo.get_versions info mvm = Ok accepted ->
  let primary v := ModVerMatch.test_no_fallback mvm v = Ok ModVerMatch.RESULT_SUCCESS in
  let by_fallback v := ModVerMatch.test mvm v true = Ok ModVerMatch.RESULT_FALLBACK in
  ((exists v, In v (ModInfo.versions info) /\ primary v) ->
     forall v, In v accepted <-> In v (ModInfo.versions info) /\ primary v)
  /\ ((forall v, In v (ModInfo.versions info) -> ~ primary v) ->
     forall v, In v accepted <-> In v (ModInfo.versions info) /\ by_fallback v)
  /\ ModInfo.get_latest_version info mvm = Ok (head accepted).
Proof.
  intros Hget. cbn zeta.
  assert (Hlatest : ModInfo.get_latest_version info mvm = Ok (head accepted)).
  { unfold ModInfo.get_latest_version. rewrite Hget. reflexivity. }
  revert Hget. unfold ModInfo.get_versions.
  destruct (filter_result (ModVerMatch.accepts mvm false) (ModInfo.versions info))
    as [vs|e] eqn:Eprimary; [|discriminate].
  pose proof (filter_result_spec _ _ _ Eprimary) as Hvs.
  assert (Hprim : forall v, ModVerMatch.accepts mvm false v = Ok true
                            <-> ModVerMatch.test_no_fallback mvm v
                                = Ok ModVerMatch.RESULT_SUCCESS).
  { intros v. rewrite accepts_true_iff. unfold ModVerMatch.test_no_fallback.
    split; [|intros H; left; exact H]. intros [H|H]; [exact H|].
    destruct (test_primary_agree mvm v) as [Hno _]. exfalso.
    destruct (Hno _ H) as [E|E]; discriminate E. }
  cbn [mbind result_bind].
  destruct vs as [|v0 vs'] eqn:Evs.
  - destruct (filter_result (ModVerMatch.accepts mvm true) (ModInfo.versions info))
      as [ws|e] eqn:Efallback; [|discriminate].
    cbn [mbind result_bind mret result_ret]. intros H. injection H as <-.
    pose proof (filter_result_spec _ _ _ Efallback) as Hws.
    assert (Hnone : forall v, In v (ModInfo.versions info) ->
                              ModVerMatch.test_no_fallback mvm v
                              <> Ok ModVerMatch.RESULT_SUCCESS).
    { intros v Hin Hp. apply (proj2 (Hvs v)). split; [exact Hin|apply Hprim, Hp]. }
    split; [|split; [|exact Hlatest]].
    + intros (v & Hin & Hp). exfalso. exact (Hnone v Hin Hp).
    + intros _ v. rewrite (sorted_In ModInfo.ver_lt true ws v), Hws, accepts_true_iff.
      split; [|intros [Hin Hfb]; split; [exact Hin|right; exact Hfb]].
      intros [Hin [Hs|Hfb]]; [|split; assumption]. exfalso. apply (Hnone v Hin).
      apply (test_primary_agree mvm v). exact Hs.
  - cbn [mret result_ret]. intros H. injection H as <-.
    split; [|split; [|exact Hlatest]].
    + intros _ v. rewrite (sorted_In ModInfo.ver_lt true (v0 :: vs') v), Hvs, Hprim.
      reflexivity.
    + intros Hnone v. exfalso.
      assert (Hin0 : In v0 (v0 :: vs')) by (left; reflexivity).
      apply Hvs in Hin0 as [Hin0 Hp0]. apply (Hnone v0 Hin0), Hprim, Hp0.
Qed.
Lemma get_versions_prefers_primary_matches_witness :
  ModInfo.get_versions Examples.info_late_backport Examples.mvm_1_19_2
    = Ok [Examples.v_1_0_0_for_1_19; Examples.v_0_9_1_for_1_19]
  /\ ModInfo.get_latest_version Examples.info_late_backport Examples.mvm_1_19_2
     = Ok (head [Examples.v_1_0_0_for_1_19; Examples.v_0_9_1_for_1_19]).
Proof.
  split; [vm_compute; reflexivity|].
  destruct (get_versions_prefers_primary_matches Examples.info_late_backport
              Examples.mvm_1_19_2 [Examples.v_1_0_0_for_1_19; Examples.v_0_9_1_for_1_19])
    as (_ & _ & Hlatest); [vm_compute; reflexivity|exact Hlatest].
Defined.

(** ** find_version: a mod without an acceptable version *)

(** X18.  When the descriptor is at hand and no version of the mod is
    accepted, [find_version] raises [AttributeError] (it reads
    [latest.published] on [None]): no version detail is requested from the
    backend and no warning is recorded. *)
Theorem find_version_without_accepted_version (manager manager' : ModInfoManager.t)
  (now : datetime.t) (r : Z) (name : string) (type : Type_.t) (source : SourceType.t)
  (mvm : ModVerMatch.t) (warnings : Warnings.t) (info : ModInfo.t) :
  ModInfoManager.get_modinfo manager now r source type name = (Ok info, manager') ->
  ModInfo.get_versions info mvm = Ok [] ->
  find_version manager now r name type source mvm warnings
  = (Raise AttributeError, manager', warnings).
Proof.
  intros Hget Hnone. unfold find_version, select_version, ModInfo.get_latest_version.
  rewrite Hget, Hnone. reflexivity.
Qed.

Lemma find_version_without_accepted_version_witness :
  find_version (Examples.manager_with Examples.info_newer_elsewhere) Examples.mar_10_13h
               21600 "mod-a" Type_.MOD SourceType.MODRINTH
               (ModVerMatch.ModVerMatch VerMatch.ANY None
                  (McVerMatch.McVerMatch (Some (McVer.McVer 1 12 2 "" "")) "") None None)
               []
  = (Raise AttributeError, Examples.manager_with Examples.info_newer_elsewhere, []).
Proof.
  apply (find_version_without_accepted_version
           (Examples.manager_with Examples.info_newer_elsewhere)
           (Examples.manager_with Examples.info_newer_elsewhere)
           Examples.mar_10_13h 21600 "mod-a" Type_.MOD SourceType.MODRINTH
           (ModVerMatch.ModVerMatch VerMatch.ANY None
              (McVerMatch.McVerMatch (Some (McVer.McVer 1 12 2 "" "")) "") None None)
           [] Examples.info_newer_elsewhere); vm_compute; reflexivity.
Defined.

(** ** The document written for a dataclass *)

Lemma kept_required {T} (c : codec T) (k : string) (x : T)
  (fs : list (string * option json)) :
  kept ((k, get_serializer c x) :: fs) = (k, _get_serializer c x) :: kept fs.
Proof. reflexivity. Qed.

Lemma kept_optional {T} (c : codec T) (k : string) (o : option T)
  (fs : list (string * option json)) :
  map fst (kept ((k, get_serializer_opt c o) :: fs))
  = (match o with Some _ => [k] | None => [] end ++ map fst (kept fs))%list.
Proof. destruct o; reflexivity. Qed.

(** X19.  The document written for a [ModDesc] is a dictionary that lists
    the three required fields [id], [type] and [name] and, after them and
    in the order of declaration, exactly the optional fields that are set:
    a field that is [None] is left out. *)
Theorem ModDesc_document_omits_unset_fields (d : ModDesc.t) :
  exists m,
    serialize ModDesc_codec d = JDict m
    /\ map fst m
       = (["id"; "type"; "name"]
         ++ match ModDesc.title d with Some _ => ["title"] | None => [] end
         ++ match ModDesc.updated d with Some _ => ["updated"] | None => [] end
         ++ match ModDesc.created d with Some _ => ["created"] | None => [] end
         ++ match ModDesc.license d with Some _ => ["license"] | None => [] end
         ++ match ModDesc.short_desc d with Some _ => ["short_desc"] | None => [] end
         ++ match ModDesc.desc d with Some _ => ["desc"] | None => [] end
         ++ match ModDesc.client_side d with Some _ => ["client_side"] | None => [] end
         ++ match ModDesc.server_side d with Some _ => ["server_side"] | None => [] end
         ++ match ModDesc.issues_url d with Some _ => ["issues_url"] | None => [] end
         ++ match ModDesc.source_url d with Some _ => ["source_url"] | None => [] end
         ++ match ModDesc.wiki_url d with Some _ => ["wiki_url"] | None => [] end
         ++ match ModDesc.discord_url d with Some _ => ["discord_url"] | None => [] end)%list.
Proof.
  eexists. split; [reflexivity|].
  rewrite !kept_required. cbn [map fst app]. do 3 f_equal.
  rewrite !kept_optional. cbn [kept omap map]. rewrite app_nil_r. reflexivity.
Qed.

(** ** Reading a dataclass from a document *)

Lemma dict_get_app_other {V} (k k' : string) (v : V) (m : list (string * V)) :
  k' <> k -> dict_get k (m ++ [(k', v)])%list = dict_get k m.
Proof.
  intros Hne. induction m as [|[k0 v0] m IH]; cbn [app dict_get].
  - destruct (String.eqb_spec k' k); [contradiction|reflexivity].
  - destruct (String.eqb k0 k); [reflexivity|exact IH].
Qed.

Lemma dict_get_In {V} (k : string) (v : V) (m : list (string * V)) :
  List.NoDup (map fst m) -> In (k, v) m -> dict_get k m = Some v.
Proof.
  induction m as [|[k0 v0] m IH]; [contradiction|]. cbn [map fst dict_get In].
  intros Hnd [E|Hin].
  - injection E as -> ->. rewrite String.eqb_refl. reflexivity.
  - apply List.NoDup_cons_iff in Hnd as [Hk0 Hnd].
    destruct (String.eqb_spec k0 k) as [->|]; [|apply IH; assumption].
    exfalso. apply Hk0. apply in_map_iff. exists (k, v). split; [reflexivity|exact Hin].
Qed.

Lemma dict_get_Some_In {V} (k : string) (v : V) (m : list (string * V)) :
  dict_get k m = Some v -> In (k, v) m.
Proof.
  induction m as [|[k0 v0] m IH]; [discriminate|]. cbn [dict_get].
  destruct (String.eqb_spec k0 k) as [->|]; [intros E; injection E as ->; left; reflexivity|].
  intros E. right. apply IH, E.
Qed.

Lemma dict_get_None {V} (k : string) (m : list (string * V)) :
  dict_get k m = None <-> ~ In k (map fst m).
Proof.
  induction m as [|[k0 v0] m IH]; cbn [map fst dict_get In]; [tauto|].
  destruct (String.eqb_spec k0 k) as [->|]; [split; [discriminate|tauto]|].
  rewrite IH. tauto.
Qed.

Lemma dict_get_perm {V} (k : string) (m1 m2 : list (string * V)) :
  List.NoDup (map fst m1) -> Permutation m1 m2 -> dict_get k m1 = dict_get k m2.
Proof.
  intros Hnd Hperm.
  assert (Hnd2 : List.NoDup (map fst m2)).
  { eapply Permutation_NoDup; [apply Permutation_map; exact Hperm|exact Hnd]. }
  destruct (dict_get k m1) as [v|] eqn:E1.
  - symmetry. apply dict_get_In; [exact Hnd2|].
    eapply Permutation_in; [exact Hperm|]. apply dict_get_Some_In, E1.
  - symmetry. apply dict_get_None. apply dict_get_None in E1. intros Hin. apply E1.
    eapply Permutation_in; [symmetry; apply Permutation_map; exact Hperm|exact Hin].
Qed.

(** X20.  [deserialize(ModInfo, ...)] reads the four fields of the document
    by name and nothing else: two dictionaries that agree on the keys
    [checked], [mod_desc], [versions] and [version_info] are read alike.  So
    an additional key is ignored, and the order of the keys plays no part. *)
Theorem ModInfo_is_read_by_field_name :
  (forall m1 m2 : list (string * json),
     (forall k, In k ["checked"; "mod_desc"; "versions"; "version_info"] ->
                dict_get k m1 = dict_get k m2) ->
     deserialize ModInfo_codec (JDict m1) = deserialize ModInfo_codec (JDict m2))
  /\ (forall (m : list (string * json)) (k : string) (v : json),
        ~ In k ["checked"; "mod_desc"; "versions"; "version_info"] ->
        deserialize ModInfo_codec (JDict (m ++ [(k, v)])%list)
        = deserialize ModInfo_codec (JDict m))
  /\ (forall m1 m2 : list (string * json),
        List.NoDup (map fst m1) -> Permutation m1 m2 ->
        deserialize ModInfo_codec (JDict m1) = deserialize ModInfo_codec (JDict m2)).
Proof.
  assert (Hagree : forall m1 m2 : list (string * json),
     (forall k, In k ["checked"; "mod_desc"; "versions"; "version_info"] ->
                dict_get k m1 = dict_get k m2) ->
     deserialize ModInfo_codec (JDict m1) = deserialize ModInfo_codec (JDict m2)).
  { intros m1 m2 H. unfold deserialize, ModInfo_codec, _get_parser, pss.
    rewrite (H "checked"), (H "mod_desc"), (H "versions"), (H "version_info");
      [reflexivity|cbn; tauto..]. }
  split; [exact Hagree|]. split.
  - intros m k v Hk. apply Hagree. intros f Hf. apply dict_get_app_other.
    intros ->. contradiction.
  - intros m1 m2 Hnd Hperm. apply Hagree. intros f _. apply dict_get_perm; assumption.
Qed.

Lemma ModInfo_is_read_by_field_name_witness :
  let document := [("checked", JStr "2023-01-10T12:00:00"); ("mod_desc", JNull)] in
  deserialize ModInfo_codec (JDict (document ++ [("schema", JInt 2)])%list)
  = deserialize ModInfo_codec (JDict document)
  /\ deserialize ModInfo_codec (JDict (rev document)) = deserialize ModInfo_codec (JDict document).
Proof.
  destruct ModInfo_is_read_by_field_name as (_ & Hextra & Horder).
  split.
  - apply Hextra. cbn. intros H. repeat (destruct H as [H|H]; [discriminate|]). exact H.
  - symmetry. apply Horder; [|apply Permutation_rev].
    cbn. repeat constructor; cbn; intros H;
      repeat (destruct H as [H|H]; [discriminate|]); exact H.
Defined.

(** X21.  A document can only be read as a [ModInfo] if it is a dictionary
    that holds the four required keys: anything that is not a dictionary,
    and a dictionary without [checked], raise [TypeError], and whenever
    reading succeeds the keys [checked], [mod_desc], [versions] and
    [version_info] are all present. *)
Theorem ModInfo_document_needs_its_required_keys (x : json) :
  (match x with JDict _ => False | _ => True end ->
   deserialize ModInfo_codec x = Raise TypeError)
  /\ (forall m, x = JDict m -> dict_get "checked" m = None ->
                deserialize ModInfo_codec x = Raise TypeError)
  /\ (forall m i, x = JDict m -> deserialize ModInfo_codec x = Ok i ->
                  Forall (fun k => In k (map fst m))
                         ["checked"; "mod_desc"; "versions"; "version_info"]).
Proof.
  split; [|split].
  - destruct x; (contradiction || reflexivity || intros _; reflexivity).
  - intros m -> Hnone. unfold deserialize, ModInfo_codec, _get_parser, pss.
    rewrite Hnone. reflexivity.
  - intros m i ->. unfold deserialize, ModInfo_codec, _get_parser, pss.
    assert (Hpresent : forall k, dict_get k m <> None -> In k (map fst m)).
    { intros k Hk. destruct (in_dec string_dec k (map fst m)) as [Hin|Hout]; [exact Hin|].
      apply dict_get_None in Hout. contradiction. }
    destruct (dict_get "checked" m) eqn:E1; [|discriminate].
    destruct (get_parser datetime_codec (Some j)); [|discriminate]. cbn [mbind result_bind].
    destruct (dict_get "mod_desc" m) eqn:E2; [|discriminate].
    destruct (get_parser ModDesc_codec (Some j0)); [|discriminate]. cbn [mbind result_bind].
    destruct (dict_get "versions" m) eqn:E3; [|discriminate].
    destruct (get_parser (list_codec ModVer_codec) (Some j1)); [|discriminate].
    cbn [mbind result_bind].
    destruct (dict_get "version_info" m) eqn:E4; [|discriminate].
    intros _. repeat constructor; apply Hpresent; congruence.
Qed.

Lemma ModInfo_document_needs_its_required_keys_witness :
  deserialize ModInfo_codec (JList []) = Raise TypeError
  /\ deserialize ModInfo_codec (JDict [("mod_desc", JNull)]) = Raise TypeError.
Proof.
  split.
  - apply (ModInfo_document_needs_its_required_keys (JList [])). exact I.
  - destruct (ModInfo_document_needs_its_required_keys (JDict [("mod_desc", JNull)]))
      as (_ & Hmissing & _).
    apply (Hmissing [("mod_desc", JNull)]); reflexivity.
Defined.
(** ** ModInfoCache: storing and finding *)

Lemma set_cache (self : ModInfoCache.t) (src : SourceType.t) (value : ModInfo.t) :
  ModInfoCache.cache (snd (ModInfoCache.set self src value))
  = <[(ModInfoCache.by_name, src, ModInfo.name value) := ModInfoCache.Info value]>
      (<[(ModInfoCache.by_id, src, ModInfo.id value) := ModInfoCache.Info value]>
         (ModInfoCache.cache self)).
Proof.
  unfold ModInfoCache.set.
  destruct (ModInfoCache._path_by ModInfoCache.by_id src (ModInfo.id value)); [|reflexivity].
  destruct (ModInfoCache._path_by ModInfoCache.by_name src (ModInfo.name value));
    [|reflexivity].
  destruct (ModInfoCache.read _ _); [reflexivity|].
  destruct (_ !! _); reflexivity.
Qed.

Lemma get_by_cached (by_ : ModInfoCache.by_) (c : ModInfoCache.t) (src : SourceType.t)
  (id : string) (info : ModInfo.t) :
  ModInfoCache.cache c !! (by_, src, id) = Some (ModInfoCache.Info info) ->
  ModInfoCache._get_by by_ c src id = (Ok (Some info), c).
Proof. intros H. unfold ModInfoCache._get_by. rewrite H. reflexivity. Qed.

(** X22.  What [ModInfoCache.set] is given can be found again at once, by
    id and by name, from the in-memory dictionary alone: the lookups return
    the stored value and leave the cache as it is.  This holds also when
    [set] itself raises (a name that is no file name, a source without a
    directory), because the dictionary is written first. *)
Theorem ModInfoCache_set_then_get (self : ModInfoCache.t) (src : SourceType.t)
  (value : ModInfo.t) :
  let c := snd (ModInfoCache.set self src value) in
  ModInfoCache.get_by_id c src (ModInfo.id value) = (Ok (Some value), c)
  /\ ModInfoCache.get_by_name c src (ModInfo.name value) = (Ok (Some value), c).
Proof.
  cbn zeta. split; apply get_by_cached; rewrite set_cache.
  - rewrite lookup_insert_ne by discriminate. apply lookup_insert_eq.
  - apply lookup_insert_eq.
Qed.

Lemma read_insert_document (disk : gmap ModInfoCache.key ModInfoCache.file)
  (p : ModInfoCache.key) (content : option json) :
  ModInfoCache.read (<[p := ModInfoCache.Document content]> disk) p = Some content.
Proof. unfold ModInfoCache.read. rewrite lookup_insert_eq. reflexivity. Qed.

(** X23.  What [ModInfoCache.set] has stored is found by a cache that starts
    with an empty dictionary over the same files: if [set] returns and the
    value is one that the codec reads back, [get_by_id] loads it from the
    file, and so does [get_by_name] when no file of that name existed
    before (the link that [set] creates leads to the stored file). *)
Theorem ModInfoCache_stored_value_is_loaded_again (self c : ModInfoCache.t)
  (src : SourceType.t) (value : ModInfo.t) :
  ModInfo_ok value = true ->
  ModInfoCache.set self src value = (Ok value, c) ->
  let fresh := ModInfoCache.ModInfoCache ∅ (ModInfoCache.disk c) in
  fst (ModInfoCache.get_by_id fresh src (ModInfo.id value)) = Ok (Some value)
  /\ (ModInfoCache.disk self !! (ModInfoCache.by_name, src, ModInfo.name value) = None ->
      fst (ModInfoCache.get_by_name fresh src (ModInfo.name value)) = Ok (Some value)).
Proof.
  intros Hok. unfold ModInfoCache.set.
  destruct (ModInfoCache._path_by ModInfoCache.by_id src (ModInfo.id value))
    as [pid|e] eqn:Eid; [|discriminate].
  destruct (ModInfoCache._path_by ModInfoCache.by_name src (ModInfo.name value))
    as [pname|e] eqn:Ename; [|discriminate].
  assert (Hpid : pid = (ModInfoCache.by_id, src, ModInfo.id value)).
  { unfold ModInfoCache._path_by in Eid. destruct src; try discriminate;
      destruct (contains "/" _); try discriminate; injection Eid as <-; reflexivity. }
  assert (Hpname : pname = (ModInfoCache.by_name, src, ModInfo.name value)).
  { unfold ModInfoCache._path_by in Ename. destruct src; try discriminate;
      destruct (contains "/" _); try discriminate; injection Ename as <-; reflexivity. }
  assert (Hload : ModInfoCache.load (Some (serialize ModInfo_codec value)) = Ok value).
  { unfold ModInfoCache.load. apply roundtrip_ModInfo, Hok. }
  set (doc := ModInfoCache.Document (Some (serialize ModInfo_codec value))).
  assert (Hget : forall by_ id (disk : gmap ModInfoCache.key ModInfoCache.file),
    ModInfoCache._path_by by_ src id = Ok (by_, src, id) ->
    ModInfoCache.read disk (by_, src, id) = Some (Some (serialize ModInfo_codec value)) ->
    fst (ModInfoCache._get_by by_ (ModInfoCache.ModInfoCache ∅ disk) src id)
    = Ok (Some value)).
  { intros by_ id disk Hpath Hread. unfold ModInfoCache._get_by.
    cbn [ModInfoCache.cache ModInfoCache.disk]. rewrite lookup_empty, Hpath, Hread, Hload.
    reflexivity. }
  rewrite Hpid in Eid. rewrite Hpname in Ename. subst pid pname.
  destruct (ModInfoCache.read _ (ModInfoCache.by_name, src, ModInfo.name value))
    as [found|] eqn:Eread.
  - intros H. injection H as <-. cbn zeta. cbn [ModInfoCache.disk]. split.
    + apply Hget; [exact Eid|apply read_insert_document].
    + intros Habsent. exfalso. revert Eread. unfold ModInfoCache.read.
      rewrite lookup_insert_ne by discriminate. unfold ModInfoCache.key in *.
      rewrite Habsent. discriminate.
  - rewrite lookup_insert_ne by discriminate.
    destruct (ModInfoCache.disk self !! _) eqn:Elook; [discriminate|].
    intros H. injection H as <-. cbn zeta. cbn [ModInfoCache.disk]. split.
    + apply Hget; [exact Eid|]. unfold ModInfoCache.read.
      rewrite lookup_insert_ne by discriminate. rewrite lookup_insert_eq. reflexivity.
    + intros _. apply Hget; [exact Ename|]. unfold ModInfoCache.read.
      rewrite lookup_insert_eq. rewrite lookup_insert_ne by discriminate.
      rewrite lookup_insert_eq. reflexivity.
Qed.

Lemma ModInfoCache_stored_value_is_loaded_again_witness :
  let stored := snd (ModInfoCache.set (ModInfoCache.ModInfoCache ∅ ∅) SourceType.MODRINTH
                                      Examples.info_full) in
  let fresh := ModInfoCache.ModInfoCache ∅ (ModInfoCache.disk stored) in
  fst (ModInfoCache.get_by_id fresh SourceType.MODRINTH (ModInfo.id Examples.info_full))
    = Ok (Some Examples.info_full)
  /\ fst (ModInfoCache.get_by_name fresh SourceType.MODRINTH
            (ModInfo.name Examples.info_full))
     = Ok (Some Examples.info_full).
Proof.
  destruct (ModInfoCache_stored_value_is_loaded_again
              (ModInfoCache.ModInfoCache ∅ ∅)
              (snd (ModInfoCache.set (ModInfoCache.ModInfoCache ∅ ∅) SourceType.MODRINTH
                                     Examples.info_full))
              SourceType.MODRINTH Examples.info_full) as [Hid Hname].
  - vm_compute. reflexivity.
  - reflexivity.
  - split; [exact Hid|]. apply Hname. reflexivity.
Defined.

(** X24.  A miss and a failure are remembered.  Once a lookup has answered
    [None] or has raised, the same lookup gives the same answer whatever
    the files hold afterwards, and changes nothing: only [set] brings the
    mod back. *)
Theorem ModInfoCache_remembers_misses_and_failures (by_ : ModInfoCache.by_)
  (self c : ModInfoCache.t) (src : SourceType.t) (id : string)
  (answer : result (option ModInfo.t)) :
  ModInfoCache._get_by by_ self src id = (answer, c) ->
  (forall info, answer <> Ok (Some info)) ->
  forall disk' : gmap ModInfoCache.key ModInfoCache.file,
    let later := ModInfoCache.ModInfoCache (ModInfoCache.cache c) disk' in
    ModInfoCache._get_by by_ later src id = (answer, later).
Proof.
  unfold ModInfoCache._get_by. intros Hget Hmiss disk'. cbn zeta.
  cbn [ModInfoCache.cache ModInfoCache.disk].
  destruct (ModInfoCache.cache self !! (by_, src, id)) as [[info| |e]|] eqn:Ecached.
  - injection Hget as <- <-. exfalso. exact (Hmiss info eq_refl).
  - injection Hget as <- <-. rewrite Ecached. reflexivity.
  - injection Hget as <- <-. rewrite Ecached. reflexivity.
  - destruct (ModInfoCache._path_by by_ src id) as [p|e] eqn:Epath.
    2:{ injection Hget as <- <-. rewrite Ecached. reflexivity. }
    destruct (ModInfoCache.read (ModInfoCache.disk self) p) as [content|].
    + destruct (ModInfoCache.load content) as [result|e].
      * injection Hget as <- <-. exfalso. exact (Hmiss result eq_refl).
      * injection Hget as <- <-. cbn [ModInfoCache.cache]. rewrite lookup_insert_eq.
        reflexivity.
    + injection Hget as <- <-. cbn [ModInfoCache.cache]. rewrite lookup_insert_eq.
      reflexivity.
Qed.

Lemma ModInfoCache_remembers_misses_and_failures_witness :
  let empty := ModInfoCache.ModInfoCache ∅ ∅ in
  let c := snd (ModInfoCache.get_by_name empty SourceType.MODRINTH "mod-a") in
  let disk' : gmap ModInfoCache.key ModInfoCache.file :=
    {[ (ModInfoCache.by_name, SourceType.MODRINTH, "mod-a")
       := ModInfoCache.Document (Some (serialize ModInfo_codec Examples.info_full)) ]} in
  let later := ModInfoCache.ModInfoCache (ModInfoCache.cache c) disk' in
  ModInfoCache._get_by ModInfoCache.by_name later SourceType.MODRINTH "mod-a"
  = (Ok None, later).
Proof.
  apply (ModInfoCache_remembers_misses_and_failures ModInfoCache.by_name
           (ModInfoCache.ModInfoCache ∅ ∅)
           (snd (ModInfoCache.get_by_name (ModInfoCache.ModInfoCache ∅ ∅)
                   SourceType.MODRINTH "mod-a"))
           SourceType.MODRINTH "mod-a" (Ok None)).
  - reflexivity.
  - discriminate.
Defined.
(** ** ModInfoManager: what is fetched once is not fetched again *)

Lemma dict_get_set_eq {V} (k : string) (v : V) (m : list (string * V)) :
  dict_get k (dict_set k v m) = Some v.
Proof.
  induction m as [|[k0 v0] m IH]; cbn [dict_set dict_get].
  - rewrite String.eqb_refl. reflexivity.
  - destruct (String.eqb k0 k) eqn:E; cbn [dict_get].
    + rewrite String.eqb_refl. reflexivity.
    + rewrite E. exact IH.
Qed.

Lemma dict_get_set_ne {V} (k k' : string) (v : V) (m : list (string * V)) :
  k' <> k -> dict_get k (dict_set k' v m) = dict_get k m.
Proof.
  intros Hne. induction m as [|[k0 v0] m IH]; cbn [dict_set dict_get].
  - destruct (String.eqb_spec k' k); [contradiction|reflexivity].
  - destruct (String.eqb_spec k0 k') as [->|]; cbn [dict_get].
    + destruct (String.eqb_spec k' k); [contradiction|reflexivity].
    + destruct (String.eqb k0 k); [reflexivity|exact IH].
Qed.

Lemma with_cache_same (self : ModInfoManager.t) :
  ModInfoManager.with_cache self (ModInfoManager.cache self) = self.
Proof. destruct self. reflexivity. Qed.

(** X25.  The detail of a version is fetched at most once.  After
    [get_version_info] has answered, asking again for the same version of
    the [ModInfo] it left behind gives the same answer and changes nothing:
    no backend request is made and nothing is written. *)
Theorem get_version_info_is_fetched_once (self self' : ModInfoManager.t)
  (source : SourceType.t) (modinfo modinfo' : ModInfo.t) (ver : ModVer.t)
  (found : ModVerPair.t) :
  ModInfoManager.get_version_info self source modinfo ver = (Ok (found, modinfo'), self') ->
  ModInfoManager.get_version_info self' source modinfo' ver = (Ok (found, modinfo'), self')
  /\ ModVerPair.ver found = ver
  /\ ModVerPair.info found = dict_get (ModVer.id ver) (ModInfo.version_info modinfo').
Proof.
  unfold ModInfoManager.get_version_info.
  destruct (dict_get (ModVer.id ver) (ModInfo.version_info modinfo)) as [info|] eqn:Eknown.
  - intros H. injection H as <- <- <-. rewrite Eknown. repeat split.
  - destruct (ModInfoManager.backend self source) as [be|e]; [|discriminate].
    destruct (get_version_info be (ModInfo.mod_desc modinfo) ver) as [info|e]; [|discriminate].
    destruct (ModInfoCache.set _ _ _) as [[stored|e] c]; [|discriminate].
    intros H. injection H as <- <- <-. cbn [ModInfo.version_info].
    rewrite dict_get_set_eq. repeat split.
Qed.

Lemma get_version_info_is_fetched_once_witness :
  let manager := Examples.manager_on Examples.info_late_backport Examples.backend_up in
  let first := ModInfoManager.get_version_info manager SourceType.MODRINTH
                 Examples.info_late_backport Examples.v_0_9_1_for_1_19 in
  exists found modinfo',
    fst first = Ok (found, modinfo')
    /\ ModInfoManager.requests (snd first)
       = [GetVersionInfo SourceType.MODRINTH (ModInfo.mod_desc Examples.info_late_backport)
                         Examples.v_0_9_1_for_1_19]
    /\ ModInfoManager.get_version_info (snd first) SourceType.MODRINTH modinfo'
                                       Examples.v_0_9_1_for_1_19
       = (Ok (found, modinfo'), snd first).
Proof.
  cbn zeta.
  destruct (ModInfoManager.get_version_info
              (Examples.manager_on Examples.info_late_backport Examples.backend_up)
              SourceType.MODRINTH Examples.info_late_backport Examples.v_0_9_1_for_1_19)
    as [[[found modinfo']|e] manager'] eqn:E; [|vm_compute in E; discriminate E].
  exists found, modinfo'. split; [reflexivity|]. split.
  - cbn [snd]. apply (f_equal snd) in E. cbn [snd] in E. rewrite <- E.
    vm_compute. reflexivity.
  - apply (get_version_info_is_fetched_once _ _ _ _ _ _ _ E).
Defined.
Lemma set_Ok (self c : ModInfoCache.t) (src : SourceType.t) (value stored : ModInfo.t) :
  ModInfoCache.set self src value = (Ok stored, c) -> stored = value.
Proof.
  unfold ModInfoCache.set.
  destruct (ModInfoCache._path_by ModInfoCache.by_id src (ModInfo.id value)); [|discriminate].
  destruct (ModInfoCache._path_by ModInfoCache.by_name src (ModInfo.name value));
    [|discriminate].
  destruct (ModInfoCache.read _ _); [intros H; injection H as <- _; reflexivity|].
  destruct (_ !! _); [discriminate|]. intros H. injection H as <- _. reflexivity.
Qed.

Lemma revalidate_Ok (self self' : ModInfoManager.t) (now : datetime.t)
  (source : SourceType.t) (type : Type_.t) (id_or_name : string) (desc : option ModDesc.t)
  (versions : list ModVer.t) (version_info : list (string * ModVerInfo.t))
  (info : ModInfo.t) :
  ModInfoManager.revalidate self now source type id_or_name desc versions version_info
    = (Ok info, self') ->
  ModInfoCache.cache (ModInfoManager.cache self')
    !! (ModInfoCache.by_name, source, ModInfo.name info) = Some (ModInfoCache.Info info)
  /\ ModInfo.checked info = now.
Proof.
  unfold ModInfoManager.revalidate.
  destruct (ModInfoManager.backend self source) as [be|e]; [|discriminate].
  destruct (get_moddesc be type id_or_name) as [newdesc|e]; [|discriminate].
  assert (Hset : forall (s c : ModInfoCache.t) (v stored : ModInfo.t),
    ModInfoCache.set s source v = (Ok stored, c) ->
    (Ok stored, c) = (Ok info, ModInfoManager.cache self') ->
    ModInfoCache.cache (ModInfoManager.cache self')
      !! (ModInfoCache.by_name, source, ModInfo.name info) = Some (ModInfoCache.Info info)
    /\ info = v).
  { intros s c v stored Eset H. injection H as -> ->.
    pose proof (set_Ok _ _ _ _ _ Eset) as ->.
    pose proof (set_cache s source v) as Hc. rewrite Eset in Hc. cbn [snd] in Hc.
    rewrite Hc. split; [apply lookup_insert_eq|reflexivity]. }
  match goal with |- context [if ?b then _ else _] => destruct b end.
  - destruct (get_versions be newdesc) as [[vs nvi]|e]; [|discriminate].
    destruct (ModInfoCache.set _ _ _) as [[stored|e] c] eqn:Eset; [|discriminate].
    intros H. destruct (Hset _ _ _ _ Eset) as [Hlook ->].
    + injection H as <- <-. reflexivity.
    + split; [exact Hlook|reflexivity].
  - destruct (ModInfoCache.set _ _ _) as [[stored|e] c] eqn:Eset; [|discriminate].
    intros H. destruct (Hset _ _ _ _ Eset) as [Hlook ->].
    + injection H as <- <-. reflexivity.
    + split; [exact Hlook|reflexivity].
Qed.

Lemma get_by_name_found (self c : ModInfoCache.t) (src : SourceType.t) (info : ModInfo.t) :
  ModInfoCache.get_by_name self src (ModInfo.name info) = (Ok (Some info), c) ->
  ModInfoCache.cache c !! (ModInfoCache.by_name, src, ModInfo.name info)
  = Some (ModInfoCache.Info info).
Proof.
  unfold ModInfoCache.get_by_name, ModInfoCache._get_by.
  destruct (ModInfoCache.cache self !! (ModInfoCache.by_name, src, ModInfo.name info))
    as [[cached| |e]|] eqn:Ecached; try discriminate.
  - intros H. injection H as <- <-. exact Ecached.
  - destruct (ModInfoCache._path_by _ _ _) as [p|e]; [|discriminate].
    destruct (ModInfoCache.read _ _) as [content|]; [|discriminate].
    destruct (ModInfoCache.load content) as [result|e]; [|discriminate].
    intros H. injection H as -> <-. cbn [ModInfoCache.cache]. apply lookup_insert_eq.
Qed.

(** X26.  An answer of [get_modinfo] is served from the cache afterwards.
    If [get_modinfo] returned a [ModInfo] that carries the name it was asked
    for, a later call for that name, made while the answer is younger than
    the interval drawn, returns the same [ModInfo] and changes nothing: no
    backend request is made. *)
Theorem get_modinfo_answer_is_served_again (self self' : ModInfoManager.t)
  (now : datetime.t) (r : Z) (source : SourceType.t) (type : Type_.t) (info : ModInfo.t)
  (later : datetime.t) (r' : Z) :
  ModInfoManager.get_modinfo self now r source type (ModInfo.name info) = (Ok info, self') ->
  datetime.__sub__ later (ModInfo.checked info) < ModInfoManager.recheck_interval r' ->
  ModInfoManager.get_modinfo self' later r' source type (ModInfo.name info)
  = (Ok info, self').
Proof.
  intros Hfirst Hyoung.
  assert (Hcached : ModInfoCache.cache (ModInfoManager.cache self')
                    !! (ModInfoCache.by_name, source, ModInfo.name info)
                    = Some (ModInfoCache.Info info)).
  { revert Hfirst. unfold ModInfoManager.get_modinfo.
    destruct (ModInfoCache.get_by_name (ModInfoManager.cache self) source (ModInfo.name info))
      as [found c] eqn:Eget.
    destruct found as [[cached|]|e].
    - destruct (_ <? _).
      + intros H. injection H as -> <-. cbn [ModInfoManager.with_cache ModInfoManager.cache].
        apply (get_by_name_found _ _ _ _ Eget).
      + intros H. apply revalidate_Ok in H. apply H.
    - intros H. apply revalidate_Ok in H. apply H.
    - intros H. apply revalidate_Ok in H. apply H. }
  unfold ModInfoManager.get_modinfo, ModInfoCache.get_by_name.
  rewrite (get_by_cached _ _ _ _ _ Hcached), with_cache_same.
  destruct (Z.ltb_spec (datetime.__sub__ later (ModInfo.checked info))
                       (ModInfoManager.recheck_interval r')) as [_|Hge]; [reflexivity|lia].
Qed.

Lemma get_modinfo_answer_is_served_again_witness :
  let manager := ModInfoManager.ModInfoManager (ModInfoCache.ModInfoCache ∅ ∅)
                   (fun _ => Some Examples.backend_up) [] in
  let first := ModInfoManager.get_modinfo manager Examples.mar_10 21600
                 SourceType.MODRINTH Type_.MOD (ModInfo.name Examples.info_late_backport) in
  exists info,
    fst first = Ok info
    /\ ModInfoManager.get_modinfo (snd first) Examples.mar_10_13h 21600
         SourceType.MODRINTH Type_.MOD (ModInfo.name Examples.info_late_backport)
       = (Ok info, snd first).
Proof.
  cbn zeta.
  destruct (ModInfoManager.get_modinfo
              (ModInfoManager.ModInfoManager (ModInfoCache.ModInfoCache ∅ ∅)
                 (fun _ => Some Examples.backend_up) [])
              Examples.mar_10 21600 SourceType.MODRINTH Type_.MOD
              (ModInfo.name Examples.info_late_backport))
    as [[info|e] manager'] eqn:E; [|vm_compute in E; discriminate E].
  exists info. split; [reflexivity|]. cbn [snd].
  assert (Hname : ModInfo.name info = ModInfo.name Examples.info_late_backport).
  { apply (f_equal fst) in E. cbn [fst] in E. vm_compute in E. injection E as <-.
    reflexivity. }
  assert (Hchecked : ModInfo.checked info = Examples.mar_10).
  { apply (f_equal fst) in E. cbn [fst] in E. vm_compute in E. injection E as <-.
    reflexivity. }
  rewrite <- Hname in *.
  apply (get_modinfo_answer_is_served_again _ _ _ _ _ _ _ _ _ E).
  rewrite Hchecked. vm_compute. reflexivity.
Defined.

(** X27.  When the cached copy is due for a recheck and the backend answers
    with a descriptor, the versions are fetched again only if the [updated]
    stamp has changed.  With an unchanged stamp the one request made is the
    descriptor request, and the answer, if [set] lets it through, carries
    the new descriptor and check time with the versions and version details
    of the cached copy. *)
Theorem get_modinfo_refetches_versions_only_on_update (self : ModInfoManager.t)
  (now : datetime.t) (r : Z) (source : SourceType.t) (type : Type_.t) (id_or_name : string)
  (info : ModInfo.t) (c : ModInfoCache.t) (be : Backend) (newdesc : ModDesc.t) :
  ModInfoCache.get_by_name (ModInfoManager.cache self) source id_or_name
    = (Ok (Some info), c) ->
  ModInfoManager.recheck_interval r <= datetime.__sub__ now (ModInfo.checked info) ->
  ModInfoManager.backends self source = Some be ->
  get_moddesc be type id_or_name = Ok newdesc ->
  let answer := ModInfoManager.get_modinfo self now r source type id_or_name in
  (ModDesc.updated newdesc <> ModDesc.updated (ModInfo.mod_desc info) ->
   ModInfoManager.requests (snd answer)
   = (ModInfoManager.requests self
      ++ [GetModdesc source type id_or_name; GetVersions source newdesc])%list)
  /\ (ModDesc.updated newdesc = ModDesc.updated (ModInfo.mod_desc info) ->
      ModInfoManager.requests (snd answer)
      = (ModInfoManager.requests self ++ [GetModdesc source type id_or_name])%list
      /\ forall result, fst answer = Ok result ->
           ModInfo.checked result = now
           /\ ModInfo.mod_desc result = newdesc
           /\ Permutation (ModInfo.versions result) (ModInfo.versions info)
           /\ ModInfo.version_info result = ModInfo.version_info info).
Proof.
  intros Hget Hstale Hbe Hdesc. cbn zeta.
  unfold ModInfoManager.get_modinfo. rewrite Hget.
  destruct (Z.ltb_spec (datetime.__sub__ now (ModInfo.checked info))
                       (ModInfoManager.recheck_interval r)) as [Hlt|_]; [lia|].
  unfold ModInfoManager.revalidate, ModInfoManager.backend.
  cbn [ModInfoManager.with_cache ModInfoManager.backends]. rewrite Hbe.
  cbn [ModInfoManager.log ModInfoManager.cache ModInfoManager.backends
       ModInfoManager.requests]. rewrite Hdesc.
  split.
  - intros Hchanged. rewrite bool_decide_eq_false_2 by congruence. cbn [negb].
    destruct (get_versions be newdesc) as [[vs nvi]|e].
    + destruct (ModInfoCache.set _ _ _) as [res c']. cbn. rewrite <- app_assoc. reflexivity.
    + cbn. rewrite <- app_assoc. reflexivity.
  - intros Hsame. rewrite bool_decide_eq_true_2 by congruence. cbn [negb].
    destruct (ModInfoCache.set _ _ _) as [res c'] eqn:Eset. cbn [fst snd].
    split; [reflexivity|]. intros result ->. apply set_Ok in Eset. subst result.
    unfold ModInfo.ModInfo.
    cbn [ModInfo.checked ModInfo.mod_desc ModInfo.versions ModInfo.version_info].
    repeat split. apply sorted_perm.
Qed.

Lemma get_modinfo_refetches_versions_only_on_update_witness :
  let manager := Examples.manager_on Examples.info_late_backport Examples.backend_up in
  let answer := ModInfoManager.get_modinfo manager Examples.mar_11 25000
                  SourceType.MODRINTH Type_.MOD "mod-a" in
  ModInfoManager.requests (snd answer)
  = [GetModdesc SourceType.MODRINTH Type_.MOD "mod-a"]
  /\ exists result, fst answer = Ok result /\ ModInfo.checked result = Examples.mar_11.
Proof.
  cbn zeta.
  destruct (get_modinfo_refetches_versions_only_on_update
              (Examples.manager_on Examples.info_late_backport Examples.backend_up)
              Examples.mar_11 25000 SourceType.MODRINTH Type_.MOD "mod-a"
              Examples.info_late_backport
              (ModInfoManager.cache
                 (Examples.manager_on Examples.info_late_backport Examples.backend_up))
              Examples.backend_up Examples.desc_a) as [_ Hsame].
  - vm_compute. reflexivity.
  - vm_compute. discriminate.
  - reflexivity.
  - reflexivity.
  - destruct Hsame as [Hreq Hres]; [reflexivity|]. split; [exact Hreq|].
    destruct (fst (ModInfoManager.get_modinfo
                     (Examples.manager_on Examples.info_late_backport Examples.backend_up)
                     Examples.mar_11 25000 SourceType.MODRINTH Type_.MOD "mod-a"))
      as [result|e] eqn:E; [|vm_compute in E; discriminate E].
    exists result. split; [reflexivity|]. apply (Hres result eq_refl).
Defined.
(** X28.  [ModInfoCache.set] never rewrites a by-name file that can be
    read: it writes the by-id file and creates the by-name link only when
    nothing readable is there.  So a by-name file that holds a broken
    document, or a link to the file of another id, stays as it is. *)
Theorem ModInfoCache_set_keeps_a_readable_by_name_file (self : ModInfoCache.t)
  (src : SourceType.t) (value : ModInfo.t) (content : option json) :
  let by_name_path := (ModInfoCache.by_name, src, ModInfo.name value) in
  ModInfoCache.read (ModInfoCache.disk self) by_name_path = Some content ->
  ModInfoCache.disk (snd (ModInfoCache.set self src value)) !! by_name_path
  = ModInfoCache.disk self !! by_name_path.
Proof.
  cbn zeta. intros Hread. unfold ModInfoCache.set.
  destruct (ModInfoCache._path_by ModInfoCache.by_id src (ModInfo.id value))
    as [pid|e] eqn:Eid; [|reflexivity].
  destruct (ModInfoCache._path_by ModInfoCache.by_name src (ModInfo.name value))
    as [pname|e] eqn:Ename; [|reflexivity].
  assert (Hpid : pid = (ModInfoCache.by_id, src, ModInfo.id value)).
  { unfold ModInfoCache._path_by in Eid. destruct src; try discriminate;
      destruct (contains "/" _); try discriminate; injection Eid as <-; reflexivity. }
  assert (Hpname : pname = (ModInfoCache.by_name, src, ModInfo.name value)).
  { unfold ModInfoCache._path_by in Ename. destruct src; try discriminate;
      destruct (contains "/" _); try discriminate; injection Ename as <-; reflexivity. }
  subst pid pname.
  set (doc := ModInfoCache.Document (Some (serialize ModInfo_codec value))).
  assert (Hstill : exists x,
    ModInfoCache.read (<[(ModInfoCache.by_id, src, ModInfo.id value) := doc]>
                         (ModInfoCache.disk self))
                      (ModInfoCache.by_name, src, ModInfo.name value) = Some x).
  { revert Hread. unfold ModInfoCache.read. rewrite lookup_insert_ne by discriminate.
    destruct (ModInfoCache.disk self !! _) as [[c|q]|]; [eexists; reflexivity| |discriminate].
    destruct (decide ((ModInfoCache.by_id, src, ModInfo.id value) = q)) as [<-|Hq].
    - rewrite lookup_insert_eq. intros _. eexists. reflexivity.
    - rewrite lookup_insert_ne by exact Hq.
      destruct (ModInfoCache.disk self !! q) as [[c|q']|]; try discriminate.
      intros _. eexists. reflexivity. }
  destruct Hstill as [x Hx]. clear Hread.
  destruct (ModInfoCache.read (<[_ := _]> _) _) as [y|] eqn:Ey.
  - cbn [snd ModInfoCache.disk]. apply lookup_insert_ne. discriminate.
  - exfalso. unfold ModInfoCache.read, ModInfoCache.key in *. congruence.
Qed.

Lemma ModInfoCache_set_keeps_a_readable_by_name_file_witness :
  let broken : gmap ModInfoCache.key ModInfoCache.file :=
    {[ (ModInfoCache.by_name, SourceType.MODRINTH, ModInfo.name Examples.info_full)
       := ModInfoCache.Document None ]} in
  ModInfoCache.disk (snd (ModInfoCache.set (ModInfoCache.ModInfoCache ∅ broken)
                                           SourceType.MODRINTH Examples.info_full))
    !! (ModInfoCache.by_name, SourceType.MODRINTH, ModInfo.name Examples.info_full)
  = Some (ModInfoCache.Document None).
Proof.
  cbn zeta.
  rewrite (ModInfoCache_set_keeps_a_readable_by_name_file
             (ModInfoCache.ModInfoCache ∅
                {[ (ModInfoCache.by_name, SourceType.MODRINTH, ModInfo.name Examples.info_full)
                   := ModInfoCache.Document None ]})
             SourceType.MODRINTH Examples.info_full None).
  - apply lookup_singleton_eq.
  - unfold ModInfoCache.read. cbn [ModInfoCache.disk]. rewrite lookup_singleton_eq. reflexivity.
Defined.

(** ** Warnings *)

Lemma dict_set_keys {V} (k : string) (v : V) (m : list (string * V)) :
  map fst (dict_set k v m)
  = match dict_get k m with Some _ => map fst m | None => (map fst m ++ [k])%list end.
Proof.
  induction m as [|[k0 v0] m IH]; [reflexivity|]. cbn [dict_set dict_get map fst].
  destruct (String.eqb_spec k0 k) as [->|Hne]; [reflexivity|].
  cbn [map fst]. rewrite IH. destruct (dict_get k m); reflexivity.
Qed.

Lemma Warnings_add_other (self : Warnings.t) (mod_ warning other : string) :
  other <> mod_ -> dict_get other (Warnings.add self mod_ warning) = dict_get other self.
Proof.
  intros Hne. unfold Warnings.add.
  destruct (dict_get mod_ self) as [[|w ws]|]; apply dict_get_set_ne; congruence.
Qed.

(** X29.  [Warnings.add] appends: afterwards the warnings of the mod are the
    ones it had, followed by the new one; the warnings of every other mod
    are untouched; and the mods keep their order, a mod without earlier
    warnings going last. *)
Theorem Warnings_add_appends (self : Warnings.t) (mod_ warning : string) :
  dict_get mod_ (Warnings.add self mod_ warning)
  = Some (default [] (dict_get mod_ self) ++ [warning])%list
  /\ (forall other, other <> mod_ ->
        dict_get other (Warnings.add self mod_ warning) = dict_get other self)
  /\ map fst (Warnings.add self mod_ warning)
     = match dict_get mod_ self with
       | Some _ => map fst self
       | None => (map fst self ++ [mod_])%list
       end.
Proof.
  split; [|split; [intros other; apply Warnings_add_other|]]; unfold Warnings.add;
    destruct (dict_get mod_ self) as [[|w ws]|] eqn:E; cbn [default];
    rewrite ?dict_get_set_eq, ?dict_set_keys, ?E; reflexivity.
Qed.

Lemma Warnings_add_appends_witness :
  dict_get "mod-b" (Warnings.add [("mod-a", ["first"])] "mod-a" "second")
  = dict_get "mod-b" [("mod-a", ["first"])].
Proof.
  apply (Warnings_add_appends [("mod-a", ["first"])] "mod-a" "second"). discriminate.
Defined.

(** X30.  [find_version] touches the warnings of the mod it is asked about
    and of no other: whatever it returns or raises, the warnings of every
    other mod are as before, and the mod itself has its earlier warnings
    with at most the one text about an older version added. *)
Theorem find_version_warns_only_about_its_mod (manager : ModInfoManager.t)
  (now : datetime.t) (r : Z) (name : string) (type : Type_.t) (source : SourceType.t)
  (mvm : ModVerMatch.t) (warnings : Warnings.t) :
  let after := snd (find_version manager now r name type source mvm warnings) in
  (forall other, other <> name -> dict_get other after = dict_get other warnings)
  /\ (after = warnings \/ after = Warnings.add warnings name older_warning).
Proof.
  cbn zeta.
  assert (Hafter : snd (find_version manager now r name type source mvm warnings) = warnings
                   \/ snd (find_version manager now r name type source mvm warnings)
                      = Warnings.add warnings name older_warning).
  { unfold find_version.
    destruct (ModInfoManager.get_modinfo manager now r source type name) as [[info|e] m];
      [|left; reflexivity].
    assert (Hsel : forall latest w, select_version info name mvm warnings = Ok (latest, w) ->
                     w = warnings \/ w = Warnings.add warnings name older_warning).
    { unfold select_version. intros latest w.
      destruct (ModInfo.get_latest_version info mvm) as [[l|]|e]; cbn [mbind result_bind];
        try discriminate;
        destruct (ModInfo.get_versions info mvm) as [accepted|e]; cbn [mbind result_bind];
        try discriminate.
      destruct (sorted published_lt true accepted) as [|newest rest]; [discriminate|].
      destruct (negb _); intros H; injection H as <- <-; [right|left]; reflexivity. }
    destruct (select_version info name mvm warnings) as [[latest w]|e] eqn:Esel;
      [|left; reflexivity].
    destruct (ModInfoManager.get_version_info m source info latest) as [[[f i]|e] m'];
      cbn [snd]; exact (Hsel latest w eq_refl). }
  split; [|exact Hafter]. intros other Hne.
  destruct Hafter as [-> | ->]; [reflexivity|apply Warnings_add_other, Hne].
Qed.

Lemma find_version_warns_only_about_its_mod_witness :
  dict_get "mod-b"
    (snd (find_version (Examples.manager_with Examples.info_late_backport)
            Examples.mar_10_13h 21600 "mod-a" Type_.MOD SourceType.MODRINTH
            Examples.mvm_1_19_2 [("mod-b", ["kept"])]))
  = dict_get "mod-b" [("mod-b", ["kept"])].
Proof.
  apply (find_version_warns_only_about_its_mod
           (Examples.manager_with Examples.info_late_backport)
           Examples.mar_10_13h 21600 "mod-a" Type_.MOD SourceType.MODRINTH
           Examples.mvm_1_19_2 [("mod-b", ["kept"])]).
  discriminate.
Defined.
